(** * transcribe_videos.py: a shallow embedding and its properties

    The script grows a table of YouTube videos: it pages through the search
    endpoint, fetches statistics in batches, fetches a transcript per video,
    merges the new records into a CSV-backed table and writes it to disk.

    Everything the script does to the outside world (HTTP requests, the
    transcript service, language detection, the clock, the file system, the
    log, sleeping) is an event of a trace. The outside world answers each
    call as a function of the request and of the whole trace so far, so an
    answer may depend on anything that happened before it. Python exceptions
    are an outcome of a computation next to a normal return; the state
    reached so far survives a raise, as it does in Python. *)

From Stdlib Require Import ZArith Ascii.
From stdpp Require Import base option list strings pretty gmap.

Local Open Scope string_scope.
Local Open Scope list_scope.
Local Open Scope Z_scope.

(** ** Exceptions

    Only subclasses of [Exception] are modelled. [HttpError] is
    googleapiclient's error and carries [e.resp.status]; every exception
    carries the text [str(e)] that the log lines print. *)

Inductive Exn : Type :=
| HttpError (status : Z) (str : string)
| Exception (str : string).

Definition exn_str (e : Exn) : string :=
  match e with
  | HttpError _ s => s
  | Exception s => s
  end.

(** ** Data *)

(** One item of a search response: [v['id']['videoId']] and [v['snippet']]. *)
Record Snippet : Type := mkSnippet {
  sn_title : string;
  sn_description : string;
  sn_publishedAt : string;
  sn_regionCode : option string
}.

Record SearchItem : Type := mkSearchItem {
  id_videoId : string;
  snippet : Snippet
}.

(** A search response: [response.get('items', [])] and
    [response.get('nextPageToken')]. *)
Record SearchResponse : Type := mkSearchResponse {
  sr_items : option (list SearchItem);
  sr_nextPageToken : option string
}.

(** The keyword arguments of [youtube.search().list(...)]. *)
Record SearchRequest : Type := mkSearchRequest {
  rq_q : string;
  rq_part : string;
  rq_type : string;
  rq_publishedAfter : string;
  rq_publishedBefore : string;
  rq_maxResults : Z;
  rq_pageToken : option string
}.

(** One item of a videos response: [v['id']] and [v.get('statistics', {})]
    with its three optional counters. *)
Record Statistics : Type := mkStatistics {
  viewCount : option Z;
  likeCount : option Z;
  commentCount : option Z
}.

Record VideoItem : Type := mkVideoItem {
  vi_id : string;
  vi_statistics : option Statistics
}.

Record VideosResponse : Type := mkVideosResponse {
  vr_items : option (list VideoItem)
}.

(** One caption segment of a transcript: [item['text']]. *)
Record Segment : Type := mkSegment {
  seg_text : string
}.

(** A row of the DataFrame, one field per column. A cell that pandas holds
    as NaN (a missing value) is [None]. *)
Record Row : Type := mkRow {
  video_id : string;
  title : option string;
  description : option string;
  published_at : option string;
  view_count : option Z;
  like_count : option Z;
  comment_count : option Z;
  video_url : option string;
  region : option string;
  transcription : option string;
  detected_language : option string
}.

(** The DataFrame: its rows in order. The index is the default RangeIndex,
    so a row's label is its position. *)
Abbreviation Table := (list Row).

(** [existing_data.at[index, 'transcription'] = v] and its siblings. *)
Definition set_transcription (v : string) (r : Row) : Row :=
  mkRow (video_id r) (title r) (description r) (published_at r)
        (view_count r) (like_count r) (comment_count r)
        (video_url r) (region r) (Some v) (detected_language r).

Definition set_detected_language (v : string) (r : Row) : Row :=
  mkRow (video_id r) (title r) (description r) (published_at r)
        (view_count r) (like_count r) (comment_count r)
        (video_url r) (region r) (transcription r) (Some v).

Definition set_view_count (v : option Z) (r : Row) : Row :=
  mkRow (video_id r) (title r) (description r) (published_at r)
        v (like_count r) (comment_count r)
        (video_url r) (region r) (transcription r) (detected_language r).

Definition set_like_count (v : option Z) (r : Row) : Row :=
  mkRow (video_id r) (title r) (description r) (published_at r)
        (view_count r) v (comment_count r)
        (video_url r) (region r) (transcription r) (detected_language r).

Definition set_comment_count (v : option Z) (r : Row) : Row :=
  mkRow (video_id r) (title r) (description r) (published_at r)
        (view_count r) (like_count r) v
        (video_url r) (region r) (transcription r) (detected_language r).

(** ** Configuration *)

Record Config : Type := mkConfig {
  query : string;
  published_after : string;
  published_before : string;
  max_results_per_page : Z;
  csv_file_path : string;
  batch_size : Z;
  update_existing : bool;
  fetch_transcripts : bool;
  update_transcripts : bool
}.

Definition CONFIG : Config := {|
  query := "sourdough bread baking";
  published_after := "2020-03-15T00:00:00Z";
  published_before := "2021-04-01T00:00:00Z";
  max_results_per_page := 50;
  csv_file_path := "data/scrapped_data.csv";
  batch_size := 50;
  update_existing := false;
  fetch_transcripts := true;
  update_transcripts := false
|}.

(** ** Events, the outside world, and the state of a run *)

Inductive Level : Type := INFO | ERROR.

Inductive Event : Type :=
| EvGetenv (name : string) (r : option string)
| EvBuild (developerKey : string) (r : option Exn)
| EvMakedirs (dir : string) (r : option Exn)
| EvToCsv (path : string) (df : Table) (r : option Exn)
| EvSearch (rq : SearchRequest) (r : Exn + SearchResponse)
| EvVideos (part : string) (id : string) (r : Exn + VideosResponse)
| EvTranscript (video_id : string) (r : Exn + list Segment)
| EvDetect (text : string) (r : Exn + string)
| EvTime (t : Z)
| EvSleep (secs : Z)
| EvLog (level : Level) (msg : string).

(** The answers of the outside world. The first argument of each field is
    the trace up to the call. A write or a directory creation answers
    [None] when it succeeds and [Some e] when it raises [e]. The clock
    answers [int(time.time())], the only way the script reads it. *)
Record Env : Type := mkEnv {
  os_getenv : list Event → string → option string;
  build : list Event → string → option Exn;
  os_makedirs : list Event → string → option Exn;
  to_csv : list Event → string → Table → option Exn;
  search_list_execute : list Event → SearchRequest → Exn + SearchResponse;
  videos_list_execute : list Event → string → string → Exn + VideosResponse;
  get_transcript : list Event → string → Exn + list Segment;
  detect_language : list Event → string → Exn + string;
  time_time : list Event → Z
}.

(** The CSV files on disk, each identified with the table it holds, and the
    trace so far. *)
Record State : Type := mkState {
  files : gmap string Table;
  trace : list Event
}.

(** [st ▷ ev]: the state after one more event. *)
Definition record (st : State) (ev : Event) : State :=
  mkState (files st) (trace st ++ [ev]).
Notation "st ▷ ev" := (record st ev) (at level 50, left associativity).

(** The state after [path] has been replaced by the CSV of [df]. *)
Definition store (path : string) (df : Table) (st : State) : State :=
  mkState (<[path := df]> (files st)) (trace st).

(** ** The monad of the script

    A computation returns a value, raises an exception, or is cut short
    because the [while True] loop of the search ran out of the turns it was
    given. No handler catches the last outcome. *)

Inductive Outcome (A : Type) : Type :=
| Return (a : A)
| Raise (e : Exn)
| OutOfFuel.
Arguments Return {A} a.
Arguments Raise {A} e.
Arguments OutOfFuel {A}.

Definition M (A : Type) : Type := State → Outcome A * State.

Definition ret {A} (a : A) : M A := λ st, (Return a, st).

Definition bind {A B} (m : M A) (k : A → M B) : M B := λ st,
  match m st with
  | (Return a, st') => k a st'
  | (Raise e, st') => (Raise e, st')
  | (OutOfFuel, st') => (OutOfFuel, st')
  end.

Declare Scope M_scope.
Delimit Scope M_scope with M.
Notation "x ← y ; z" := (bind y (λ x : _, z))
  (at level 20, y at level 100, z at level 200, only parsing) : M_scope.
Notation "' x ← y ; z" := (bind y (λ x : _, z))
  (at level 20, x pattern, y at level 100, z at level 200, only parsing) : M_scope.
Notation "x ;; z" := (bind x (λ _, z))
  (at level 100, z at level 200, only parsing, right associativity) : M_scope.
Local Open Scope M_scope.

Definition raise {A} (e : Exn) : M A := λ st, (Raise e, st).

Definition out_of_fuel {A} : M A := λ st, (OutOfFuel, st).

(** [try: body except Exception as e: handler e]. A handler that does not
    match the class of [e] raises it again. *)
Definition try_except {A} (body : M A) (handler : Exn → M A) : M A := λ st,
  match body st with
  | (Raise e, st') => handler e st'
  | r => r
  end.

Definition emit (ev : Event) : M unit := λ st, (Return tt, st ▷ ev).

Definition logging_info (msg : string) : M unit := emit (EvLog INFO msg).
Definition logging_error (msg : string) : M unit := emit (EvLog ERROR msg).
Definition time_sleep (secs : Z) : M unit := emit (EvSleep secs).

(** ** Python helpers *)

(** Truth value of an optional string: [None] and [''] are falsy. *)
Definition truthy (s : option string) : bool :=
  match s with
  | None => false
  | Some "" => false
  | Some _ => true
  end.

(** [sep.join(l)] *)
Definition join (sep : string) (l : list string) : string := String.concat sep l.

(** [l[lo:hi]] for [0 <= lo <= hi], the only slices the script takes. *)
Definition slice {A} (l : list A) (lo hi : Z) : list A :=
  take (Z.to_nat (hi - lo)) (drop (Z.to_nat lo) l).

(** The values [range(start, stop, step)] yields: from [start], in steps of
    [step], while the value has not passed [stop]. The fuel bounds the
    number of values; [Z.to_nat (Z.abs (stop - start))] is always enough. *)
Fixpoint range_from (fuel : nat) (i stop step : Z) : list Z :=
  match fuel with
  | O => []
  | S fuel' =>
      if (if 0 <? step then i <? stop else stop <? i)
      then i :: range_from fuel' (i + step) stop step
      else []
  end.

Definition py_range (start stop step : Z) : M (list Z) :=
  if step =? 0 then raise (Exception "range() arg 3 must not be zero")
  else ret (range_from (Z.to_nat (Z.abs (stop - start))) start stop step).

(** [len(l)] as a Python integer. *)
Definition len {A} (l : list A) : Z := Z.of_nat (length l).

(** [os.path.dirname(p)] on POSIX: the part of [p] up to its last slash,
    with trailing slashes stripped unless it consists of slashes only. *)
Fixpoint head_to_last_slash (p : string) : option string :=
  match p with
  | EmptyString => None
  | String c r =>
      match head_to_last_slash r with
      | Some h => Some (String c h)
      | None => if Ascii.eqb c "/"%char then Some (String c EmptyString) else None
      end
  end.

Fixpoint rstrip_slashes (p : string) : string :=
  match p with
  | EmptyString => EmptyString
  | String c r =>
      match rstrip_slashes r with
      | EmptyString => if Ascii.eqb c "/"%char then EmptyString else String c EmptyString
      | r' => String c r'
      end
  end.

Definition os_path_dirname (p : string) : string :=
  match head_to_last_slash p with
  | None => ""
  | Some h =>
      match rstrip_slashes h with
      | EmptyString => h
      | h' => h'
      end
  end.

(** ** Projections of a trace *)

(** The items of every search response that came back, call by call. *)
Definition search_page (ev : Event) : option (list SearchItem) :=
  match ev with
  | EvSearch _ (inr response) => Some (default [] (sr_items response))
  | _ => None
  end.

Definition search_pages (tr : list Event) : list (list SearchItem) :=
  omap search_page tr.

(** The request of every call of the search endpoint, answered or not. *)
Definition search_request_of (ev : Event) : option SearchRequest :=
  match ev with
  | EvSearch rq _ => Some rq
  | _ => None
  end.

Definition search_requests (tr : list Event) : list SearchRequest :=
  omap search_request_of tr.

Definition search_calls (tr : list Event) : nat := length (search_requests tr).

(** The [id] argument of every videos request, answered or not. *)
Definition videos_request (ev : Event) : option string :=
  match ev with
  | EvVideos _ id _ => Some id
  | _ => None
  end.

Definition videos_requests (tr : list Event) : list string :=
  omap videos_request tr.

Definition videos_calls (tr : list Event) : nat := length (videos_requests tr).

(** The items of every videos response that came back. *)
Definition videos_page (ev : Event) : option (list VideoItem) :=
  match ev with
  | EvVideos _ _ (inr response) => Some (default [] (vr_items response))
  | _ => None
  end.

Definition videos_pages (tr : list Event) : list (list VideoItem) :=
  omap videos_page tr.

(** The video of every transcript request. *)
Definition transcript_request (ev : Event) : option string :=
  match ev with
  | EvTranscript v _ => Some v
  | _ => None
  end.

Definition transcript_requests (tr : list Event) : list string :=
  omap transcript_request tr.

(** The tables handed to [to_csv] for a given path, in order. *)
Definition write_to (path : string) (ev : Event) : option Table :=
  match ev with
  | EvToCsv p df _ => if decide (p = path) then Some df else None
  | _ => None
  end.

Definition writes_to (path : string) (tr : list Event) : list Table :=
  omap (write_to path) tr.

Section Pipeline.

Context (env : Env) (cfg : Config).

(** ** Calls to the outside world *)

Definition getenv (name : string) : M (option string) := λ st,
  let r := os_getenv env (trace st) name in
  (Return r, st ▷ EvGetenv name r).

Definition build_youtube (developerKey : string) : M string := λ st,
  let r := build env (trace st) developerKey in
  (match r with
   | None => Return developerKey
   | Some e => Raise e
   end, st ▷ EvBuild developerKey r).

Definition makedirs (dir : string) : M unit := λ st,
  let r := os_makedirs env (trace st) dir in
  (match r with
   | None => Return tt
   | Some e => Raise e
   end, st ▷ EvMakedirs dir r).

(** [os.path.exists(path)] and [pd.read_csv(path)] *)
Definition os_path_exists (path : string) : M bool := λ st,
  (Return (bool_decide (is_Some (files st !! path))), st).

Definition pd_read_csv (path : string) : M Table := λ st,
  match files st !! path with
  | Some df => (Return df, st)
  | None => (Raise (Exception "FileNotFoundError"), st)
  end.

(** [df.to_csv(path, index=False)]: a write that succeeds replaces the
    file; a write that raises leaves the files as they were. *)
Definition df_to_csv (df : Table) (path : string) : M unit := λ st,
  let r := to_csv env (trace st) path df in
  match r with
  | None => (Return tt, store path df st ▷ EvToCsv path df r)
  | Some e => (Raise e, st ▷ EvToCsv path df r)
  end.

Definition search_execute (rq : SearchRequest) : M SearchResponse := λ st,
  let r := search_list_execute env (trace st) rq in
  (match r with
   | inr response => Return response
   | inl e => Raise e
   end, st ▷ EvSearch rq r).

Definition videos_execute (part id : string) : M VideosResponse := λ st,
  let r := videos_list_execute env (trace st) part id in
  (match r with
   | inr response => Return response
   | inl e => Raise e
   end, st ▷ EvVideos part id r).

Definition YouTubeTranscriptApi_get_transcript (v : string) : M (list Segment) := λ st,
  let r := get_transcript env (trace st) v in
  (match r with
   | inr segments => Return segments
   | inl e => Raise e
   end, st ▷ EvTranscript v r).

Definition langdetect (text : string) : M string := λ st,
  let r := detect_language env (trace st) text in
  (match r with
   | inr language => Return language
   | inl e => Raise e
   end, st ▷ EvDetect text r).

(** [int(time.time())] *)
Definition int_time : M Z := λ st,
  let t := time_time env (trace st) in
  (Return t, st ▷ EvTime t).

(** ** Credentials and client *)

Definition get_api_key : M string :=
  api_key ← getenv "YOUTUBE_API_KEY";
  if truthy api_key then ret (default "" api_key)
  else
    logging_error "API key not found. Please set YOUTUBE_API_KEY in your .env file.";;
    raise (Exception "Missing API key").

Definition initialize_youtube_client : M string :=
  try_except
    (key ← get_api_key; build_youtube key)
    (λ e, logging_error ("Failed to initialize YouTube client: " +:+ exn_str e);;
          raise e).

(** ** Table store *)

Definition EMPTY_TABLE : Table := [].

Definition load_existing_data (csv_file : string) : M Table :=
  makedirs (os_path_dirname csv_file);;
  present ← os_path_exists csv_file;
  if present then pd_read_csv csv_file else ret EMPTY_TABLE.

(** [f"{csv_file}.backup.{t}.csv"] *)
Definition backup_file_name (csv_file : string) (t : Z) : string :=
  csv_file +:+ ".backup." +:+ pretty t +:+ ".csv".

Definition save_data (df : Table) (csv_file : string) : M unit :=
  try_except
    (df_to_csv df csv_file;;
     logging_info ("Data saved to " +:+ csv_file))
    (λ e,
       logging_error ("Failed to save data: " +:+ exn_str e);;
       t ← int_time;
       let backup_file := backup_file_name csv_file t in
       df_to_csv df backup_file;;
       logging_info ("Data saved to backup file: " +:+ backup_file)).

(** ** Statistics fetcher *)

(** What one turn of a loop hands to the next: go on, or [break]. *)
Inductive Flow (A : Type) : Type :=
| Continue (a : A)
| Break (a : A).
Arguments Continue {A} a.
Arguments Break {A} a.

(** The body of [for i in range(0, len(video_ids), batch_size)], with the
    remaining values of [i] and the [results] list so far. *)
Fixpoint fetch_batches (youtube : string) (video_ids : list string)
    (indices : list Z) (results : list VideoItem) : M (list VideoItem) :=
  match indices with
  | [] => ret results
  | i :: rest =>
      let batch := slice video_ids i (i + batch_size cfg) in
      flow ← try_except
        (response ← videos_execute "snippet,statistics" (join "," batch);
         let results := results ++ default [] (vr_items response) in
         (if i + batch_size cfg <? len video_ids then time_sleep 1 else ret tt);;
         ret (Continue results))
        (λ e,
           match e with
           | HttpError status _ =>
               logging_error ("Error fetching video details: " +:+ exn_str e);;
               if status =? 403
               then logging_error "API quota exceeded.";; ret (Break results)
               else ret (Continue results)
           | _ => raise e
           end);
      match flow with
      | Continue results => fetch_batches youtube video_ids rest results
      | Break results => ret results
      end
  end.

Definition fetch_video_details (youtube : string) (video_ids : list string)
    : M (list VideoItem) :=
  match video_ids with
  | [] => ret []
  | _ =>
      indices ← py_range 0 (len video_ids) (batch_size cfg);
      fetch_batches youtube video_ids indices []
  end.


(** ** Search paginator *)

(** The variables of [search_youtube_videos] that its loop updates. *)
Record SearchVars : Type := mkSearchVars {
  all_videos : list SearchItem;
  next_page_token : option string;
  page_count : nat
}.

(** The request for the page behind [page_token]. *)
Definition search_request (page_token : option string) : SearchRequest := {|
  rq_q := query cfg;
  rq_part := "snippet";
  rq_type := "video";
  rq_publishedAfter := published_after cfg;
  rq_publishedBefore := published_before cfg;
  rq_maxResults := max_results_per_page cfg;
  rq_pageToken := page_token
|}.

(** [while True] with at most [fuel] turns. A turn asks for one page. An
    exception leaves the three variables as they were: the only statement
    of the [try] block that raises is the request, which comes first. *)
Fixpoint search_loop (fuel : nat) (youtube : string)
    (existing_video_ids : gset string) (vars : SearchVars) : M (list SearchItem) :=
  match fuel with
  | O => out_of_fuel
  | S fuel' =>
      flow ← try_except
        (response ← search_execute (search_request (next_page_token vars));
         let videos := default [] (sr_items response) in
         let new_videos :=
           filter (λ v, id_videoId v ∉ existing_video_ids) videos in
         let all_videos := all_videos vars ++ new_videos in
         let page_count := S (page_count vars) in
         logging_info ("Processed page " +:+ pretty page_count +:+ ", found "
                       +:+ pretty (length new_videos) +:+ " new videos (total new: "
                       +:+ pretty (length all_videos) +:+ ")");;
         let next_page_token := sr_nextPageToken response in
         let vars := mkSearchVars all_videos next_page_token page_count in
         if truthy next_page_token
         then time_sleep 1;; ret (Continue vars)
         else logging_info "No more pages available.";; ret (Break vars))
        (λ e,
           match e with
           | HttpError status _ =>
               if status =? 403
               then logging_error "API quota exceeded.";; ret (Break vars)
               else
                 logging_error ("HTTP error: " +:+ exn_str e);;
                 time_sleep 10;;
                 ret (Continue vars)
           | _ =>
               logging_error ("Unexpected error: " +:+ exn_str e);;
               time_sleep 10;;
               ret (Continue vars)
           end);
      match flow with
      | Continue vars => search_loop fuel' youtube existing_video_ids vars
      | Break vars => ret (all_videos vars)
      end
  end.

Definition search_youtube_videos (fuel : nat) (youtube : string)
    (existing_video_ids : gset string) : M (list SearchItem) :=
  search_loop fuel youtube existing_video_ids (mkSearchVars [] None 0).

(** ** Transcript fetcher *)

Definition get_transcript_and_language (video_id : string) : M (string * string) :=
  if truthy (Some video_id) then
    try_except
      (transcript_list ← YouTubeTranscriptApi_get_transcript video_id;
       let full_transcript := join " " (seg_text <$> transcript_list) in
       language ← try_except (langdetect full_transcript) (λ _, ret "unknown");
       ret (full_transcript, language))
      (λ e,
         logging_error ("Error getting transcript for video " +:+ video_id
                        +:+ ": " +:+ exn_str e);;
         ret ("Video Error", "unknown"))
  else ret ("Video Error", "unknown").

(** ** Assembling the records of new videos *)

(** [{v['id']: v for v in detailed_videos}]: a later item with the same id
    replaces an earlier one. *)
Definition details_by_id (detailed_videos : list VideoItem) : gmap string VideoItem :=
  foldl (λ m v, <[vi_id v := v]> m) ∅ detailed_videos.

(** [details.get('statistics', {})] for [details = video_details.get(id, {})],
    then the three [statistics.get(...)]. *)
Definition statistics_of (video_details : gmap string VideoItem) (id : string)
    : Statistics :=
  default (mkStatistics None None None) (video_details !! id ≫= vi_statistics).

(** The body of [for i, video in enumerate(search_results)], with the
    [records] list so far; [total] is [len(search_results)]. *)
Fixpoint build_records (video_details : gmap string VideoItem)
    (include_transcripts : bool) (total : nat) (i : nat)
    (search_results : list SearchItem) (records : Table) : M Table :=
  match search_results with
  | [] => ret records
  | video :: rest =>
      let video_id := id_videoId video in
      let statistics := statistics_of video_details video_id in
      let record := {|
        video_id := video_id;
        title := Some (sn_title (snippet video));
        description := Some (sn_description (snippet video));
        published_at := Some (sn_publishedAt (snippet video));
        view_count := viewCount statistics;
        like_count := likeCount statistics;
        comment_count := commentCount statistics;
        video_url := Some ("https://www.youtube.com/watch?v=" +:+ video_id);
        region := Some (default "" (sn_regionCode (snippet video)));
        transcription := Some "";
        detected_language := Some ""
      |} in
      record ←
        (if include_transcripts then
           logging_info ("Processing transcript for video " +:+ pretty (S i)
                         +:+ "/" +:+ pretty total +:+ ": " +:+ video_id);;
           '(transcript, language) ← get_transcript_and_language video_id;
           time_sleep 1;;
           ret (set_detected_language language (set_transcription transcript record))
         else ret record);
      build_records video_details include_transcripts total (S i) rest
                    (records ++ [record])
  end.

Definition process_videos (youtube : string) (search_results : list SearchItem)
    (include_transcripts : bool) : M Table :=
  match search_results with
  | [] => ret []
  | _ =>
      let video_ids := id_videoId <$> search_results in
      detailed_videos ← fetch_video_details youtube video_ids;
      let video_details := details_by_id detailed_videos in
      build_records video_details include_transcripts (length search_results) 0
                    search_results []
  end.

(** ** Refreshing the statistics of existing rows *)

(** [df.empty] *)
Definition df_empty (df : Table) : bool :=
  match df with
  | [] => true
  | _ => false
  end.

(** [df.iterrows()]: each row with its index label. *)
Definition iterrows (df : Table) : list (nat * Row) := imap (λ i r, (i, r)) df.

(** The body of [for index, row in existing_data.iterrows()] in
    [update_existing_stats]. *)
Definition refresh_row (video_details : gmap string VideoItem)
    (acc : Table * nat) (ir : nat * Row) : Table * nat :=
  let '(existing_data, updated_count) := acc in
  let '(index, row) := ir in
  match video_details !! video_id row with
  | Some details =>
      let statistics := default (mkStatistics None None None) (vi_statistics details) in
      let existing_data := alter (set_view_count (viewCount statistics)) index existing_data in
      let existing_data := alter (set_like_count (likeCount statistics)) index existing_data in
      let existing_data := alter (set_comment_count (commentCount statistics)) index existing_data in
      (existing_data, S updated_count)
  | None => (existing_data, updated_count)
  end.

Definition update_existing_stats (youtube : string) (existing_data : Table) : M Table :=
  if df_empty existing_data then ret existing_data
  else
    let video_ids := video_id <$> existing_data in
    logging_info ("Updating statistics for " +:+ pretty (length video_ids)
                  +:+ " existing videos...");;
    detailed_videos ← fetch_video_details youtube video_ids;
    let video_details := details_by_id detailed_videos in
    let '(existing_data, updated_count) :=
      foldl (refresh_row video_details) (existing_data, O) (iterrows existing_data) in
    logging_info ("Updated statistics for " +:+ pretty updated_count +:+ " videos");;
    ret existing_data.

(** ** Backfilling missing transcripts *)

(** The mask [isna() | == '' | == 'Video Error'] on the transcription column. *)
Definition needs_transcript (r : Row) : bool :=
  match transcription r with
  | None => true
  | Some s => bool_decide (s = "") || bool_decide (s = "Video Error")
  end.

(** [existing_data[mask]]: the selected rows, each with its index label. *)
Definition missing_transcripts (existing_data : Table) : list (nat * Row) :=
  filter (λ ir, needs_transcript ir.2 = true) (iterrows existing_data).

(** The body of [for index, row in missing_transcripts.iterrows()], with the
    table and [updated_count] so far; [total] is [len(missing_transcripts)]. *)
Fixpoint backfill_rows (total : nat) (rows : list (nat * Row))
    (existing_data : Table) (updated_count : nat) : M (Table * nat) :=
  match rows with
  | [] => ret (existing_data, updated_count)
  | (index, row) :: rest =>
      let video_id := video_id row in
      logging_info ("Processing transcript for video " +:+ pretty (S updated_count)
                    +:+ "/" +:+ pretty total +:+ ": " +:+ video_id);;
      '(transcript, language) ← get_transcript_and_language video_id;
      let existing_data := alter (set_transcription transcript) index existing_data in
      let existing_data := alter (set_detected_language language) index existing_data in
      let updated_count := S updated_count in
      (if (updated_count mod 10 =? 0)%nat then
         save_data existing_data (csv_file_path cfg);;
         logging_info ("Saved interim results after updating "
                       +:+ pretty updated_count +:+ " transcripts")
       else ret tt);;
      time_sleep 1;;
      backfill_rows total rest existing_data updated_count
  end.

Definition update_missing_transcripts (existing_data : Table) : M Table :=
  if df_empty existing_data then ret existing_data
  else
    let missing_transcripts := missing_transcripts existing_data in
    match missing_transcripts with
    | [] => logging_info "No missing transcripts to update";; ret existing_data
    | _ =>
        logging_info ("Updating transcripts for "
                      +:+ pretty (length missing_transcripts) +:+ " videos");;
        '(existing_data, updated_count) ←
          backfill_rows (length missing_transcripts) missing_transcripts
                        existing_data O;
        logging_info ("Updated transcripts for " +:+ pretty updated_count
                      +:+ " videos");;
        ret existing_data
    end.

(** ** The orchestrator *)

(** [main], lines 308-311: optionally update statistics for existing videos. *)
Definition refresh_phase (youtube : string) (existing_data : Table) : M Table :=
  if update_existing cfg && negb (df_empty existing_data) then
    existing_data ← update_existing_stats youtube existing_data;
    save_data existing_data (csv_file_path cfg);;
    ret existing_data
  else ret existing_data.

(** [main], lines 313-316: optionally update missing transcripts. *)
Definition backfill_phase (existing_data : Table) : M Table :=
  if update_transcripts cfg && negb (df_empty existing_data) then
    existing_data ← update_missing_transcripts existing_data;
    save_data existing_data (csv_file_path cfg);;
    ret existing_data
  else ret existing_data.

(** [main], lines 318-338: search for new videos and append them. *)
Definition search_phase (fuel : nat) (youtube : string)
    (existing_video_ids : gset string) (existing_data : Table) : M (option Table) :=
  logging_info "Searching for new videos...";;
  search_results ← search_youtube_videos fuel youtube existing_video_ids;
  match search_results with
  | [] => logging_info "No new videos found.";; ret (Some existing_data)
  | _ =>
      logging_info ("Processing " +:+ pretty (length search_results)
                    +:+ " new videos...");;
      video_records ← process_videos youtube search_results (fetch_transcripts cfg);
      match video_records with
      | [] => ret (Some existing_data)
      | _ =>
          let new_data := video_records in
          let combined_data := existing_data ++ new_data in
          save_data combined_data (csv_file_path cfg);;
          logging_info ("Added " +:+ pretty (length new_data)
                        +:+ " new videos. Total: "
                        +:+ pretty (length combined_data));;
          ret (Some combined_data)
      end
  end.

(** The [try] block of [main]. *)
Definition main_try (fuel : nat) : M (option Table) :=
  youtube ← initialize_youtube_client;
  existing_data ← load_existing_data (csv_file_path cfg);
  let existing_video_ids : gset string :=
    list_to_set (video_id <$> existing_data) in
  logging_info ("Loaded " +:+ pretty (length existing_data)
                +:+ " existing videos");;
  existing_data ← refresh_phase youtube existing_data;
  existing_data ← backfill_phase existing_data;
  search_phase fuel youtube existing_video_ids existing_data.

(** [main] returns the table, or [None] after an exception. *)
Definition main (fuel : nat) : M (option Table) :=
  try_except
    (main_try fuel)
    (λ e,
       logging_error ("An error occurred in the main process: " +:+ exn_str e);;
       ret None).

End Pipeline.

(** * Specification vocabulary

    What the statements below say about traces, answers of the outside
    world and tables. *)

(** [st'] is reached from [st] by the events [new]. *)
Definition extends (st : State) (new : list Event) (st' : State) : Prop :=
  trace st' = trace st ++ new.

(** [n / b] rounded up, for [0 < b]. *)
Definition ceil_div (n b : Z) : Z := (n + b - 1) / b.

(** The [id] argument of the request for the batch that starts at index [i]. *)
Definition batch_id (cfg : Config) (video_ids : list string) (i : Z) : string :=
  join "," (slice video_ids i (i + batch_size cfg)).

(** An answer of the search endpoint that ends the loop: a page without a
    continuation token, or the quota error. *)
Definition stops (r : Exn + SearchResponse) : Prop :=
  match r with
  | inr response => truthy (sr_nextPageToken response) = false
  | inl (HttpError status _) => status = 403
  | inl (Exception _) => False
  end.

(** The entries of [videos] whose identifier is not in [K]. *)
Definition new_only (K : gset string) (videos : list SearchItem) : list SearchItem :=
  filter (λ v, id_videoId v ∉ K) videos.

(** The search finds no video that is not in the table already. *)
Definition nothing_new (env : Env) (K : gset string) : Prop :=
  ∀ h rq response,
    search_list_execute env h rq = inr response →
    Forall (λ v, id_videoId v ∈ K) (default [] (sr_items response)).

(** An answer of the videos endpoint after which the batch loop goes on to
    the next batch: a response, or an [HttpError] other than the quota one. *)
Definition goes_on (r : Exn + VideosResponse) : Prop :=
  match r with
  | inr _ => True
  | inl (HttpError status _) => status ≠ 403
  | inl (Exception _) => False
  end.

(** The quota error. *)
Definition quota_exceeded (r : Exn + VideosResponse) : Prop :=
  match r with
  | inl (HttpError status _) => status = 403
  | _ => False
  end.

(** An answer of the videos endpoint that the batch loop handles: a
    response or an [HttpError]. *)
Definition handled (r : Exn + VideosResponse) : Prop :=
  match r with
  | inl (Exception _) => False
  | _ => True
  end.

(** A write to a path other than the configured one never fails: the
    backup write of [save_data] goes through. *)
Definition backup_writes_succeed (env : Env) (cfg : Config) : Prop :=
  ∀ h path df, path ≠ csv_file_path cfg → to_csv env h path df = None.

(** The run starts up: the API key is set, the client is built, and the
    directory of the table can be made. *)
Definition startup_ok (env : Env) : Prop :=
  (∀ h, truthy (os_getenv env h "YOUTUBE_API_KEY") = true) ∧
  (∀ h key, build env h key = None) ∧
  (∀ h dir, os_makedirs env h dir = None).

(** The table that [load_existing_data] finds. *)
Definition loaded_table (cfg : Config) (st : State) : Table :=
  default [] (files st !! csv_file_path cfg).

(** A row after [.at[index, 'transcription']] and
    [.at[index, 'detected_language']] have been assigned. *)
Definition overwritten (t l : string) (r : Row) : Row :=
  set_detected_language l (set_transcription t r).

(** What [process_videos] makes of one search entry. *)
Definition assembled (video_details : gmap string VideoItem)
    (video : SearchItem) (record : Row) : Prop :=
  video_id record = id_videoId video ∧
  video_url record
    = Some ("https://www.youtube.com/watch?v=" +:+ id_videoId video) ∧
  (video_details !! id_videoId video = None →
   view_count record = None ∧ like_count record = None ∧
   comment_count record = None).

(** The two events that pace the backfill loop: the sleep that ends the
    processing of a row (the loop's only sleep), and a write to the
    configured path (the first thing every [save_data] does). *)
Inductive Mark : Type := RowDone | Saved.

Definition mark (path : string) (ev : Event) : option Mark :=
  match ev with
  | EvSleep _ => Some RowDone
  | EvToCsv p _ _ => if decide (p = path) then Some Saved else None
  | _ => None
  end.

Definition marks (path : string) (tr : list Event) : list Mark := omap (mark path) tr.

(** Rows [first], ..., [first + count - 1] processed one after the other,
    with a save after each row whose number is a multiple of 10. *)
Definition checkpoint_marks (first count : nat) : list Mark :=
  seq first count ≫= λ k, if (k mod 10 =? 0)%nat then [Saved; RowDone] else [RowDone].

Definition is_saved (m : Mark) : bool :=
  match m with
  | Saved => true
  | RowDone => false
  end.

Definition saves (ms : list Mark) : nat := length (filter (λ m, is_saved m = true) ms).

(** * Concrete worlds and inputs *)

Module Scenario.

(** The [n]-th video, as the search endpoint lists it and as the table
    stores it with transcription cell [t]. *)
Definition video_name (n : nat) : string := "video" +:+ pretty n.

Definition entry (n : nat) : SearchItem :=
  mkSearchItem (video_name n)
    (mkSnippet ("Loaf " +:+ pretty n) "" "2020-06-01T00:00:00Z" None).

Definition stored (n : nat) (t : option string) : Row := {|
  video_id := video_name n;
  title := Some ("Loaf " +:+ pretty n);
  description := None;
  published_at := Some "2020-06-01T00:00:00Z";
  view_count := Some 100;
  like_count := Some 10;
  comment_count := None;
  video_url := Some ("https://www.youtube.com/watch?v=" +:+ video_name n);
  region := None;
  transcription := t;
  detected_language := Some "unknown"
|}.

(** No file on disk, nothing has happened. *)
Definition fresh : State := mkState ∅ [].

(** The table [df] is on disk at the path of [CONFIG]. *)
Definition with_table (df : Table) : State :=
  mkState {[ csv_file_path CONFIG := df ]} [].

(** A world in which everything works: the key is set, writes succeed, the
    search has one empty last page, no video has statistics, every video
    has the same two caption segments, in English. *)
Definition calm : Env := {|
  os_getenv := λ _ _, Some "key";
  build := λ _ _, None;
  os_makedirs := λ _ _, None;
  to_csv := λ _ _ _, None;
  search_list_execute := λ _ _, inr (mkSearchResponse (Some []) None);
  videos_list_execute := λ _ _ _, inr (mkVideosResponse (Some []));
  get_transcript := λ _ _, inr [mkSegment "mix the dough"; mkSegment "let it rest"];
  detect_language := λ _ _, inr "en";
  time_time := λ _, 1700000000
|}.

Definition with_search (f : list Event → SearchRequest → Exn + SearchResponse)
    (env : Env) : Env :=
  mkEnv (os_getenv env) (build env) (os_makedirs env) (to_csv env) f
        (videos_list_execute env) (get_transcript env) (detect_language env)
        (time_time env).

Definition with_videos (f : list Event → string → string → Exn + VideosResponse)
    (env : Env) : Env :=
  mkEnv (os_getenv env) (build env) (os_makedirs env) (to_csv env)
        (search_list_execute env) f (get_transcript env) (detect_language env)
        (time_time env).

Definition with_transcripts (f : list Event → string → Exn + list Segment)
    (g : list Event → string → Exn + string) (env : Env) : Env :=
  mkEnv (os_getenv env) (build env) (os_makedirs env) (to_csv env)
        (search_list_execute env) (videos_list_execute env) f g
        (time_time env).

Definition with_to_csv (f : list Event → string → Table → option Exn)
    (env : Env) : Env :=
  mkEnv (os_getenv env) (build env) (os_makedirs env) f
        (search_list_execute env) (videos_list_execute env)
        (get_transcript env) (detect_language env) (time_time env).

(** Four search calls: a page with a token, a server error, a second page
    with a token, a last page. *)
Definition four_calls : Env :=
  with_search
    (λ h _, match search_calls h with
            | 0%nat => inr (mkSearchResponse (Some [entry 0; entry 1; entry 2])
                                             (Some "CAMQAA"))
            | 1%nat => inl (HttpError 500 "backendError")
            | 2%nat => inr (mkSearchResponse (Some [entry 3; entry 1])
                                             (Some "CAUQAA"))
            | _ => inr (mkSearchResponse (Some [entry 4]) None)
            end)
    calm.

(** The answers of [four_calls], in order. *)
Definition four_answers : list (Exn + SearchResponse) :=
  [inr (mkSearchResponse (Some [entry 0; entry 1; entry 2]) (Some "CAMQAA"));
   inl (HttpError 500 "backendError");
   inr (mkSearchResponse (Some [entry 3; entry 1]) (Some "CAUQAA"));
   inr (mkSearchResponse (Some [entry 4]) None)].

(** Two pages: 50 entries and a token, then 3 entries and no token. *)
Definition two_pages : Env :=
  with_search
    (λ _ rq, match rq_pageToken rq with
             | None => inr (mkSearchResponse (Some (entry <$> seq 0 50))
                                             (Some "CDIQAA"))
             | Some _ => inr (mkSearchResponse (Some (entry <$> seq 50 3)) None)
             end)
    calm.

(** The search lists two videos, both of them in the table already. *)
Definition known_only : Env :=
  with_search (λ _ _, inr (mkSearchResponse (Some [entry 0; entry 1]) None)) calm.

(** The videos endpoint answers its first request, fails its second one
    with the quota error, and would answer a third one. *)
Definition quota_on_second : Env :=
  with_videos
    (λ h _ _, match videos_calls h with
              | 0%nat => inr (mkVideosResponse (Some
                           [mkVideoItem (video_name 0)
                              (Some (mkStatistics (Some 1200) (Some 40) (Some 7)))]))
              | 1%nat => inl (HttpError 403 "quotaExceeded")
              | _ => inr (mkVideosResponse (Some [mkVideoItem (video_name 100) None]))
              end)
    calm.

(** [video_name 1] has no captions; language detection always fails. *)
Definition no_captions : Env :=
  with_transcripts
    (λ _ v, if decide (v = video_name 1) then inl (Exception "TranscriptsDisabled")
            else inr [mkSegment "mix the dough"; mkSegment "let it rest"])
    (λ _ _, inl (Exception "No features in text."))
    calm.

(** The configured path cannot be written, any other path can. *)
Definition read_only_target : Env :=
  with_to_csv
    (λ _ path _, if decide (path = csv_file_path CONFIG)
                 then Some (Exception "Permission denied") else None)
    calm.

(** No write succeeds. *)
Definition disk_full : Env :=
  with_to_csv (λ _ _ _, Some (Exception "No space left on device")) calm.

(** [CONFIG] with the backfill of missing transcripts switched on. *)
Definition BACKFILL_CONFIG : Config := {|
  query := query CONFIG;
  published_after := published_after CONFIG;
  published_before := published_before CONFIG;
  max_results_per_page := max_results_per_page CONFIG;
  csv_file_path := csv_file_path CONFIG;
  batch_size := batch_size CONFIG;
  update_existing := false;
  fetch_transcripts := fetch_transcripts CONFIG;
  update_transcripts := true
|}.

(** 120 video identifiers: three batches of [CONFIG]. *)
Definition ids120 : list string := video_name <$> seq 0 120.

(** A table of three rows: no transcript, a failed one, a good one. *)
Definition table3 : Table :=
  [stored 0 None; stored 1 (Some "Video Error"); stored 2 (Some "knead well")].

(** A table of 25 rows without transcript. *)
Definition table25 : Table := (λ n, stored n None) <$> seq 0 25.

(** [table25] when its first [k] rows have got their transcript in
    [calm] and the others have not yet. *)
Definition table25_after (k : nat) : Table :=
  ((λ n, overwritten "mix the dough let it rest" "en" (stored n None)) <$> seq 0 k)
  ++ ((λ n, stored n None) <$> seq k (25 - k)).

(** A table of one row whose transcript failed on an earlier run. *)
Definition table1 : Table := [stored 0 (Some "Video Error")].

End Scenario.

(** ** More vocabulary: sleeps, requests and the other tables *)

(** The seconds of every sleep, in order. *)
Definition sleep_of (ev : Event) : option Z :=
  match ev with
  | EvSleep secs => Some secs
  | _ => None
  end.

Definition sleeps (tr : list Event) : list Z := omap sleep_of tr.

(** An answer of the search endpoint after which the loop asks again. *)
Definition retried (r : Exn + SearchResponse) : Prop :=
  match r with
  | inr _ => False
  | inl (HttpError status _) => status ≠ 403
  | inl (Exception _) => True
  end.


(** The kind of an event: which part of the outside world it touches. *)
Inductive Kind : Type :=
| KStartup | KWrite | KSearch | KVideos | KTranscript | KClock | KSleep | KLog.

Global Instance Kind_eq_dec : EqDecision Kind.
Proof. solve_decision. Defined.

Definition kind (ev : Event) : Kind :=
  match ev with
  | EvGetenv _ _ | EvBuild _ _ | EvMakedirs _ _ => KStartup
  | EvToCsv _ _ _ => KWrite
  | EvSearch _ _ => KSearch
  | EvVideos _ _ _ => KVideos
  | EvTranscript _ _ | EvDetect _ _ => KTranscript
  | EvTime _ => KClock
  | EvSleep _ => KSleep
  | EvLog _ _ => KLog
  end.

(** All events of [tr] are of the kinds [ks]. *)
Definition only (ks : list Kind) (tr : list Event) : Prop :=
  Forall (λ ev, kind ev ∈ ks) tr.

(** The statistics that [process_videos] and [update_existing_stats] find
    for [id] among the [details] that came back: those of the last item
    with that id; no counter at all when there is no such item or it has no
    statistics. *)
Definition latest_statistics (details : list VideoItem) (id : string) : Statistics :=
  default (mkStatistics None None None)
          (last (filter (λ d, vi_id d = id) details) ≫= vi_statistics).

(** What [process_videos] makes of one search entry, field by field; the
    two transcript cells are left open when transcripts are fetched. *)
Definition made (details : list VideoItem) (include_transcripts : bool)
    (video : SearchItem) (record : Row) : Prop :=
  video_id record = id_videoId video ∧
  title record = Some (sn_title (snippet video)) ∧
  description record = Some (sn_description (snippet video)) ∧
  published_at record = Some (sn_publishedAt (snippet video)) ∧
  view_count record = viewCount (latest_statistics details (id_videoId video)) ∧
  like_count record = likeCount (latest_statistics details (id_videoId video)) ∧
  comment_count record
    = commentCount (latest_statistics details (id_videoId video)) ∧
  video_url record
    = Some ("https://www.youtube.com/watch?v=" +:+ id_videoId video) ∧
  region record = Some (default "" (sn_regionCode (snippet video))) ∧
  (if include_transcripts
   then ∃ t l, transcription record = Some t ∧ detected_language record = Some l
   else transcription record = Some "" ∧ detected_language record = Some "").

(** A row after [update_existing_stats] has seen the [details]: its three
    counters are those of the latest item with its id, if there is one. *)
Definition refreshed (details : list VideoItem) (r : Row) : Row :=
  match last (filter (λ d, vi_id d = video_id r) details) with
  | Some d =>
      let statistics := default (mkStatistics None None None) (vi_statistics d) in
      set_comment_count (commentCount statistics)
        (set_like_count (likeCount statistics)
           (set_view_count (viewCount statistics) r))
  | None => r
  end.

(** No transcript can be had: every transcript request raises. *)
Definition without_captions (env : Env) : Prop :=
  ∀ h id, ∃ e, get_transcript env h id = inl e.

(** A row after a backfill in which every request raised: a selected row
    carries the two sentinels, any other row is as it was. *)
Definition given_up (r : Row) : Row :=
  if needs_transcript r then overwritten "Video Error" "unknown" r else r.

(** ** The search endpoint as a script of answers *)

(** An answer of the search endpoint after which the loop asks again: a
    page with a continuation token, or an error other than the quota one. *)
Definition continues (r : Exn + SearchResponse) : Prop :=
  match r with
  | inr response => truthy (sr_nextPageToken response) = true
  | inl (HttpError status _) => status ≠ 403
  | inl (Exception _) => True
  end.

(** The page token to ask with after the answer [a], having asked with
    [token]: the token of a response, the same token again after an error. *)
Definition next_token (token : option string) (a : Exn + SearchResponse)
    : option string :=
  match a with
  | inr response => sr_nextPageToken response
  | inl _ => token
  end.

Definition token_after (token : option string)
    (answers : list (Exn + SearchResponse)) : option string :=
  foldl next_token token answers.

(** The pages among the answers: the items of every response. *)
Definition page_of (a : Exn + SearchResponse) : option (list SearchItem) :=
  match a with
  | inr response => Some (default [] (sr_items response))
  | inl _ => None
  end.

Definition pages_of (answers : list (Exn + SearchResponse))
    : list (list SearchItem) :=
  omap page_of answers.

(** The request that the paginator sends as its [i]-th one when the
    answers so far were the first [i] of [answers] and it started with
    [token]. *)
Definition request_after (cfg : Config) (token : option string)
    (answers : list (Exn + SearchResponse)) (i : nat) : SearchRequest :=
  search_request cfg (token_after token (take i answers)).

(** The endpoint gives the [answers], one after the other: once [base + i]
    search calls have been made, the request for the page that the first
    [i] answers lead to is answered by the [i]-th answer. *)
Definition answered (env : Env) (cfg : Config) (base : nat)
    (token : option string) (answers : list (Exn + SearchResponse)) : Prop :=
  ∀ i a h,
    answers !! i = Some a →
    search_calls h = (base + i)%nat →
    search_list_execute env h (request_after cfg token answers i) = a.

(** The search endpoint, from the history [h0] on, follows the script
    [answers]: it gives these answers in this order, every answer but the
    last one makes the paginator ask again, and the last one stops it. *)
Definition search_script (env : Env) (cfg : Config) (h0 : list Event)
    (answers : list (Exn + SearchResponse)) : Prop :=
  answered env cfg (search_calls h0) None answers ∧
  ∃ body final,
    answers = body ++ [final] ∧ Forall continues body ∧ stops final.

(** ** The tables that the backfill saves *)

(** The table [df] with the rows at the indices [idx] as they are in [df']:
    the table on the way from [df] to [df'] when the rows [idx] have been
    processed and no other row has. *)
Definition filled (df df' : Table) (idx : list nat) : Table :=
  imap (λ i r, if decide (i ∈ idx) then default r (df' !! i) else r) df.

(** The tables that the backfill of [df] writes at its checkpoints when it
    ends with [df']: for [j = 1, 2, ...], the table in which the first
    [10 * j] selected rows are processed and the others are not yet. *)
Definition checkpoint_tables (df df' : Table) : list Table :=
  (λ j, filled df df' (take (10 * S j) (missing_transcripts df).*1))
    <$> seq 0 (length (missing_transcripts df) / 10).

(** ** The videos endpoint as a function of the ids asked for *)

(** The batches of [fetch_video_details]: the slices of [video_ids] of
    [batch_size] ids each (the last one may be shorter), in order. *)
Definition batches_of (cfg : Config) (video_ids : list string) : list (list string) :=
  (λ i, slice video_ids i (i + batch_size cfg))
    <$> range_from (length video_ids) 0 (len video_ids) (batch_size cfg).

(** The items that come back when each of the [batches] is asked for and
    the endpoint answers the request for the ids [id] with [answer id]. *)
Definition details_from (answer : string → VideosResponse)
    (batches : list (list string)) : list VideoItem :=
  concat ((λ b, default [] (vr_items (answer (join "," b)))) <$> batches).

(** ** Worlds for the edges of the script *)

Module Edge.
Import Scenario.

(** The API key is not set. *)
Definition no_key : Env :=
  mkEnv (λ _ _, None) (build calm) (os_makedirs calm) (to_csv calm)
        (search_list_execute calm) (videos_list_execute calm)
        (get_transcript calm) (detect_language calm) (time_time calm).

(** The client library refuses the key. *)
Definition bad_client : Env :=
  mkEnv (os_getenv calm) (λ _ _, Some (Exception "unknown api name or version"))
        (os_makedirs calm) (to_csv calm)
        (search_list_execute calm) (videos_list_execute calm)
        (get_transcript calm) (detect_language calm) (time_time calm).

(** [os.makedirs] as it answers the empty path. *)
Definition no_directory : Env :=
  mkEnv (os_getenv calm) (build calm)
        (λ _ dir, if decide (dir = "")
                  then Some (Exception "[Errno 2] No such file or directory: ''")
                  else None)
        (to_csv calm)
        (search_list_execute calm) (videos_list_execute calm)
        (get_transcript calm) (detect_language calm) (time_time calm).

(** [CONFIG] with the table in the working directory. *)
Definition FLAT_CONFIG : Config := {|
  query := query CONFIG;
  published_after := published_after CONFIG;
  published_before := published_before CONFIG;
  max_results_per_page := max_results_per_page CONFIG;
  csv_file_path := "scrapped_data.csv";
  batch_size := batch_size CONFIG;
  update_existing := update_existing CONFIG;
  fetch_transcripts := fetch_transcripts CONFIG;
  update_transcripts := update_transcripts CONFIG
|}.

(** [CONFIG] with the refresh of statistics switched on. *)
Definition REFRESH_CONFIG : Config := {|
  query := query CONFIG;
  published_after := published_after CONFIG;
  published_before := published_before CONFIG;
  max_results_per_page := max_results_per_page CONFIG;
  csv_file_path := csv_file_path CONFIG;
  batch_size := batch_size CONFIG;
  update_existing := true;
  fetch_transcripts := fetch_transcripts CONFIG;
  update_transcripts := false
|}.

(** [CONFIG] with a batch size of zero. *)
Definition ZERO_BATCH_CONFIG : Config := {|
  query := query CONFIG;
  published_after := published_after CONFIG;
  published_before := published_before CONFIG;
  max_results_per_page := max_results_per_page CONFIG;
  csv_file_path := csv_file_path CONFIG;
  batch_size := 0;
  update_existing := update_existing CONFIG;
  fetch_transcripts := fetch_transcripts CONFIG;
  update_transcripts := update_transcripts CONFIG
|}.

(** The videos endpoint answers its first request; the connection is lost
    from the second one on. *)
Definition connection_lost_on_second : Env :=
  with_videos
    (λ h _ _, match videos_calls h with
              | 0%nat => inr (mkVideosResponse (Some [mkVideoItem (video_name 0) None]))
              | _ => inl (Exception "Connection reset by peer")
              end)
    calm.

(** The search endpoint cannot be reached at all. *)
Definition offline : Env :=
  with_search (λ _ _, inl (Exception "Network is unreachable")) calm.

(** No video has captions. *)
Definition captionless : Env :=
  with_transcripts (λ _ _, inl (Exception "TranscriptsDisabled"))
                   (detect_language calm) calm.

(** The videos endpoint knows the counters of the first two videos, and
    answers every request with them. *)
Definition counters (id : string) : VideosResponse :=
  mkVideosResponse (Some
    [mkVideoItem (video_name 0)
       (Some (mkStatistics (Some 1200) (Some 40) (Some 7)));
     mkVideoItem (video_name 1) (Some (mkStatistics (Some 5) None None))]).

Definition with_counters : Env :=
  with_videos (λ _ _ id, inr (counters id)) known_only.

(** The record that [process_videos] makes of [entry n] in [calm], without
    transcripts. *)
Definition bare_record (n : nat) : Row := {|
  video_id := video_name n;
  title := Some ("Loaf " +:+ pretty n);
  description := Some "";
  published_at := Some "2020-06-01T00:00:00Z";
  view_count := None;
  like_count := None;
  comment_count := None;
  video_url := Some ("https://www.youtube.com/watch?v=" +:+ video_name n);
  region := Some "";
  transcription := Some "";
  detected_language := Some ""
|}.

(** A table of two rows with transcripts. *)
Definition table2 : Table :=
  [stored 0 (Some "knead well"); stored 1 (Some "bake for an hour")].

(** [table2] with the counters of [counters]. *)
Definition table2_refreshed : Table :=
  [set_comment_count (Some 7)
     (set_like_count (Some 40)
        (set_view_count (Some 1200) (stored 0 (Some "knead well"))));
   set_comment_count None
     (set_like_count None
        (set_view_count (Some 5) (stored 1 (Some "bake for an hour"))))].

End Edge.


(** * Properties *)

(** ** States and traces *)

Lemma trace_record (st : State) (ev : Event) : trace (st ▷ ev) = trace st ++ [ev].
Proof. reflexivity. Qed.

Lemma files_record (st : State) (ev : Event) : files (st ▷ ev) = files st.
Proof. reflexivity. Qed.

Lemma extends_refl (st : State) : extends st [] st.
Proof. unfold extends. by rewrite app_nil_r. Qed.

Lemma extends_inj (st st' : State) (new1 new2 : list Event) :
  extends st new1 st' → extends st new2 st' → new1 = new2.
Proof. unfold extends. intros H1 H2. rewrite H1 in H2. by apply app_inv_head in H2. Qed.

(** ** Ranges and slices *)

(** [ceil_div n b] is the least [k] with [n <= k * b]. *)
Lemma ceil_div_spec (n b : Z) : 0 < b → (ceil_div n b - 1) * b < n ≤ ceil_div n b * b.
Proof.
  intros Hb. unfold ceil_div.
  pose proof (Z.div_mod (n + b - 1) b ltac:(lia)) as Hdm.
  pose proof (Z.mod_pos_bound (n + b - 1) b Hb). nia.
Qed.

Lemma range_from_bounds (step stop : Z) (fuel : nat) :
  0 < step → ∀ i, Forall (λ j, i ≤ j < stop) (range_from fuel i stop step).
Proof.
  intros Hstep. induction fuel as [|fuel IH]; intros i; simpl; [constructor|].
  destruct (0 <? step) eqn:Hs; [|lia].
  destruct (i <? stop) eqn:Hi; [|constructor].
  constructor; [lia|]. eapply Forall_impl; [apply IH|]. simpl. lia.
Qed.

Lemma range_from_length (step stop : Z) (fuel : nat) :
  0 < step → ∀ i, (Z.to_nat (stop - i) ≤ fuel)%nat →
  Z.of_nat (length (range_from fuel i stop step))
    = if i <? stop then ceil_div (stop - i) step else 0.
Proof.
  intros Hstep. induction fuel as [|fuel IH]; intros i Hfuel; simpl.
  { destruct (i <? stop) eqn:Hi; [lia|done]. }
  destruct (0 <? step) eqn:Hs; [|lia].
  destruct (i <? stop) eqn:Hi; [|done]. simpl.
  rewrite Nat2Z.inj_succ, IH by lia.
  pose proof (ceil_div_spec (stop - i) step Hstep).
  destruct (i + step <? stop) eqn:Hnext.
  - pose proof (ceil_div_spec (stop - (i + step)) step Hstep). nia.
  - nia.
Qed.

Lemma slice_length {A} (l : list A) (lo hi : Z) :
  0 ≤ lo ≤ hi → len (slice l lo hi) = Z.min (hi - lo) (Z.max 0 (len l - lo)).
Proof. intros H. unfold slice, len. rewrite length_take, length_drop. lia. Qed.

Lemma range_from_slices {A} (l : list A) (step : Z) (fuel : nat) :
  0 < step → ∀ i, 0 ≤ i → (Z.to_nat (len l - i) ≤ fuel)%nat →
  concat ((λ j, slice l j (j + step)) <$> range_from fuel i (len l) step)
    = drop (Z.to_nat i) l.
Proof.
  intros Hstep. induction fuel as [|fuel IH]; intros i Hi Hfuel; simpl.
  { rewrite drop_ge; [done|]. unfold len in *. lia. }
  destruct (0 <? step) eqn:Hs; [|lia].
  destruct (i <? len l) eqn:Hlt; simpl.
  - rewrite IH by lia. unfold slice.
    replace (i + step - i) with step by lia.
    replace (Z.to_nat (i + step)) with (Z.to_nat i + Z.to_nat step)%nat by lia.
    rewrite <- drop_drop. apply take_drop.
  - rewrite drop_ge; [done|]. unfold len in *. lia.
Qed.

(** ** Strings *)

Lemma append_ne (p x : string) : x ≠ "" → p +:+ x ≠ p.
Proof.
  intros Hx. induction p as [|c p IH]; simpl; [done|].
  intros Heq. injection Heq as Heq. done.
Qed.

Lemma backup_file_name_ne (csv_file : string) (t : Z) :
  backup_file_name csv_file t ≠ csv_file.
Proof. unfold backup_file_name. by apply append_ne. Qed.

(** ** Checkpoints *)

Lemma checkpoint_marks_cons (first count : nat) :
  checkpoint_marks first (S count)
    = (if (first mod 10 =? 0)%nat then [Saved; RowDone] else [RowDone])
      ++ checkpoint_marks (S first) count.
Proof. reflexivity. Qed.

Lemma marks_app (path : string) (a b : list Event) :
  marks path (a ++ b) = marks path a ++ marks path b.
Proof. apply omap_app. Qed.

Lemma transcript_requests_app (a b : list Event) :
  transcript_requests (a ++ b) = transcript_requests a ++ transcript_requests b.
Proof. apply omap_app. Qed.

Lemma writes_to_app (path : string) (a b : list Event) :
  writes_to path (a ++ b) = writes_to path a ++ writes_to path b.
Proof. apply omap_app. Qed.

(** ** Running the monad *)

Lemma bind_emit {B} (ev : Event) (k : unit → M B) (st : State) :
  bind (emit ev) k st = k tt (st ▷ ev).
Proof. reflexivity. Qed.

Lemma bind_ret {A B} (a : A) (k : A → M B) (st : State) :
  bind (ret a) k st = k a st.
Proof. reflexivity. Qed.

Lemma bind_run {A B} (m : M A) (k : A → M B) (st st' : State) (a : A) :
  m st = (Return a, st') → bind m k st = k a st'.
Proof. unfold bind. by intros ->. Qed.

Lemma bind_assoc {A B C} (m : M A) (f : A → M B) (g : B → M C) (st : State) :
  bind (bind m f) g st = bind m (λ a, bind (f a) g) st.
Proof. unfold bind. by destruct (m st) as [[a|e|] st']. Qed.

Lemma try_except_run {A} (m : M A) (handler : Exn → M A) (st st' : State) (a : A) :
  m st = (Return a, st') → try_except m handler st = (Return a, st').
Proof. unfold try_except. by intros ->. Qed.

Lemma try_except_bind_run {A B} (m : M A) (k : A → M B) (handler : Exn → M B)
    (st st' : State) (a : A) :
  m st = (Return a, st') →
  try_except (bind m k) handler st = try_except (k a) handler st'.
Proof. unfold try_except, bind. by intros ->. Qed.

Ltac solve_extends :=
  unfold extends in *; unfold record, store in *; simpl in *;
  repeat match goal with H : trace _ = _ |- _ => rewrite H end;
  rewrite <- ?app_assoc; simpl; reflexivity.

Lemma saves_app (a b : list Mark) : saves (a ++ b) = (saves a + saves b)%nat.
Proof. unfold saves. by rewrite filter_app, length_app. Qed.

Lemma writes_to_saves (path : string) (tr : list Event) :
  length (writes_to path tr) = saves (marks path tr).
Proof.
  induction tr as [|ev tr IH]; [done|].
  change (ev :: tr) with ([ev] ++ tr).
  rewrite writes_to_app, marks_app, saves_app, length_app, IH. f_equal.
  destruct ev; try done. unfold writes_to, marks. simpl. by case_decide.
Qed.

Lemma div10_succ (c : nat) :
  (S c / 10 = c / 10 + (if S c mod 10 =? 0 then 1 else 0))%nat.
Proof.
  pose proof (Nat.div_mod_eq (S c) 10). pose proof (Nat.div_mod_eq c 10).
  pose proof (Nat.mod_upper_bound (S c) 10). pose proof (Nat.mod_upper_bound c 10).
  destruct (S c mod 10 =? 0)%nat eqn:Hm; [apply Nat.eqb_eq in Hm|apply Nat.eqb_neq in Hm]; lia.
Qed.

Lemma saves_checkpoint_marks (count : nat) :
  ∀ c, saves (checkpoint_marks (S c) count) = ((c + count) / 10 - c / 10)%nat.
Proof.
  induction count as [|count IH]; intros c.
  { rewrite Nat.add_0_r. unfold checkpoint_marks, saves. simpl. lia. }
  rewrite checkpoint_marks_cons, saves_app, IH.
  replace (c + S count)%nat with (S c + count)%nat by lia.
  pose proof (div10_succ c) as Hc.
  assert (S c / 10 ≤ (S c + count) / 10)%nat by (apply Nat.Div0.div_le_mono; lia).
  destruct (S c mod 10 =? 0)%nat;
    [change (saves [Saved; RowDone]) with 1%nat|change (saves [RowDone]) with O]; lia.
Qed.

Section Properties.
Context (env : Env) (cfg : Config).

(** ** Transcript fetcher *)

Lemma truthy_nonempty (s : string) : s ≠ "" → truthy (Some s) = true.
Proof. destruct s; [congruence | reflexivity]. Qed.

(** What one call of the transcript fetcher does, by the answers it gets. *)
Lemma get_transcript_and_language_run (video_id : string) (st : State) :
  video_id ≠ "" →
  get_transcript_and_language env video_id st =
    match get_transcript env (trace st) video_id with
    | inl e =>
        (Return ("Video Error", "unknown"),
         st ▷ EvTranscript video_id (inl e)
            ▷ EvLog ERROR ("Error getting transcript for video " +:+ video_id
                           +:+ ": " +:+ exn_str e))
    | inr segments =>
        let text := join " " (seg_text <$> segments) in
        let st1 := st ▷ EvTranscript video_id (inr segments) in
        let r := detect_language env (trace st1) text in
        (Return (text, match r with inr l => l | inl _ => "unknown" end),
         st1 ▷ EvDetect text r)
    end.
Proof.
  intros Hne. unfold get_transcript_and_language.
  rewrite (truthy_nonempty _ Hne).
  unfold try_except, bind, YouTubeTranscriptApi_get_transcript, langdetect.
  destruct (get_transcript env (trace st) video_id) as [e|segments]; simpl; [done|].
  destruct (detect_language env _ _); done.
Qed.

(** The fetcher always returns, and leaves the files alone. *)
Lemma get_transcript_and_language_returns (video_id : string) (st : State) :
  ∃ r new st',
    get_transcript_and_language env video_id st = (Return r, st') ∧
    extends st new st' ∧ files st' = files st ∧
    transcript_requests new = (if decide (video_id = "") then [] else [video_id]) ∧
    Forall (λ ev, match ev with
                  | EvTranscript _ _ | EvDetect _ _ | EvLog _ _ => True
                  | _ => False
                  end) new.
Proof.
  destruct (decide (video_id = "")) as [->|Hne].
  { exists ("Video Error", "unknown"), [], st. split; [done|].
    split; [apply extends_refl|]. done. }
  rewrite (get_transcript_and_language_run _ _ Hne).
  destruct (get_transcript env (trace st) video_id) as [e|segments]; simpl.
  - eexists _, [_; _], _. split; [done|].
    split; [solve_extends|].
    split; [done|]. split; [done|]. by repeat constructor.
  - eexists _, [_; _], _. split; [done|].
    split; [solve_extends|].
    split; [done|]. split; [done|]. by repeat constructor.
Qed.

(** ** Table store *)

(** What [save_data] does, by the answers of the two writes. *)
Lemma save_data_run (df : Table) (csv_file : string) (st : State) :
  save_data env df csv_file st =
    match to_csv env (trace st) csv_file df with
    | None =>
        (Return tt,
         store csv_file df st ▷ EvToCsv csv_file df None
           ▷ EvLog INFO ("Data saved to " +:+ csv_file))
    | Some e =>
        let st1 := st ▷ EvToCsv csv_file df (Some e)
                      ▷ EvLog ERROR ("Failed to save data: " +:+ exn_str e) in
        let t := time_time env (trace st1) in
        let backup_file := backup_file_name csv_file t in
        match to_csv env (trace (st1 ▷ EvTime t)) backup_file df with
        | None =>
            (Return tt,
             store backup_file df (st1 ▷ EvTime t)
               ▷ EvToCsv backup_file df None
               ▷ EvLog INFO ("Data saved to backup file: " +:+ backup_file))
        | Some e' =>
            (Raise e', st1 ▷ EvTime t ▷ EvToCsv backup_file df (Some e'))
        end
    end.
Proof.
  unfold save_data, try_except, bind, df_to_csv, logging_info, logging_error,
    int_time, emit.
  destruct (to_csv env (trace st) csv_file df) as [e|]; simpl; [|done].
  by destruct (to_csv env _ _ df) as [e'|].
Qed.

(** Then [save_data] on the configured path returns, after one write to that
    path, and the table is on disk under one of the two names. *)
Lemma save_data_returns (df : Table) (st : State) :
  backup_writes_succeed env cfg →
  ∃ new st',
    save_data env df (csv_file_path cfg) st = (Return tt, st') ∧
    extends st new st' ∧
    marks (csv_file_path cfg) new = [Saved] ∧
    writes_to (csv_file_path cfg) new = [df] ∧
    transcript_requests new = [] ∧
    search_calls new = O.
Proof.
  intros Hbackup. rewrite save_data_run.
  destruct (to_csv env (trace st) _ df) as [e|].
  - cbv zeta. rewrite Hbackup by apply backup_file_name_ne.
    eexists [_; _; _; _; _], _. split; [done|].
    split; [solve_extends|].
    unfold marks, writes_to. simpl.
    repeat case_decide; try done;
      exfalso; eapply backup_file_name_ne; eassumption.
  - eexists [_; _], _. split; [done|].
    split; [solve_extends|].
    unfold marks, writes_to. simpl. by repeat case_decide.
Qed.

(** ** Search paginator *)

Lemma search_calls_app (a b : list Event) :
  search_calls (a ++ b) = (search_calls a + search_calls b)%nat.
Proof. unfold search_calls, search_requests. by rewrite omap_app, length_app. Qed.

(** Whatever the endpoint answers, the loop never raises, leaves the files
    alone, and what it returns is what it had plus the new videos of the
    pages that came back, in order. *)
Lemma search_loop_spec (youtube : string) (K : gset string) (fuel : nat) :
  ∀ (vars : SearchVars) (st : State),
  ∃ out new st',
    search_loop env cfg fuel youtube K vars st = (out, st') ∧
    extends st new st' ∧ files st' = files st ∧
    Forall (λ ev, match ev with
                  | EvSearch rq r => ∃ h, search_list_execute env h rq = r
                  | EvLog _ _ | EvSleep _ => True
                  | _ => False
                  end) new ∧
    match out with
    | Return res => res = all_videos vars ++ new_only K (concat (search_pages new))
    | Raise _ => False
    | OutOfFuel => True
    end.
Proof.
  induction fuel as [|fuel IH]; intros vars st.
  { exists OutOfFuel, [], st. split; [done|]. split; [apply extends_refl|]. done. }
  simpl. unfold bind at 1. unfold try_except, bind, search_execute.
  destruct (search_list_execute env (trace st) _) as [e|response] eqn:Hr; simpl.
  - destruct e as [status s|s]; [destruct (status =? 403) eqn:Hq|]; simpl.
    + eexists _, [_; _], _. split; [done|].
      split; [solve_extends|].
      split; [done|]. split; [repeat constructor; eauto|].
      simpl. unfold new_only. by rewrite app_nil_r.
    + edestruct IH as (out & new & st' & -> & Hext & Hf & Hev & Hout).
      eexists _, ([_; _; _] ++ new), _. split; [done|].
      split; [|split; [done|split]].
      * solve_extends.
      * rewrite Forall_app. split; [repeat constructor; eauto|done].
      * destruct out; try done.
    + edestruct IH as (out & new & st' & -> & Hext & Hf & Hev & Hout).
      eexists _, ([_; _; _] ++ new), _. split; [done|].
      split; [|split; [done|split]].
      * solve_extends.
      * rewrite Forall_app. split; [repeat constructor; eauto|done].
      * destruct out; try done.
  - destruct (truthy (sr_nextPageToken response)) eqn:Htok; simpl.
    + edestruct IH as (out & new & st' & -> & Hext & Hf & Hev & Hout).
      eexists _, ([_; _; _] ++ new), _. split; [done|].
      split; [|split; [done|split]].
      * solve_extends.
      * rewrite Forall_app. split; [repeat constructor; eauto|done].
      * destruct out; try done. simpl in *.
        rewrite Hout. unfold new_only. simpl. rewrite filter_app.
        by rewrite <- app_assoc.
    + eexists _, [_; _; _], _. split; [done|].
      split; [solve_extends|].
      split; [done|]. split; [repeat constructor; eauto|].
      simpl. unfold new_only. by rewrite app_nil_r.
Qed.

Lemma search_calls_turn (st : State) rq r (e1 e2 : Event) :
  search_request_of e1 = None → search_request_of e2 = None →
  search_calls (trace (st ▷ EvSearch rq r ▷ e1 ▷ e2)) = S (search_calls (trace st)).
Proof.
  intros H1 H2. rewrite !trace_record, !search_calls_app.
  unfold search_calls, search_requests. simpl. rewrite H1, H2. simpl. lia.
Qed.

(** Once the endpoint is bound to give a stopping answer from its [n]-th
    call on, more than [n] turns are enough for the loop to return. *)
Lemma search_loop_returns (youtube : string) (K : gset string) (n : nat) :
  (∀ h rq, (n ≤ search_calls h)%nat → stops (search_list_execute env h rq)) →
  ∀ (fuel : nat) (vars : SearchVars) (st : State),
    (0 < fuel)%nat → (n < fuel + search_calls (trace st))%nat →
    ∃ res st', search_loop env cfg fuel youtube K vars st = (Return res, st').
Proof.
  intros Hstop. induction fuel as [|fuel IH]; intros vars st Hpos Hn; [lia|].
  simpl. unfold bind at 1. unfold try_except, bind, search_execute.
  pose proof (Hstop (trace st) (search_request cfg (next_page_token vars))) as Hs.
  destruct (search_list_execute env (trace st) _) as [e|response]; simpl.
  - destruct e as [status s|s]; [destruct (status =? 403) eqn:Hq|]; simpl.
    + eauto.
    + assert (search_calls (trace st) < n)%nat as Hlt.
      { destruct (decide (n ≤ search_calls (trace st))%nat) as [Hle|]; [|lia].
        apply Hs in Hle. simpl in Hle. lia. }
      apply IH; [lia|]. rewrite search_calls_turn by done. lia.
    + assert (search_calls (trace st) < n)%nat as Hlt.
      { destruct (decide (n ≤ search_calls (trace st))%nat) as [Hle|]; [|lia].
        apply Hs in Hle. done. }
      apply IH; [lia|]. rewrite search_calls_turn by done. lia.
  - destruct (truthy (sr_nextPageToken response)) eqn:Htok; simpl.
    + assert (search_calls (trace st) < n)%nat as Hlt.
      { destruct (decide (n ≤ search_calls (trace st))%nat) as [Hle|]; [|lia].
        apply Hs in Hle. simpl in Hle. congruence. }
      apply IH; [lia|]. rewrite search_calls_turn by done. lia.
    + eauto.
Qed.

Lemma new_only_not_known (K : gset string) (videos : list SearchItem) :
  Forall (λ v, id_videoId v ∉ K) (new_only K videos).
Proof. apply Forall_forall. intros v Hv. by apply list_elem_of_filter in Hv as [? _]. Qed.

(** One turn of the search loop whose request is answered with a page. *)
Lemma search_loop_page (fuel : nat) (youtube : string) (K : gset string)
    (vars : SearchVars) (st : State) (response : SearchResponse) :
  search_list_execute env (trace st) (search_request cfg (next_page_token vars))
    = inr response →
  let new_videos := filter (λ v, id_videoId v ∉ K) (default [] (sr_items response)) in
  let all := all_videos vars ++ new_videos in
  let st1 :=
    st ▷ EvSearch (search_request cfg (next_page_token vars)) (inr response)
       ▷ EvLog INFO ("Processed page " +:+ pretty (S (page_count vars))
                     +:+ ", found " +:+ pretty (length new_videos)
                     +:+ " new videos (total new: " +:+ pretty (length all) +:+ ")") in
  search_loop env cfg (S fuel) youtube K vars st
  = if truthy (sr_nextPageToken response)
    then search_loop env cfg fuel youtube K
           (mkSearchVars all (sr_nextPageToken response) (S (page_count vars)))
           (st1 ▷ EvSleep 1)
    else (Return all, st1 ▷ EvLog INFO "No more pages available.").
Proof.
  intros Hr. simpl. unfold bind at 1. unfold try_except, bind, search_execute.
  rewrite Hr. simpl. by destruct (truthy (sr_nextPageToken response)).
Qed.

(** One turn of the search loop whose request raises. *)
Lemma search_loop_error (fuel : nat) (youtube : string) (K : gset string)
    (vars : SearchVars) (st : State) (e : Exn) :
  search_list_execute env (trace st) (search_request cfg (next_page_token vars))
    = inl e →
  let st1 := st ▷ EvSearch (search_request cfg (next_page_token vars)) (inl e) in
  search_loop env cfg (S fuel) youtube K vars st
  = match e with
    | HttpError status _ =>
        if status =? 403
        then (Return (all_videos vars), st1 ▷ EvLog ERROR "API quota exceeded.")
        else search_loop env cfg fuel youtube K vars
               (st1 ▷ EvLog ERROR ("HTTP error: " +:+ exn_str e) ▷ EvSleep 10)
    | Exception _ =>
        search_loop env cfg fuel youtube K vars
          (st1 ▷ EvLog ERROR ("Unexpected error: " +:+ exn_str e) ▷ EvSleep 10)
    end.
Proof.
  intros Hr. simpl. unfold bind at 1. unfold try_except, bind, search_execute.
  rewrite Hr. simpl. destruct e as [status s|s]; [|done].
  by destruct (status =? 403).
Qed.

(** The script of answers, one answer later. *)
Lemma answered_tail (base : nat) (token : option string)
    (a : Exn + SearchResponse) (answers : list (Exn + SearchResponse)) :
  answered env cfg base token (a :: answers) →
  answered env cfg (S base) (next_token token a) answers.
Proof.
  intros H i b h Hi Hh.
  apply (H (S i) b h); [done|lia].
Qed.

Lemma answered_head (base : nat) (token : option string)
    (a : Exn + SearchResponse) (answers : list (Exn + SearchResponse))
    (h : list Event) :
  answered env cfg base token (a :: answers) →
  search_calls h = base →
  search_list_execute env h (search_request cfg token) = a.
Proof. intros H Hh. apply (H O a h); [done|lia]. Qed.

Lemma search_requests_app (a b : list Event) :
  search_requests (a ++ b) = search_requests a ++ search_requests b.
Proof. apply omap_app. Qed.

Lemma search_pages_app (a b : list Event) :
  search_pages (a ++ b) = search_pages a ++ search_pages b.
Proof. apply omap_app. Qed.

Lemma request_after_cons (token : option string) (a : Exn + SearchResponse)
    (answers : list (Exn + SearchResponse)) (n : nat) :
  request_after cfg token (a :: answers) <$> seq 0 (S n)
  = search_request cfg token
    :: (request_after cfg (next_token token a) answers <$> seq 0 n).
Proof.
  simpl. f_equal. rewrite <- fmap_S_seq, <- list_fmap_compose.
  by apply list_fmap_ext.
Qed.

(** The loop against a script: it asks once for each answer, with the
    token that the answers so far lead to, and returns what it had plus
    the new videos of the pages among the answers. *)
Lemma search_loop_answers (youtube : string) (K : gset string)
    (body : list (Exn + SearchResponse)) :
  ∀ (final : Exn + SearchResponse) (vars : SearchVars) (st : State) (fuel : nat),
    answered env cfg (search_calls (trace st)) (next_page_token vars)
             (body ++ [final]) →
    Forall continues body → stops final →
    (length body < fuel)%nat →
    ∃ new st',
      search_loop env cfg fuel youtube K vars st
        = (Return (all_videos vars
                   ++ new_only K (concat (pages_of (body ++ [final])))), st') ∧
      extends st new st' ∧
      search_pages new = pages_of (body ++ [final]) ∧
      search_requests new
        = request_after cfg (next_page_token vars) (body ++ [final])
            <$> seq 0 (S (length body)).
Proof.
  induction body as [|a body IH]; intros final vars st fuel Hans Hbody Hfinal Hfuel.
  - destruct fuel as [|fuel]; [simpl in Hfuel; lia|].
    pose proof (answered_head _ _ _ _ (trace st) Hans eq_refl) as Hr.
    destruct final as [e|response].
    + rewrite (search_loop_error _ _ _ _ _ _ Hr).
      destruct e as [status s|s]; [|done]. simpl in Hfinal. subst status.
      cbv zeta. change (403 =? 403) with true. cbv iota.
      eexists [_; _], _. split.
      { unfold new_only. simpl. by rewrite app_nil_r. }
      split; [solve_extends|]. done.
    + rewrite (search_loop_page _ _ _ _ _ _ Hr). cbv zeta.
      simpl in Hfinal. rewrite Hfinal.
      eexists [_; _; _], _. split.
      { unfold new_only. simpl. by rewrite app_nil_r. }
      split; [solve_extends|]. done.
  - destruct fuel as [|fuel]; [simpl in Hfuel; lia|].
    simpl in Hfuel. apply Forall_cons in Hbody as [Ha Hbody].
    rewrite <- app_comm_cons in *.
    pose proof (answered_head _ _ _ _ (trace st) Hans eq_refl) as Hr.
    pose proof (answered_tail _ _ _ _ Hans) as Htail.
    rewrite request_after_cons.
    destruct a as [e|response].
    + rewrite (search_loop_error _ _ _ _ _ _ Hr). cbv zeta.
      assert (∃ msg,
        search_loop env cfg (S fuel) youtube K vars st
        = search_loop env cfg fuel youtube K vars
            (st ▷ EvSearch (search_request cfg (next_page_token vars)) (inl e)
                ▷ EvLog ERROR msg ▷ EvSleep 10)) as [msg Hturn].
      { rewrite (search_loop_error _ _ _ _ _ _ Hr). cbv zeta.
        destruct e as [status s|s]; [|by eexists].
        simpl in Ha. destruct (status =? 403) eqn:Hq; [lia|by eexists]. }
      rewrite <- (search_loop_error _ _ _ _ _ _ Hr), Hturn.
      set (st1 := st ▷ _ ▷ _ ▷ _).
      destruct (IH final vars st1 fuel) as (new & st' & Hrun & Hext & Hp & Hq);
        [|done|done|lia|].
      { unfold st1. rewrite search_calls_turn by done. exact Htail. }
      eexists ([_; _; _] ++ new), st'. split; [exact Hrun|].
      split; [unfold st1 in *; solve_extends|].
      split; [by rewrite search_pages_app, Hp|].
      by rewrite search_requests_app, Hq.
    + rewrite (search_loop_page _ _ _ _ _ _ Hr). cbv zeta.
      simpl in Ha. rewrite Ha.
      set (vars1 := mkSearchVars _ _ _). set (st1 := st ▷ _ ▷ _ ▷ _).
      destruct (IH final vars1 st1 fuel) as (new & st' & Hrun & Hext & Hp & Hq);
        [|done|done|lia|].
      { unfold st1. rewrite search_calls_turn by done. exact Htail. }
      eexists ([_; _; _] ++ new), st'. split.
      { rewrite Hrun. unfold vars1, new_only. simpl.
        by rewrite filter_app, <- app_assoc. }
      split; [unfold st1 in *; solve_extends|].
      split; [by rewrite search_pages_app, Hp|].
      by rewrite search_requests_app, Hq.
Qed.

(** Claim C1. For every set [K] of known video ids and every sequence of
    answers that the search endpoint gives (pages with a continuation token
    and errors that are retried, then a last page or the quota error), the
    paginator asks once for each answer, following the tokens, and returns
    the entries of the pages among the answers, in order, without the
    entries whose id is in [K]; so no id of [K] is among them. The pages
    that came back during the run are exactly the pages of the script. *)
Theorem search_returns_pages_without_known_ids
    (youtube : string) (K : gset string)
    (answers : list (Exn + SearchResponse)) (fuel : nat) (st : State) :
  search_script env cfg (trace st) answers →
  (length answers ≤ fuel)%nat →
  ∃ new st',
    search_youtube_videos env cfg fuel youtube K st
      = (Return (filter (λ v, id_videoId v ∉ K) (concat (pages_of answers))), st') ∧
    extends st new st' ∧
    search_pages new = pages_of answers ∧
    search_requests new = request_after cfg None answers <$> seq 0 (length answers) ∧
    Forall (λ v, id_videoId v ∉ K)
           (filter (λ v, id_videoId v ∉ K) (concat (pages_of answers))).
Proof.
  intros [Hans (body & final & -> & Hbody & Hfinal)] Hfuel.
  rewrite length_app in *. simpl in Hfuel.
  unfold search_youtube_videos.
  destruct (search_loop_answers youtube K body final (mkSearchVars [] None 0)
              st fuel Hans Hbody Hfinal) as (new & st' & Hrun & Hext & Hp & Hq);
    [lia|].
  exists new, st'. split; [exact Hrun|]. split; [done|]. split; [done|].
  split; [by rewrite Hq, Nat.add_1_r|]. apply new_only_not_known.
Qed.

(** ** Statistics fetcher *)

(** One turn of the batch loop, by the answer to its request. *)
Lemma fetch_batches_cons (youtube : string) (video_ids : list string)
    (i : Z) (rest : list Z) (results : list VideoItem) (st : State) :
  fetch_batches env cfg youtube video_ids (i :: rest) results st =
    let r := videos_list_execute env (trace st) "snippet,statistics"
                                 (batch_id cfg video_ids i) in
    let st1 := st ▷ EvVideos "snippet,statistics" (batch_id cfg video_ids i) r in
    match r with
    | inr response =>
        fetch_batches env cfg youtube video_ids rest
          (results ++ default [] (vr_items response))
          (if i + batch_size cfg <? len video_ids then st1 ▷ EvSleep 1 else st1)
    | inl (HttpError status s) =>
        let st2 := st1 ▷ EvLog ERROR ("Error fetching video details: " +:+ s) in
        if status =? 403
        then (Return results, st2 ▷ EvLog ERROR "API quota exceeded.")
        else fetch_batches env cfg youtube video_ids rest results st2
    | inl (Exception s) => (Raise (Exception s), st1)
    end.
Proof.
  simpl. unfold bind at 1. unfold try_except, bind, videos_execute, batch_id.
  destruct (videos_list_execute env (trace st) _ _) as [e|response]; simpl.
  - destruct e as [status s|s]; [|done]. simpl.
    by destruct (status =? 403).
  - by destruct (i + batch_size cfg <? len video_ids).
Qed.

(** Whatever the endpoint answers, the loop asks for a prefix of the
    batches, in order; when it returns, it returns what it had plus the
    items of the answers that came back; it raises nothing but what a
    request raised that was not an [HttpError]. *)
Lemma fetch_batches_spec (youtube : string) (video_ids : list string)
    (indices : list Z) :
  ∀ (results : list VideoItem) (st : State),
  ∃ out new st' (j : nat),
    fetch_batches env cfg youtube video_ids indices results st = (out, st') ∧
    extends st new st' ∧ files st' = files st ∧
    Forall (λ ev, match ev with
                  | EvVideos _ _ _ | EvLog _ _ | EvSleep _ => True
                  | _ => False
                  end) new ∧
    videos_requests new = batch_id cfg video_ids <$> take j indices ∧
    match out with
    | Return res => res = results ++ concat (videos_pages new)
    | Raise (Exception _) => True
    | _ => False
    end.
Proof.
  induction indices as [|i rest IH]; intros results st.
  { exists (Return results), [], st, O. split; [done|].
    split; [apply extends_refl|]. simpl. by rewrite app_nil_r. }
  rewrite fetch_batches_cons. cbv zeta.
  destruct (videos_list_execute env (trace st) _ _) as [e|response].
  - destruct e as [status s|s]; [destruct (status =? 403)|].
    + eexists _, [_; _; _], _, 1%nat. split; [done|].
      split; [solve_extends|].
      split; [done|]. split; [by repeat constructor|].
      split; [done|]. simpl. by rewrite app_nil_r.
    + edestruct IH as (out & new & st' & j & -> & Hext & Hf & Hev & Hrq & Hout).
      eexists _, (_ :: _ :: new), _, (S j). split; [done|].
      split; [solve_extends|].
      split; [done|]. split; [by repeat constructor|].
      split; [simpl; by rewrite Hrq|]. done.
    + eexists _, [_], _, 1%nat. split; [done|].
      split; [solve_extends|].
      split; [done|]. split; [by repeat constructor|]. by split.
  - destruct (i + batch_size cfg <? len video_ids).
    + edestruct IH as (out & new & st' & j & -> & Hext & Hf & Hev & Hrq & Hout).
      eexists _, (_ :: _ :: new), _, (S j). split; [done|].
      split; [solve_extends|].
      split; [done|]. split; [by repeat constructor|].
      split; [simpl; by rewrite Hrq|].
      destruct out as [res|[]|]; try done. simpl. by rewrite Hout, <- app_assoc.
    + edestruct IH as (out & new & st' & j & -> & Hext & Hf & Hev & Hrq & Hout).
      eexists _, (_ :: new), _, (S j). split; [done|].
      split; [solve_extends|].
      split; [done|]. split; [by repeat constructor|].
      split; [simpl; by rewrite Hrq|].
      destruct out as [res|[]|]; try done. simpl. by rewrite Hout, <- app_assoc.
Qed.

Lemma videos_requests_app (a b : list Event) :
  videos_requests (a ++ b) = videos_requests a ++ videos_requests b.
Proof. apply omap_app. Qed.

Lemma videos_calls_app (a b : list Event) :
  videos_calls (a ++ b) = (videos_calls a + videos_calls b)%nat.
Proof. unfold videos_calls. by rewrite videos_requests_app, length_app. Qed.

(** As long as the first [k] answers let the loop go on and the next one is
    the quota error, the loop asks for [k + 1] batches and returns. Without
    a quota error among the answers it asks for every batch. *)
Lemma fetch_batches_until_quota (youtube : string) (video_ids : list string)
    (indices : list Z) :
  ∀ (k : nat) (results : list VideoItem) (st : State),
    (∀ h part id, (videos_calls h < videos_calls (trace st) + k)%nat →
                  goes_on (videos_list_execute env h part id)) →
    (∀ h part id, videos_calls h = (videos_calls (trace st) + k)%nat →
                  (k < length indices)%nat →
                  quota_exceeded (videos_list_execute env h part id)) →
    ∃ res new st',
      fetch_batches env cfg youtube video_ids indices results st = (Return res, st') ∧
      extends st new st' ∧
      videos_requests new = batch_id cfg video_ids <$> take (S k) indices ∧
      res = results ++ concat (videos_pages new) ∧
      ((k < length indices)%nat → (length (videos_pages new) ≤ k)%nat).
Proof.
  induction indices as [|i rest IH]; intros k results st Hgo Hquota.
  { exists results, [], st. split; [done|]. split; [apply extends_refl|].
    simpl. rewrite app_nil_r. repeat split; lia. }
  rewrite fetch_batches_cons. cbv zeta.
  set (id := batch_id cfg video_ids i).
  set (r := videos_list_execute env (trace st) "snippet,statistics" id).
  destruct k as [|k].
  - pose proof (Hquota (trace st) "snippet,statistics" id) as Hq.
    fold r in Hq. destruct r as [[status s|s]|response];
      try (exfalso; apply Hq; [lia | simpl; lia]).
    assert (status = 403) as -> by (apply Hq; [lia | simpl; lia]). simpl.
    eexists _, [_; _; _], _. split; [done|].
    split; [solve_extends|].
    split; [simpl; by rewrite ?take_0|]. simpl. by rewrite app_nil_r.
  - pose proof (Hgo (trace st) "snippet,statistics" id) as Hg.
    fold r in Hg.
    assert (∀ st2, videos_calls (trace st2) = S (videos_calls (trace st)) →
      ∀ results2, ∃ res new st',
        fetch_batches env cfg youtube video_ids rest results2 st2 = (Return res, st') ∧
        extends st2 new st' ∧
        videos_requests new = batch_id cfg video_ids <$> take (S k) rest ∧
        res = results2 ++ concat (videos_pages new) ∧
        ((k < length rest)%nat → (length (videos_pages new) ≤ k)%nat)) as Hrest.
    { intros st2 Hst2 results2. apply IH.
      - intros h part id' Hh. apply Hgo. lia.
      - intros h part id' Hh Hk. apply Hquota; [lia | simpl; lia]. }
    destruct r as [[status s|s]|response] eqn:Hr.
    + destruct (status =? 403) eqn:Hs; [exfalso; apply Hg; lia|].
      edestruct (Hrest (st ▷ EvVideos "snippet,statistics" id (inl (HttpError status s))
                           ▷ EvLog ERROR ("Error fetching video details: " +:+ s)))
        as (res & new & st' & -> & Hext & Hrq & -> & Hpages).
      { rewrite !trace_record, !videos_calls_app. unfold videos_calls. simpl. lia. }
      eexists _, (_ :: _ :: new), _. split; [done|].
      split; [solve_extends|].
      split; [simpl; by rewrite Hrq|]. split; [done|].
      simpl. intros Hk. assert (k < length rest)%nat as Hk' by lia.
      specialize (Hpages Hk'). lia.
    + exfalso. apply Hg. lia.
    + destruct (i + batch_size cfg <? len video_ids).
      * edestruct (Hrest (st ▷ EvVideos "snippet,statistics" id (inr response)
                             ▷ EvSleep 1))
          as (res & new & st' & -> & Hext & Hrq & -> & Hpages).
        { rewrite !trace_record, !videos_calls_app. unfold videos_calls. simpl. lia. }
        eexists _, (_ :: _ :: new), _. split; [done|].
        split; [solve_extends|].
        split; [simpl; by rewrite Hrq|].
        split; [simpl; by rewrite <- app_assoc|].
        simpl. intros Hk. assert (k < length rest)%nat as Hk' by lia.
        specialize (Hpages Hk'). lia.
      * edestruct (Hrest (st ▷ EvVideos "snippet,statistics" id (inr response)))
          as (res & new & st' & -> & Hext & Hrq & -> & Hpages).
        { rewrite !trace_record, !videos_calls_app. unfold videos_calls. simpl. lia. }
        eexists _, (_ :: new), _. split; [done|].
        split; [solve_extends|].
        split; [simpl; by rewrite Hrq|].
        split; [simpl; by rewrite <- app_assoc|].
        simpl. intros Hk. assert (k < length rest)%nat as Hk' by lia.
        specialize (Hpages Hk'). lia.
Qed.

(** ** Backfilling missing transcripts *)

Lemma overwritten_twice (t l t' l' : string) (r : Row) :
  overwritten t l (overwritten t' l' r) = overwritten t l r.
Proof. reflexivity. Qed.

Lemma marks_quiet (path : string) (new : list Event) :
  Forall (λ ev, match ev with
                | EvTranscript _ _ | EvDetect _ _ | EvLog _ _ => True
                | _ => False
                end) new →
  marks path new = [].
Proof.
  induction 1 as [|ev new Hev _ IH]; [done|].
  destruct ev; try done; exact IH.
Qed.

(** The loop over the selected rows, when no save raises: it returns, it
    paces rows and saves as [checkpoint_marks] says, it asks for the
    transcript of every selected row that has a video id, and it assigns
    the two transcript cells of the selected rows and nothing else. *)
Lemma backfill_rows_spec (total : nat) (rows : list (nat * Row)) :
  backup_writes_succeed env cfg →
  ∀ (df : Table) (c : nat) (st : State),
  ∃ df' new st',
    backfill_rows env cfg total rows df c st
      = (Return (df', (c + length rows)%nat), st') ∧
    extends st new st' ∧
    marks (csv_file_path cfg) new = checkpoint_marks (S c) (length rows) ∧
    transcript_requests new
      = filter (λ v, v ≠ "") ((λ ir, video_id ir.2) <$> rows) ∧
    length df' = length df ∧
    (∀ i, i ∉ rows.*1 → df' !! i = df !! i) ∧
    (∀ i, i ∈ rows.*1 → ∃ t l, df' !! i = overwritten t l <$> df !! i).
Proof.
  intros Hbackup. induction rows as [|[index row] rest IH]; intros df c st.
  { exists df, [], st. rewrite Nat.add_0_r. split; [done|].
    split; [apply extends_refl|]. split; [done|]. split; [done|].
    split; [done|]. split; [done|]. intros i Hi. by apply elem_of_nil in Hi. }
  simpl backfill_rows. unfold logging_info, time_sleep. rewrite bind_emit.
  cbv beta.
  match goal with |- ∃ _ _ _, bind (get_transcript_and_language env ?v) _ ?s = _ ∧ _ =>
    destruct (get_transcript_and_language_returns v s)
      as ([t l] & new1 & st1 & Hget & Hext1 & _ & Hrq1 & Hq1)
  end.
  rewrite (bind_run _ _ _ _ _ Hget). cbv beta iota zeta.
  set (df1 := alter (set_detected_language l) index
                (alter (set_transcription t) index df)).
  assert (∃ new2 st2,
    (if (S c mod 10 =? 0)%nat
     then save_data env df1 (csv_file_path cfg);;
          emit (EvLog INFO ("Saved interim results after updating "
                            +:+ pretty (S c) +:+ " transcripts"))
     else ret tt) st1 = (Return tt, st2) ∧
    extends st1 new2 st2 ∧
    marks (csv_file_path cfg) new2
      = (if (S c mod 10 =? 0)%nat then [Saved] else []) ∧
    transcript_requests new2 = []) as (new2 & st2 & Hsave & Hext2 & Hm2 & Hrq2).
  { destruct (S c mod 10 =? 0)%nat.
    - destruct (save_data_returns df1 st1 Hbackup)
        as (new & st' & Hs & Hext & Hm & _ & Hrq & _).
      eexists (new ++ [_]), _. rewrite (bind_run _ _ _ _ _ Hs).
      split; [done|]. split; [solve_extends|].
      rewrite marks_app, transcript_requests_app, Hm, Hrq. done.
    - exists [], st1. split; [done|]. split; [apply extends_refl|]. done. }
  rewrite (bind_run _ _ _ _ _ Hsave). rewrite bind_emit.
  destruct (IH df1 (S c) (st2 ▷ EvSleep 1))
    as (df' & new3 & st' & Hrun & Hext3 & Hm3 & Hrq3 & Hlen & Hout & Hin).
  exists df', ([EvLog INFO ("Processing transcript for video " +:+ pretty (S c)
                  +:+ "/" +:+ pretty total +:+ ": " +:+ video_id row)]
               ++ new1 ++ new2 ++ [EvSleep 1] ++ new3), st'.
  split.
  { replace (c + length ((index, row) :: rest))%nat with (S c + length rest)%nat
      by (simpl; lia). exact Hrun. }
  split; [solve_extends|].
  assert (∀ i, df1 !! i = if decide (i = index) then overwritten t l <$> df !! i
                          else df !! i) as Hdf1.
  { intros i. unfold df1. destruct (decide (i = index)) as [->|Hne].
    - rewrite !list_lookup_alter_eq. by destruct (df !! index).
    - by rewrite !list_lookup_alter_ne. }
  split; [|split; [|split; [|split]]].
  - rewrite !marks_app, Hm2, Hm3, (marks_quiet _ _ Hq1).
    simpl length. rewrite checkpoint_marks_cons.
    by destruct (S c mod 10 =? 0)%nat.
  - rewrite !transcript_requests_app, Hrq1, Hrq2, Hrq3. simpl.
    rewrite filter_cons.
    destruct (decide (video_id row = "")); case_decide; simpl; done || congruence.
  - rewrite Hlen. unfold df1. by rewrite !length_alter.
  - intros i Hi. simpl in Hi. rewrite not_elem_of_cons in Hi. destruct Hi as [Hne Hi].
    rewrite Hout, Hdf1 by done. by rewrite decide_False.
  - intros i Hi. simpl in Hi.
    destruct (decide (i ∈ rest.*1)) as [Hrest|Hrest].
    + destruct (Hin i Hrest) as (t' & l' & ->). exists t', l'.
      rewrite Hdf1. destruct (decide (i = index)); [|done].
      destruct (df !! i); [|done]. simpl. by rewrite overwritten_twice.
    + apply elem_of_cons in Hi as [->|?]; [|done].
      exists t, l. rewrite Hout, Hdf1 by done. by rewrite decide_True.
Qed.

(** The selection *)

Lemma needs_transcript_iff (r : Row) :
  needs_transcript r = true ↔
  transcription r = None ∨ transcription r = Some "" ∨
  transcription r = Some "Video Error".
Proof.
  unfold needs_transcript. destruct (transcription r) as [s|]; [|by split; auto].
  rewrite orb_true_iff, !bool_decide_eq_true. split.
  - intros [->| ->]; auto.
  - intros [?|[?|?]]; simplify_eq; auto.
Qed.

Lemma elem_of_missing_transcripts (df : Table) (i : nat) (r : Row) :
  (i, r) ∈ missing_transcripts df ↔ df !! i = Some r ∧ needs_transcript r = true.
Proof.
  unfold missing_transcripts, iterrows. rewrite list_elem_of_filter.
  rewrite elem_of_lookup_imap. simpl. split.
  - intros (Hn & j & x & Heq & Hj). by simplify_eq.
  - intros [Hi Hn]. eauto.
Qed.

Lemma elem_of_missing_indices (df : Table) (i : nat) :
  i ∈ (missing_transcripts df).*1 ↔
  ∃ r, df !! i = Some r ∧ needs_transcript r = true.
Proof.
  rewrite list_elem_of_fmap. split.
  - intros ([j r] & -> & Hin). apply elem_of_missing_transcripts in Hin. eauto.
  - intros (r & Hi & Hn). exists (i, r). split; [done|].
    by apply elem_of_missing_transcripts.
Qed.

Lemma filter_imap_snd {A} (P : A → Prop) `{!∀ x, Decision (P x)}
    (g : nat → nat) (l : list A) :
  (filter (λ ir : nat * A, P ir.2) (imap (λ i r, (g i, r)) l)).*2 = filter P l.
Proof.
  revert g. induction l as [|x l IH]; intros g; [done|].
  rewrite imap_cons, !filter_cons. simpl.
  destruct (decide (P x)); simpl; [f_equal|]; apply (IH (g ∘ S)).
Qed.

Lemma missing_transcripts_ids (df : Table) :
  (λ ir : nat * Row, video_id ir.2) <$> missing_transcripts df
  = video_id <$> filter (λ r, needs_transcript r = true) df.
Proof.
  rewrite <- (filter_imap_snd (λ r, needs_transcript r = true) id df).
  unfold missing_transcripts, iterrows. by rewrite <- list_fmap_compose.
Qed.

(** The whole backfill, when no save raises. *)
Lemma update_missing_transcripts_spec (df : Table) (st : State) :
  backup_writes_succeed env cfg →
  ∃ df' new st',
    update_missing_transcripts env cfg df st = (Return df', st') ∧
    extends st new st' ∧
    marks (csv_file_path cfg) new
      = checkpoint_marks 1 (length (missing_transcripts df)) ∧
    transcript_requests new
      = filter (λ v, v ≠ "")
               (video_id <$> filter (λ r, needs_transcript r = true) df) ∧
    length df' = length df ∧
    (∀ i, i ∉ (missing_transcripts df).*1 → df' !! i = df !! i) ∧
    (∀ i, i ∈ (missing_transcripts df).*1 →
          ∃ t l, df' !! i = overwritten t l <$> df !! i).
Proof.
  intros Hbackup. unfold update_missing_transcripts.
  rewrite <- missing_transcripts_ids.
  destruct (df_empty df) eqn:Hempty.
  { destruct df; [|done]. exists [], [], st. split; [done|].
    split; [apply extends_refl|]. split; [done|]. split; [done|].
    split; [done|]. split; [done|]. intros i Hi. by apply elem_of_nil in Hi. }
  destruct (missing_transcripts df) as [|ir rows] eqn:Hmiss.
  { eexists df, [_], _. unfold logging_info. rewrite bind_emit.
    split; [done|]. split; [solve_extends|]. split; [done|]. split; [done|].
    split; [done|]. split; [done|]. intros i Hi. by apply elem_of_nil in Hi. }
  unfold logging_info. rewrite bind_emit.
  match goal with |- context [backfill_rows env cfg ?total ?rs ?d ?c] =>
    destruct (backfill_rows_spec total rs Hbackup d c
               (st ▷ EvLog INFO ("Updating transcripts for " +:+ pretty total
                                 +:+ " videos")))
      as (df' & new & st' & Hrun & Hext & Hm & Hrq & Hlen & Hout & Hin)
  end.
  rewrite (bind_run _ _ _ _ _ Hrun). cbv beta iota. rewrite bind_emit.
  eexists df', ([_] ++ new ++ [_]), _. split; [done|].
  split; [solve_extends|].
  split; [rewrite !marks_app, Hm; exact (app_nil_r _)|].
  split; [rewrite !transcript_requests_app, Hrq; exact (app_nil_r _)|]. done.
Qed.

(** Claim C6. The backfill selects exactly the rows whose transcription is
    missing, empty or "Video Error": each of them keeps its nine other
    fields and gets a transcription and a detected language; every other
    row is left as it was; the table keeps its length; and transcripts are
    requested for the selected rows (those with a video id), in order, and
    for no other row. *)
Theorem backfill_overwrites_only_missing_transcripts (df : Table) (st : State) :
  backup_writes_succeed env cfg →
  ∃ df' new st',
    update_missing_transcripts env cfg df st = (Return df', st') ∧
    extends st new st' ∧
    length df' = length df ∧
    (∀ i r, df !! i = Some r →
       transcription r = None ∨ transcription r = Some "" ∨
       transcription r = Some "Video Error" →
       ∃ t l, df' !! i = Some {|
         video_id := video_id r;
         title := title r;
         description := description r;
         published_at := published_at r;
         view_count := view_count r;
         like_count := like_count r;
         comment_count := comment_count r;
         video_url := video_url r;
         region := region r;
         transcription := Some t;
         detected_language := Some l |}) ∧
    (∀ i r, df !! i = Some r →
       ¬ (transcription r = None ∨ transcription r = Some "" ∨
          transcription r = Some "Video Error") →
       df' !! i = Some r) ∧
    transcript_requests new
      = filter (λ v, v ≠ "")
               (video_id <$> filter (λ r, needs_transcript r = true) df).
Proof.
  intros Hbackup.
  destruct (update_missing_transcripts_spec df st Hbackup)
    as (df' & new & st' & Hrun & Hext & _ & Hrq & Hlen & Hout & Hin).
  exists df', new, st'. split; [done|]. split; [done|]. split; [done|].
  split; [|split; [|done]].
  - intros i r Hi Hsel. apply needs_transcript_iff in Hsel.
    destruct (Hin i) as (t & l & Hi'); [apply elem_of_missing_indices; eauto|].
    exists t, l. by rewrite Hi', Hi.
  - intros i r Hi Hsel. rewrite Hout; [done|].
    intros (r' & Hi' & Hn)%elem_of_missing_indices.
    apply Hsel, needs_transcript_iff. congruence.
Qed.

(** *** What the checkpoints write *)

Lemma writes_to_quiet (path : string) (new : list Event) :
  Forall (λ ev, match ev with
                | EvTranscript _ _ | EvDetect _ _ | EvLog _ _ => True
                | _ => False
                end) new →
  writes_to path new = [].
Proof.
  induction 1 as [|ev new Hev _ IH]; [done|].
  destruct ev; try done; exact IH.
Qed.

Lemma omap_seq_S {B} (f : nat → option B) (n : nat) :
  omap f (seq 0 (S n))
  = match f O with Some y => [y] | None => [] end ++ omap (f ∘ S) (seq 0 n).
Proof.
  change (seq 0 (S n)) with ([O] ++ seq 1 n). rewrite omap_app. f_equal.
  rewrite <- fmap_S_seq. generalize (seq 0 n). intros l.
  induction l as [|k l IH]; [done|]. csimpl. by rewrite IH.
Qed.

Lemma filled_nil (df df' : Table) : filled df df' [] = df.
Proof.
  unfold filled. apply list_eq. intros i. rewrite list_lookup_imap.
  destruct (df !! i) as [r|]; [|done]. simpl.
  destruct (decide (i ∈ [])) as [Hi|_]; [|done]. by apply elem_of_nil in Hi.
Qed.

(** Processing the row [index] first and the rows [idx] of the resulting
    table afterwards is processing the rows [index :: idx]. *)
Lemma filled_step (df df1 df' : Table) (index : nat) (idx : list nat) :
  index ∉ idx →
  df' !! index = df1 !! index →
  (∀ i, i ≠ index → df1 !! i = df !! i) →
  length df1 = length df →
  filled df1 df' idx = filled df df' (index :: idx).
Proof.
  intros Hnot Hsame Hother Hlen. unfold filled. apply list_eq. intros i.
  rewrite !list_lookup_imap. destruct (decide (i = index)) as [->|Hne].
  - destruct (df1 !! index) as [r1|] eqn:H1;
      destruct (df !! index) as [r|] eqn:H0; simpl.
    + rewrite decide_False by done. rewrite decide_True by left.
      by rewrite Hsame.
    + apply lookup_lt_Some in H1. apply lookup_ge_None in H0. lia.
    + apply lookup_lt_Some in H0. apply lookup_ge_None in H1. lia.
    + done.
  - rewrite (Hother i Hne). destruct (df !! i) as [r|]; [|done]. simpl.
    destruct (decide (i ∈ idx)) as [Hi|Hi].
    + rewrite decide_True; [done|]. by right.
    + rewrite decide_False; [done|]. rewrite not_elem_of_cons. done.
Qed.

(** The loop over the selected rows: what it writes to the configured
    path. With [c] rows processed before, the table is written after the
    [k]-th row of this loop whenever [c + k] is a multiple of 10, and what
    is written then is the table in which the first [k] rows of the loop
    are processed and the others are not. *)
Lemma backfill_rows_writes (total : nat) (rows : list (nat * Row)) :
  backup_writes_succeed env cfg →
  NoDup rows.*1 →
  ∀ (df : Table) (c : nat) (st : State),
  ∃ df' new st',
    backfill_rows env cfg total rows df c st
      = (Return (df', (c + length rows)%nat), st') ∧
    extends st new st' ∧
    length df' = length df ∧
    (∀ i, i ∉ rows.*1 → df' !! i = df !! i) ∧
    writes_to (csv_file_path cfg) new
      = omap (λ k, if (S k + c) mod 10 =? 0
                   then Some (filled df df' (take (S k) rows.*1)) else None)%nat
             (seq 0 (length rows)).
Proof.
  intros Hbackup. induction rows as [|[index row] rest IH]; intros Hdup df c st.
  { exists df, [], st. rewrite Nat.add_0_r. split; [done|].
    split; [apply extends_refl|]. done. }
  simpl in Hdup. apply NoDup_cons in Hdup as [Hnot Hdup].
  simpl backfill_rows. unfold logging_info, time_sleep. rewrite bind_emit.
  cbv beta.
  match goal with |- ∃ _ _ _, bind (get_transcript_and_language env ?v) _ ?s = _ ∧ _ =>
    destruct (get_transcript_and_language_returns v s)
      as ([t l] & new1 & st1 & Hget & Hext1 & _ & _ & Hq1)
  end.
  rewrite (bind_run _ _ _ _ _ Hget). cbv beta iota zeta.
  set (df1 := alter (set_detected_language l) index
                (alter (set_transcription t) index df)).
  assert (∃ new2 st2,
    (if (S c mod 10 =? 0)%nat
     then save_data env df1 (csv_file_path cfg);;
          emit (EvLog INFO ("Saved interim results after updating "
                            +:+ pretty (S c) +:+ " transcripts"))
     else ret tt) st1 = (Return tt, st2) ∧
    extends st1 new2 st2 ∧
    writes_to (csv_file_path cfg) new2
      = (if (S c mod 10 =? 0)%nat then [df1] else []))
    as (new2 & st2 & Hsave & Hext2 & Hw2).
  { destruct (S c mod 10 =? 0)%nat.
    - destruct (save_data_returns df1 st1 Hbackup)
        as (new & st' & Hs & Hext & _ & Hw & _).
      eexists (new ++ [_]), _. rewrite (bind_run _ _ _ _ _ Hs).
      split; [done|]. split; [solve_extends|].
      rewrite writes_to_app, Hw. done.
    - exists [], st1. split; [done|]. split; [apply extends_refl|]. done. }
  rewrite (bind_run _ _ _ _ _ Hsave). rewrite bind_emit.
  destruct (IH Hdup df1 (S c) (st2 ▷ EvSleep 1))
    as (df' & new3 & st' & Hrun & Hext3 & Hlen & Hout & Hw3).
  exists df', ([EvLog INFO ("Processing transcript for video " +:+ pretty (S c)
                  +:+ "/" +:+ pretty total +:+ ": " +:+ video_id row)]
               ++ new1 ++ new2 ++ [EvSleep 1] ++ new3), st'.
  split.
  { replace (c + length ((index, row) :: rest))%nat with (S c + length rest)%nat
      by (simpl; lia). exact Hrun. }
  split; [solve_extends|].
  assert (length df1 = length df) as Hlen1.
  { unfold df1. by rewrite !length_alter. }
  assert (∀ i, i ≠ index → df1 !! i = df !! i) as Hother.
  { intros i Hne. unfold df1. by rewrite !list_lookup_alter_ne. }
  split; [congruence|]. split.
  { intros i Hi. simpl in Hi. rewrite not_elem_of_cons in Hi.
    destruct Hi as [Hne Hi]. rewrite Hout by done. by apply Hother. }
  assert (∀ idx, index ∉ idx → filled df1 df' idx = filled df df' (index :: idx))
    as Hstep.
  { intros idx Hidx. apply filled_step; try done. by apply Hout. }
  rewrite !writes_to_app, (writes_to_quiet _ _ Hq1), Hw2, Hw3.
  change (writes_to (csv_file_path cfg) [EvLog _ _]) with (@nil Table).
  change (writes_to (csv_file_path cfg) [EvSleep 1]) with (@nil Table).
  simpl length. rewrite omap_seq_S. cbv beta.
  change (take 1 ((index, row) :: rest).*1) with [index].
  rewrite <- (Hstep []), filled_nil by apply not_elem_of_nil.
  assert (omap (λ k, if (S k + S c) mod 10 =? 0
                     then Some (filled df1 df' (take (S k) rest.*1)) else None)%nat
               (seq 0 (length rest))
          = omap ((λ k, if (S k + c) mod 10 =? 0
                        then Some (filled df df' (take (S k) (index :: rest.*1)))
                        else None)%nat ∘ S)
                 (seq 0 (length rest))) as ->.
  { apply list_omap_ext, Forall2_same_length_lookup_2; [done|].
    intros k x y Hx Hy. rewrite Hx in Hy. injection Hy as <-.
    unfold compose. cbv beta.
    replace (S (S x) + c)%nat with (S x + S c)%nat by lia.
    destruct ((S x + S c) mod 10 =? 0)%nat; [|done]. f_equal.
    change (take (S (S x)) (index :: rest.*1)) with (index :: take (S x) rest.*1).
    apply Hstep. intros Hin. apply Hnot. eapply subseteq_take, Hin. }
  change (1 + c)%nat with (S c). by destruct (S c mod 10 =? 0)%nat.
Qed.

(** The selected rows carry distinct index labels. *)
Lemma missing_indices_NoDup (df : Table) : NoDup (missing_transcripts df).*1.
Proof.
  apply NoDup_fmap_fst.
  - intros i r1 r2 H1 H2. apply elem_of_missing_transcripts in H1 as [H1 _].
    apply elem_of_missing_transcripts in H2 as [H2 _]. congruence.
  - unfold missing_transcripts, iterrows. apply NoDup_filter, NoDup_alt.
    intros i j x Hi Hj. rewrite list_lookup_imap in Hi, Hj.
    destruct (df !! i); [|done]. destruct (df !! j); [|done]. simpl in *.
    congruence.
Qed.

(** The multiples of 10 up to [m], counted off. *)
Lemma omap_every_tenth {B} (F : nat → B) (m : nat) :
  omap (λ k, if (S k + 0) mod 10 =? 0 then Some (F (S k)) else None)%nat (seq 0 m)
  = (λ j, F (10 * S j)%nat) <$> seq 0 (m / 10).
Proof.
  induction m as [|m IH]; [done|].
  rewrite seq_S, omap_app, IH, div10_succ.
  change (0 + m)%nat with m.
  match goal with
  | |- _ ++ omap ?f [m] = _ =>
      change (omap f [m]) with (match f m with Some y => [y] | None => [] end)
  end.
  cbv beta. rewrite Nat.add_0_r.
  destruct (S m mod 10 =? 0)%nat eqn:Hm.
  - rewrite Nat.add_1_r, seq_S, fmap_app. f_equal.
    change (0 + m / 10)%nat with (m / 10)%nat.
    change ((λ j, F (10 * S j)%nat) <$> [(m / 10)%nat])
      with [F (10 * S (m / 10))%nat].
    do 2 f_equal.
    apply Nat.eqb_eq in Hm. pose proof (Nat.div_mod_eq (S m) 10).
    pose proof (div10_succ m) as Hd. rewrite (proj2 (Nat.eqb_eq _ _) Hm) in Hd.
    lia.
  - by rewrite Nat.add_0_r, app_nil_r.
Qed.

(** The backfill writes its checkpoint tables, and nothing else, to the
    configured path. *)
Lemma update_missing_transcripts_writes (df : Table) (st : State) :
  backup_writes_succeed env cfg →
  ∃ df' new st',
    update_missing_transcripts env cfg df st = (Return df', st') ∧
    extends st new st' ∧
    writes_to (csv_file_path cfg) new = checkpoint_tables df df'.
Proof.
  intros Hbackup. unfold update_missing_transcripts, checkpoint_tables.
  destruct (df_empty df) eqn:Hempty.
  { destruct df; [|done]. exists [], [], st. split; [done|].
    split; [apply extends_refl|]. done. }
  pose proof (missing_indices_NoDup df) as Hdup.
  destruct (missing_transcripts df) as [|ir rows] eqn:Hmiss.
  { eexists df, [_], _. unfold logging_info. rewrite bind_emit.
    split; [done|]. split; [solve_extends|]. done. }
  rewrite <- Hmiss in *. unfold logging_info. rewrite bind_emit.
  match goal with |- context [backfill_rows env cfg ?total ?rs ?d ?c] =>
    destruct (backfill_rows_writes total rs Hbackup Hdup d c
               (st ▷ EvLog INFO ("Updating transcripts for " +:+ pretty total
                                 +:+ " videos")))
      as (df' & new & st' & Hrun & Hext & _ & _ & Hw)
  end.
  destruct (missing_transcripts df) as [|ir' rows'] eqn:Hmiss'; [done|].
  rewrite <- Hmiss' in *.
  rewrite (bind_run _ _ _ _ _ Hrun). cbv beta iota. rewrite bind_emit.
  eexists df', ([_] ++ new ++ [_]), _. split; [done|].
  split; [solve_extends|].
  rewrite !writes_to_app, Hw.
  change (writes_to (csv_file_path cfg) [EvLog _ _]) with (@nil Table).
  rewrite app_nil_r. simpl app.
  apply (omap_every_tenth (λ k, filled df df' (take k (missing_transcripts df).*1))).
Qed.

(** Claim C7. In the backfill phase of [main] the table is written to the
    configured path after every 10th processed row and once more when the
    phase is over: for [m] selected rows that is [m / 10 + 1] writes. The
    [j]-th of the interim writes is the table as it is when [10 * j] rows
    have been processed: these rows carry the cells they have in the final
    table, every other row is as it was at the start. The last write is
    the final table. With 25 rows: nine rows, a save with the tenth, nine
    rows, a save with the twentieth, five rows, the final save; three
    saves. *)
Theorem backfill_saves_every_tenth_row_and_at_the_end (df : Table) (st : State) :
  update_transcripts cfg = true →
  df ≠ [] →
  backup_writes_succeed env cfg →
  ∃ df' new st',
    backfill_phase env cfg df st = (Return df', st') ∧
    extends st new st' ∧
    marks (csv_file_path cfg) new
      = checkpoint_marks 1 (length (missing_transcripts df)) ++ [Saved] ∧
    writes_to (csv_file_path cfg) new = checkpoint_tables df df' ++ [df'] ∧
    length (writes_to (csv_file_path cfg) new)
      = (length (missing_transcripts df) / 10 + 1)%nat ∧
    last (writes_to (csv_file_path cfg) new) = Some df' ∧
    (length (missing_transcripts df) = 25%nat →
     marks (csv_file_path cfg) new
       = replicate 9 RowDone ++ [Saved; RowDone] ++
         replicate 9 RowDone ++ [Saved; RowDone] ++
         replicate 5 RowDone ++ [Saved] ∧
     length (writes_to (csv_file_path cfg) new) = 3%nat).
Proof.
  intros Hon Hne Hbackup. unfold backfill_phase. rewrite Hon.
  destruct df as [|r0 df0]; [done|]. cbn [df_empty negb andb].
  destruct (update_missing_transcripts_spec (r0 :: df0) st Hbackup)
    as (df' & new1 & st1 & Hrun & Hext1 & Hm1 & _).
  destruct (update_missing_transcripts_writes (r0 :: df0) st Hbackup)
    as (df'' & new1' & st1' & Hrun' & Hext1' & Hw1).
  rewrite Hrun in Hrun'. injection Hrun' as <- <-.
  rewrite <- (extends_inj _ _ _ _ Hext1 Hext1') in Hw1. clear new1' Hext1'.
  rewrite (bind_run _ _ _ _ _ Hrun).
  destruct (save_data_returns df' st1 Hbackup)
    as (new2 & st2 & Hsave & Hext2 & Hm2 & Hw2 & _).
  rewrite (bind_run _ _ _ _ _ Hsave).
  exists df', (new1 ++ new2), st2. split; [done|].
  split; [solve_extends|].
  assert (marks (csv_file_path cfg) (new1 ++ new2)
          = checkpoint_marks 1 (length (missing_transcripts (r0 :: df0))) ++ [Saved])
    as Hmarks by (by rewrite marks_app, Hm1, Hm2).
  assert (length (writes_to (csv_file_path cfg) (new1 ++ new2))
          = (length (missing_transcripts (r0 :: df0)) / 10 + 1)%nat) as Hcount.
  { rewrite writes_to_saves, Hmarks, saves_app, saves_checkpoint_marks.
    unfold saves. simpl. lia. }
  split; [done|]. split; [by rewrite writes_to_app, Hw1, Hw2|].
  split; [done|].
  split; [by rewrite writes_to_app, Hw2, last_snoc|].
  intros H25. rewrite Hmarks, Hcount, H25. done.
Qed.

(** The batches of [fetch_video_details]: the slices of [video_ids] at the
    indices of its range. *)
Lemma fetch_video_details_unfold (youtube : string) (video_ids : list string)
    (st : State) :
  video_ids ≠ [] → batch_size cfg ≠ 0 →
  fetch_video_details env cfg youtube video_ids st
  = fetch_batches env cfg youtube video_ids
      (range_from (length video_ids) 0 (len video_ids) (batch_size cfg)) [] st.
Proof.
  intros Hne Hb. unfold fetch_video_details. destruct video_ids as [|v ids]; [done|].
  unfold py_range. destruct (batch_size cfg =? 0) eqn:Hz; [lia|].
  rewrite bind_ret. do 2 f_equal. unfold len. lia.
Qed.

Lemma batches_of_range (video_ids : list string) :
  0 < batch_size cfg →
  let indices := range_from (length video_ids) 0 (len video_ids) (batch_size cfg) in
  let batches := (λ i, slice video_ids i (i + batch_size cfg)) <$> indices in
  batch_id cfg video_ids <$> indices = join "," <$> batches ∧
  concat batches = video_ids ∧
  Forall (λ b, 0 < len b ≤ batch_size cfg) batches ∧
  len batches = if 0 <? len video_ids
                then ceil_div (len video_ids) (batch_size cfg) else 0.
Proof.
  intros Hb indices batches. split; [|split; [|split]].
  - unfold batches. by rewrite <- list_fmap_compose.
  - unfold batches, indices. rewrite range_from_slices; [done|lia..|].
    unfold len. lia.
  - unfold batches. rewrite Forall_fmap.
    eapply Forall_impl; [apply range_from_bounds; lia|].
    intros i Hi. simpl in *. rewrite slice_length by lia. lia.
  - unfold batches, len at 1. rewrite length_fmap. unfold indices.
    rewrite range_from_length by (unfold len; lia).
    by rewrite Z.sub_0_r.
Qed.

(** Claim C3. For a non-empty list of [N] ids and a batch size [B > 0],
    as long as no request fails with the quota error or with anything but
    an [HttpError], the statistics fetcher issues one request per batch:
    the batches are consecutive slices of the input, in order, of at most
    [B] ids each, and there are ceil(N/B) of them. *)
Theorem fetch_video_details_issues_ceil_batches
    (youtube : string) (video_ids : list string) (st : State) :
  video_ids ≠ [] →
  0 < batch_size cfg →
  (∀ h part id, goes_on (videos_list_execute env h part id)) →
  ∃ res new st' (batches : list (list string)),
    fetch_video_details env cfg youtube video_ids st = (Return res, st') ∧
    extends st new st' ∧
    videos_requests new = join "," <$> batches ∧
    concat batches = video_ids ∧
    Forall (λ b, 0 < len b ≤ batch_size cfg) batches ∧
    len batches = ceil_div (len video_ids) (batch_size cfg).
Proof.
  intros Hne Hb Hgo.
  rewrite fetch_video_details_unfold by (done || lia).
  set (indices := range_from _ _ _ _).
  destruct (fetch_batches_until_quota youtube video_ids indices (length indices) [] st)
    as (res & new & st' & Hrun & Hext & Hrq & _ & _).
  { intros h part id _. apply Hgo. }
  { intros h part id _ Hlt. lia. }
  destruct (batches_of_range video_ids Hb) as (Hids & Hcat & Hlen & Hcount).
  fold indices in Hids, Hcat, Hlen, Hcount.
  eexists res, new, st', _. split; [done|]. split; [done|].
  split; [|split; [done|split; [done|]]].
  - rewrite Hrq, take_ge by lia. done.
  - rewrite Hcount. destruct (0 <? len video_ids) eqn:Hpos; [done|].
    apply Z.ltb_ge in Hpos. destruct video_ids; [done|].
    unfold len in Hpos. simpl length in Hpos. lia.
Qed.

(** Claim C4. If the [k+1]-th batch request is the first to fail with the
    quota error, the statistics fetcher returns (it does not raise) the
    items of the responses received so far, and issues [k+1] requests in
    all: the first [k+1] batches, none after the failing one. *)
Theorem fetch_video_details_stops_at_quota
    (youtube : string) (video_ids : list string) (k : nat) (st : State) :
  0 < batch_size cfg →
  Z.of_nat k < ceil_div (len video_ids) (batch_size cfg) →
  (∀ h part id, (videos_calls h < videos_calls (trace st) + k)%nat →
                goes_on (videos_list_execute env h part id)) →
  (∀ h part id, videos_calls h = (videos_calls (trace st) + k)%nat →
                quota_exceeded (videos_list_execute env h part id)) →
  ∃ new st' (batches : list (list string)),
    fetch_video_details env cfg youtube video_ids st
      = (Return (concat (videos_pages new)), st') ∧
    extends st new st' ∧
    concat batches = video_ids ∧
    len batches = ceil_div (len video_ids) (batch_size cfg) ∧
    videos_requests new = join "," <$> take (S k) batches ∧
    videos_calls new = S k ∧
    (length (videos_pages new) ≤ k)%nat.
Proof.
  intros Hb Hk Hgo Hquota.
  assert (video_ids ≠ []) as Hne.
  { intros ->. unfold ceil_div, len in Hk. simpl in Hk.
    rewrite Z.div_small in Hk by lia. lia. }
  rewrite fetch_video_details_unfold by (done || lia).
  destruct (batches_of_range video_ids Hb) as (Hids & Hcat & Hlen & Hcount).
  set (indices := range_from _ _ _ _) in *.
  destruct (0 <? len video_ids) eqn:Hpos;
    [|apply Z.ltb_ge in Hpos; destruct video_ids; [done|];
      unfold len in Hpos; simpl length in Hpos; lia].
  destruct (fetch_batches_until_quota youtube video_ids indices k [] st)
    as (res & new & st' & Hrun & Hext & Hrq & -> & Hpages).
  { done. }
  { intros h part id Hh _. by apply Hquota. }
  assert (S k ≤ length indices)%nat as Hlt.
  { unfold len in Hcount, Hk. rewrite length_fmap in Hcount. lia. }
  eexists new, st', _. split; [done|]. split; [done|].
  split; [done|]. split; [done|].
  assert (videos_requests new
          = join "," <$> take (S k)
              ((λ i, slice video_ids i (i + batch_size cfg)) <$> indices)) as Hrq'.
  { by rewrite Hrq, <- fmap_take, <- list_fmap_compose. }
  split; [done|].
  assert (videos_calls new = S k) as Hcalls.
  { unfold videos_calls. rewrite Hrq, length_fmap, length_take. lia. }
  split; [done|].
  apply Hpages. lia.
Qed.

(** ** Assembling the records of new videos *)

Lemma details_by_id_None (detailed_videos : list VideoItem) (k : string) :
  details_by_id detailed_videos !! k = None ↔ k ∉ vi_id <$> detailed_videos.
Proof.
  unfold details_by_id.
  assert (∀ m : gmap string VideoItem,
    foldl (λ m v, <[vi_id v := v]> m) m detailed_videos !! k = None ↔
    m !! k = None ∧ k ∉ vi_id <$> detailed_videos) as Hgen.
  { induction detailed_videos as [|v dv IH]; intros m; simpl.
    - split; [intros ?; split; [done|apply not_elem_of_nil]|by intros [? _]].
    - rewrite IH, not_elem_of_cons, lookup_insert_None. split.
      + intros [[? ?] ?]. split; [done|]. split; [congruence|done].
      + intros [? [? ?]]. split; [split; [done|congruence]|done]. }
  rewrite Hgen, lookup_empty. split; [by intros [_ ?]|by split].
Qed.

Lemma videos_pages_app (a b : list Event) :
  videos_pages (a ++ b) = videos_pages a ++ videos_pages b.
Proof. apply omap_app. Qed.

Lemma videos_pages_quiet (new : list Event) :
  Forall (λ ev, match ev with
                | EvTranscript _ _ | EvDetect _ _ | EvLog _ _ => True
                | _ => False
                end) new →
  videos_pages new = [].
Proof.
  induction 1 as [|ev new Hev _ IH]; [done|].
  destruct ev; try done; exact IH.
Qed.

Lemma build_records_spec (video_details : gmap string VideoItem)
    (include_transcripts : bool) (total : nat) (search_results : list SearchItem) :
  ∀ (i : nat) (records : Table) (st : State),
  ∃ out new st',
    build_records env video_details include_transcripts total i
                  search_results records st
      = (Return (records ++ out), st') ∧
    extends st new st' ∧
    videos_pages new = [] ∧
    Forall2 (assembled video_details) search_results out.
Proof.
  induction search_results as [|video rest IH]; intros i records st.
  { exists [], [], st. rewrite app_nil_r. split; [done|].
    split; [apply extends_refl|]. split; [done|]. constructor. }
  simpl build_records.
  set (record := mkRow _ _ _ _ _ _ _ _ _ _ _).
  assert (assembled video_details video record) as Hrec.
  { split; [done|]. split; [done|]. intros Hnone. unfold record. simpl.
    unfold statistics_of. by rewrite Hnone. }
  destruct include_transcripts.
  - unfold logging_info, time_sleep. rewrite bind_assoc, bind_emit. cbv beta.
    rewrite bind_assoc.
    match goal with |- ∃ _ _ _, bind (get_transcript_and_language env ?v) _ ?s = _ ∧ _ =>
      destruct (get_transcript_and_language_returns v s)
        as ([t l] & new1 & st1 & Hget & Hext1 & _ & _ & Hq1)
    end.
    rewrite (bind_run _ _ _ _ _ Hget). cbv beta iota.
    rewrite bind_assoc, bind_emit. cbv beta. rewrite bind_ret.
    edestruct IH as (out & new2 & st' & -> & Hext2 & Hp2 & Hall).
    eexists (_ :: out), ([_] ++ new1 ++ [_] ++ new2), st'.
    split; [by rewrite <- app_assoc|]. split; [solve_extends|].
    split; [rewrite !videos_pages_app, Hp2, (videos_pages_quiet _ Hq1); done|].
    constructor; [|done]. destruct Hrec as (? & ? & ?). done.
  - rewrite bind_ret.
    edestruct IH as (out & new2 & st' & -> & Hext2 & Hp2 & Hall).
    eexists (_ :: out), new2, st'.
    split; [by rewrite <- app_assoc|]. split; [done|]. split; [done|].
    by constructor.
Qed.

Lemma fetch_batches_returns (youtube : string) (video_ids : list string)
    (indices : list Z) :
  (∀ h part id, handled (videos_list_execute env h part id)) →
  ∀ (results : list VideoItem) (st : State),
  ∃ res st', fetch_batches env cfg youtube video_ids indices results st = (Return res, st').
Proof.
  intros Hh. induction indices as [|i rest IH]; intros results st; [by eexists _, _|].
  rewrite fetch_batches_cons. cbv zeta.
  pose proof (Hh (trace st) "snippet,statistics" (batch_id cfg video_ids i)) as H.
  destruct (videos_list_execute env (trace st) _ _) as [[status s|s]|response];
    [destruct (status =? 403)|..]; try done; eauto.
Qed.

(** [process_videos], whatever the endpoints answer: it raises nothing but
    what [fetch_video_details] raised, and the records it returns are
    assembled from the search entries, one by one, with the details that
    the videos endpoint sent. *)
Lemma process_videos_spec (youtube : string) (search_results : list SearchItem)
    (include_transcripts : bool) (st : State) :
  ∃ out new st',
    process_videos env cfg youtube search_results include_transcripts st = (out, st') ∧
    extends st new st' ∧
    match out with
    | Return records =>
        Forall2 (assembled (details_by_id (concat (videos_pages new))))
                search_results records
    | Raise (Exception _) => True
    | _ => False
    end.
Proof.
  unfold process_videos. destruct search_results as [|v0 rest0] eqn:Hsr.
  { exists (Return []), [], st. split; [done|]. split; [apply extends_refl|].
    constructor. }
  rewrite <- Hsr. clear Hsr v0 rest0.
  unfold fetch_video_details.
  set (video_ids := id_videoId <$> search_results).
  assert (∃ out1 new1 st1,
    match video_ids with
    | [] => ret []
    | _ :: _ =>
        bind (py_range 0 (len video_ids) (batch_size cfg))
             (λ indices, fetch_batches env cfg youtube video_ids indices [])
    end st = (out1, st1) ∧
    extends st new1 st1 ∧
    match out1 with
    | Return res => res = concat (videos_pages new1)
    | Raise (Exception _) => True
    | _ => False
    end) as (out1 & new1 & st1 & Hfetch & Hext1 & Hout1).
  { destruct video_ids as [|x xs] eqn:Hids.
    { exists (Return []), [], st. split; [done|]. split; [apply extends_refl|]. done. }
    rewrite <- Hids. clear Hids x xs.
    unfold py_range. destruct (batch_size cfg =? 0).
    { eexists (Raise _), [], st. split; [done|]. split; [apply extends_refl|]. done. }
    rewrite bind_ret.
    match goal with |- context [fetch_batches env cfg youtube video_ids ?ind] =>
      destruct (fetch_batches_spec youtube video_ids ind [] st)
        as (out & new & st' & j & Hrun & Hext & _ & _ & _ & Hout)
    end.
    exists out, new, st'. split; [done|]. split; [done|]. done. }
  unfold bind at 1. rewrite Hfetch.
  destruct out1 as [detailed_videos|[status s|s]|]; try done.
  - subst detailed_videos.
    destruct (build_records_spec (details_by_id (concat (videos_pages new1)))
                include_transcripts (length search_results) search_results O [] st1)
      as (out & new2 & st' & Hbuild & Hext2 & Hp2 & Hall).
    exists (Return out), (new1 ++ new2), st'. split; [done|].
    split; [solve_extends|].
    by rewrite videos_pages_app, Hp2, app_nil_r.
  - eexists (Raise _), new1, st1. done.
Qed.

(** It returns when the videos endpoint raises nothing but [HttpError]s and
    the batch size is not zero. *)
Lemma process_videos_returns (youtube : string) (search_results : list SearchItem)
    (include_transcripts : bool) (st : State) :
  batch_size cfg ≠ 0 →
  (∀ h part id, handled (videos_list_execute env h part id)) →
  ∃ records new st',
    process_videos env cfg youtube search_results include_transcripts st
      = (Return records, st') ∧
    extends st new st' ∧
    Forall2 (assembled (details_by_id (concat (videos_pages new))))
            search_results records.
Proof.
  intros Hb Hh.
  assert (∃ records st'',
    process_videos env cfg youtube search_results include_transcripts st
      = (Return records, st'')) as (records & st'' & Hret).
  { unfold process_videos. destruct search_results as [|v0 rest0] eqn:Hsr.
    { by eexists _, _. }
    rewrite <- Hsr. clear Hsr v0 rest0.
    set (video_ids := id_videoId <$> search_results).
    assert (∃ res st1, fetch_video_details env cfg youtube video_ids st
                       = (Return res, st1)) as (res & st1 & Hfetch).
    { unfold fetch_video_details. destruct video_ids as [|x xs] eqn:Hids.
      { by eexists _, _. }
      rewrite <- Hids. unfold py_range.
      destruct (batch_size cfg =? 0) eqn:Hz; [lia|]. rewrite bind_ret.
      by apply fetch_batches_returns. }
    rewrite (bind_run _ _ _ _ _ Hfetch).
    destruct (build_records_spec (details_by_id res) include_transcripts
                (length search_results) search_results O [] st1)
      as (out' & new2 & st2 & Hbuild & _).
    by eexists _, _. }
  destruct (process_videos_spec youtube search_results include_transcripts st)
    as (out & new & st' & Hrun & Hext & Hout).
  rewrite Hrun in Hret. injection Hret as -> ->.
  by exists records, new, st''.
Qed.

(** ** The orchestrator *)

Lemma main_try_startup (fuel : nat) (st : State) :
  startup_ok env →
  ∃ youtube new st1,
    main_try env cfg fuel st
    = bind (refresh_phase env cfg youtube (loaded_table cfg st))
        (λ existing_data,
           bind (backfill_phase env cfg existing_data)
             (λ existing_data,
                search_phase env cfg fuel youtube
                  (list_to_set (video_id <$> loaded_table cfg st)) existing_data))
        st1 ∧
    extends st new st1 ∧ files st1 = files st ∧
    Forall (λ ev, match ev with
                  | EvGetenv _ _ | EvBuild _ _ | EvMakedirs _ _ | EvLog _ _ => True
                  | _ => False
                  end) new.
Proof.
  intros (Hkey & Hbuild & Hmk).
  set (r := os_getenv env (trace st) "YOUTUBE_API_KEY").
  set (st1 := st ▷ EvGetenv "YOUTUBE_API_KEY" r).
  assert (initialize_youtube_client env st
          = (Return (default "" r), st1 ▷ EvBuild (default "" r) None)) as Hinit.
  { unfold initialize_youtube_client, get_api_key, getenv.
    apply try_except_run. rewrite bind_assoc. unfold bind at 1. fold r st1.
    unfold r at 1. rewrite Hkey. rewrite bind_ret.
    unfold build_youtube. by rewrite Hbuild. }
  set (st2 := st1 ▷ EvBuild (default "" r) None) in *.
  assert (load_existing_data env (csv_file_path cfg) st2
          = (Return (loaded_table cfg st),
             st2 ▷ EvMakedirs (os_path_dirname (csv_file_path cfg)) None)) as Hload.
  { unfold load_existing_data, makedirs, os_path_exists, pd_read_csv, bind.
    rewrite Hmk. unfold loaded_table. simpl.
    change (files (st2 ▷ EvMakedirs (os_path_dirname (csv_file_path cfg)) None))
      with (files st).
    destruct (files st !! csv_file_path cfg) as [df|] eqn:Hf.
    - rewrite bool_decide_eq_true_2 by eauto.
      change (files (st2 ▷ EvMakedirs (os_path_dirname (csv_file_path cfg)) None))
        with (files st).
      by rewrite Hf.
    - rewrite bool_decide_eq_false_2; [done|]. by intros [? ?]. }
  eexists (default "" r), [_; _; _; _], _. split.
  { unfold main_try. rewrite (bind_run _ _ _ _ _ Hinit).
    rewrite (bind_run _ _ _ _ _ Hload). unfold logging_info. rewrite bind_emit.
    reflexivity. }
  split; [solve_extends|]. split; [done|]. by repeat constructor.
Qed.

Lemma nothing_new_filtered (K : gset string) (new : list Event) :
  nothing_new env K →
  Forall (λ ev, match ev with
                | EvSearch rq r => ∃ h, search_list_execute env h rq = r
                | EvLog _ _ | EvSleep _ => True
                | _ => False
                end) new →
  filter (λ v, id_videoId v ∉ K) (concat (search_pages new)) = [].
Proof.
  intros Hnew. induction 1 as [|ev new Hev _ IH]; [done|].
  destruct ev as [| | | |rq [e|response]| | | | | |]; try done.
  change (search_pages (EvSearch rq (inr response) :: new))
    with (default [] (sr_items response) :: search_pages new).
  simpl concat. rewrite filter_app, IH, app_nil_r.
  destruct Hev as [h Hh]. apply Hnew in Hh.
  induction Hh as [|v vs Hv _ IHvs]; [done|].
  rewrite filter_cons. by destruct (decide (id_videoId v ∉ K)).
Qed.

Lemma search_phase_nothing_new (n fuel : nat) (youtube : string)
    (K : gset string) (existing_data : Table) (st : State) :
  (∀ h rq, (n ≤ search_calls h)%nat → stops (search_list_execute env h rq)) →
  (n < fuel)%nat →
  nothing_new env K →
  ∃ new st',
    search_phase env cfg fuel youtube K existing_data st
      = (Return (Some existing_data), st') ∧
    extends st new st' ∧ files st' = files st ∧
    Forall (λ ev, match ev with
                  | EvSearch _ _ | EvLog _ _ | EvSleep _ => True
                  | _ => False
                  end) new.
Proof.
  intros Hstop Hfuel Hnew. unfold search_phase, logging_info.
  rewrite bind_emit. unfold search_youtube_videos.
  set (st1 := st ▷ EvLog INFO "Searching for new videos...").
  destruct (search_loop_spec youtube K fuel (mkSearchVars [] None 0) st1)
    as (out & new & st2 & Hrun & Hext & Hfiles & Hev & Hout).
  destruct (search_loop_returns youtube K n Hstop fuel (mkSearchVars [] None 0) st1)
    as (res & st2' & Hret); [lia..|].
  rewrite Hrun in Hret. injection Hret as -> ->. simpl in Hout.
  unfold new_only in Hout. rewrite (nothing_new_filtered K new Hnew Hev) in Hout. subst res.
  rewrite (bind_run _ _ _ _ _ Hrun). rewrite bind_emit.
  eexists ([_] ++ new ++ [_]), _. split; [done|]. split; [solve_extends|].
  split; [done|].
  rewrite !Forall_app. split; [by repeat constructor|]. split; [|by repeat constructor].
  eapply Forall_impl; [exact Hev|]. by intros [].
Qed.

(** Claim C9, amended. With the refresh of statistics and the backfill of
    transcripts both switched off, a run that starts up and whose search
    finds no video absent from the table returns the loaded table as it is,
    writes no file and leaves the files on disk as they were. *)
Theorem rerun_with_nothing_new_returns_loaded_table (n fuel : nat) (st : State) :
  update_existing cfg = false →
  update_transcripts cfg = false →
  startup_ok env →
  (∀ h rq, (n ≤ search_calls h)%nat → stops (search_list_execute env h rq)) →
  (n < fuel)%nat →
  nothing_new env (list_to_set (video_id <$> loaded_table cfg st)) →
  ∃ new st',
    main env cfg fuel st = (Return (Some (loaded_table cfg st)), st') ∧
    extends st new st' ∧
    files st' = files st ∧
    Forall (λ ev, match ev with EvToCsv _ _ _ => False | _ => True end) new.
Proof.
  intros Hstats Htrans Hstart Hstop Hfuel Hnew.
  destruct (main_try_startup fuel st Hstart)
    as (youtube & new1 & st1 & Hmain & Hext1 & Hfiles1 & Hev1).
  destruct (search_phase_nothing_new n fuel youtube _ (loaded_table cfg st) st1
              Hstop Hfuel Hnew)
    as (new2 & st2 & Hsearch & Hext2 & Hfiles2 & Hev2).
  exists (new1 ++ new2), st2. split.
  - unfold main. apply try_except_run. rewrite Hmain.
    unfold refresh_phase, backfill_phase. rewrite Hstats, Htrans. simpl andb.
    cbv iota. by rewrite !bind_ret.
  - split; [solve_extends|]. split; [congruence|].
    rewrite Forall_app. split; (eapply Forall_impl; [eassumption|]); by intros [].
Qed.

(** The search of the scenario: a first page with a token, a second and
    last page behind that token. *)
Lemma search_two_pages (fuel : nat) (youtube : string) (K : gset string)
    (st : State) (page1 page2 : list SearchItem) (token : string) :
  truthy (Some token) = true →
  (∀ h rq, rq_pageToken rq = None →
     search_list_execute env h rq
       = inr (mkSearchResponse (Some page1) (Some token))) →
  (∀ h rq, rq_pageToken rq = Some token →
     search_list_execute env h rq = inr (mkSearchResponse (Some page2) None)) →
  (2 ≤ fuel)%nat →
  ∃ st',
    search_youtube_videos env cfg fuel youtube K st
    = (Return (filter (λ v, id_videoId v ∉ K) page1
               ++ filter (λ v, id_videoId v ∉ K) page2), st').
Proof.
  intros Htok H1 H2 Hfuel. destruct fuel as [|[|fuel]]; [lia..|].
  unfold search_youtube_videos.
  erewrite search_loop_page by (apply H1; reflexivity). cbv zeta.
  cbn [sr_nextPageToken sr_items default]. rewrite Htok.
  erewrite search_loop_page by (apply H2; reflexivity). cbv zeta.
  cbn [sr_nextPageToken sr_items default truthy all_videos app]. eauto.
Qed.

Lemma filter_not_in_empty (K : gset string) (videos : list SearchItem) :
  K = ∅ → filter (λ v, id_videoId v ∉ K) videos = videos.
Proof.
  intros ->. induction videos as [|v vs IH]; [done|].
  rewrite filter_cons, IH. case_decide as Hn; [done|]. set_solver.
Qed.

(** Claim C8. Every record that [process_videos] assembles carries the id
    of its search entry, the url "https://www.youtube.com/watch?v=" followed
    by that id, and null view, like and comment counts when the id is not
    among the details that the videos endpoint sent. Over an empty table, a
    search of two pages of 50 and 3 entries gives a table of 53 rows, one
    per entry, in order. *)
Theorem new_records_have_watch_url_and_default_statistics :
  (∀ youtube search_results include_transcripts st records st',
     process_videos env cfg youtube search_results include_transcripts st
       = (Return records, st') →
     ∃ new,
       extends st new st' ∧
       Forall2 (λ video record,
                  video_id record = id_videoId video ∧
                  video_url record
                    = Some ("https://www.youtube.com/watch?v=" +:+ id_videoId video) ∧
                  (id_videoId video ∉ vi_id <$> concat (videos_pages new) →
                   view_count record = None ∧ like_count record = None ∧
                   comment_count record = None))
               search_results records) ∧
  (∀ fuel st page1 page2 token,
     startup_ok env →
     backup_writes_succeed env cfg →
     batch_size cfg ≠ 0 →
     (∀ h part id, handled (videos_list_execute env h part id)) →
     loaded_table cfg st = [] →
     truthy (Some token) = true →
     (∀ h rq, rq_pageToken rq = None →
        search_list_execute env h rq
          = inr (mkSearchResponse (Some page1) (Some token))) →
     (∀ h rq, rq_pageToken rq = Some token →
        search_list_execute env h rq = inr (mkSearchResponse (Some page2) None)) →
     length page1 = 50%nat → length page2 = 3%nat →
     (2 ≤ fuel)%nat →
     ∃ table st',
       main env cfg fuel st = (Return (Some table), st') ∧
       length table = 53%nat ∧
       Forall2 (λ video record,
                  video_id record = id_videoId video ∧
                  video_url record
                    = Some ("https://www.youtube.com/watch?v=" +:+ id_videoId video))
               (page1 ++ page2) table).
Proof.
  split.
  - intros youtube search_results include_transcripts st records st' Hrun.
    destruct (process_videos_spec youtube search_results include_transcripts st)
      as (out & new & st'' & Hrun' & Hext & Hout).
    rewrite Hrun in Hrun'. injection Hrun' as <- <-.
    exists new. split; [done|].
    eapply Forall2_impl; [exact Hout|].
    intros video record (Hid & Hurl & Hstats). split; [done|]. split; [done|].
    intros Hnone. apply Hstats. by apply details_by_id_None.
  - intros fuel st page1 page2 token Hstart Hbackup Hb Hh Hempty Htok H1 H2 Hl1 Hl2 Hfuel.
    destruct (main_try_startup fuel st Hstart)
      as (youtube & new1 & st1 & Hmain & _).
    rewrite Hempty in Hmain.
    destruct (search_two_pages fuel youtube ∅ (st1 ▷ EvLog INFO "Searching for new videos...")
                page1 page2 token Htok H1 H2 Hfuel) as (st2 & Hsearch).
    rewrite !(filter_not_in_empty ∅) in Hsearch by done.
    assert (∃ v vs, page1 ++ page2 = v :: vs) as (v & vs & Hcons).
    { destruct page1; [done|]. by eexists _, _. }
    set (st3 := st2 ▷ EvLog INFO ("Processing " +:+ pretty (length (page1 ++ page2))
                                  +:+ " new videos...")).
    destruct (process_videos_returns youtube (page1 ++ page2) (fetch_transcripts cfg)
                st3 Hb Hh) as (records & new3 & st4 & Hproc & _ & Hall).
    assert (length records = 53%nat) as Hlen.
    { apply Forall2_length in Hall. rewrite <- Hall, length_app. lia. }
    destruct (save_data_returns ([] ++ records) st4 Hbackup)
      as (new4 & st5 & Hsave & _).
    eexists records, _. split.
    + unfold main. apply try_except_run. rewrite Hmain.
      unfold refresh_phase. cbn [df_empty negb]. rewrite andb_false_r, bind_ret.
      unfold backfill_phase. cbn [df_empty negb]. rewrite andb_false_r, bind_ret.
      unfold search_phase, logging_info. rewrite bind_emit.
      change (list_to_set (video_id <$> [])) with (∅ : gset string).
      rewrite (bind_run _ _ _ _ _ Hsearch). rewrite Hcons, <- Hcons.
      rewrite bind_emit. fold st3. rewrite (bind_run _ _ _ _ _ Hproc).
      destruct records as [|r rs]; [simpl in Hlen; lia|].
      rewrite (bind_run _ _ _ _ _ Hsave). rewrite bind_emit. reflexivity.
    + split; [done|].
      eapply Forall2_impl; [exact Hall|]. by intros video record (? & ? & _).
Qed.

(** Claim C2. The transcript fetcher always returns: when the transcript
    request raises, whatever the exception, it returns the pair
    ("Video Error", "unknown"); when the request succeeds and language
    detection raises, it returns the caption segments joined by single
    spaces, paired with "unknown". *)
Theorem transcript_failures_become_sentinels (video_id : string) (st : State) :
  (∃ r st', get_transcript_and_language env video_id st = (Return r, st')) ∧
  (∀ e, get_transcript env (trace st) video_id = inl e →
     (get_transcript_and_language env video_id st).1
       = Return ("Video Error", "unknown")) ∧
  (∀ segments e, video_id ≠ "" →
     get_transcript env (trace st) video_id = inr segments →
     detect_language env (trace (st ▷ EvTranscript video_id (inr segments)))
                     (join " " (seg_text <$> segments)) = inl e →
     (get_transcript_and_language env video_id st).1
       = Return (join " " (seg_text <$> segments), "unknown")).
Proof.
  destruct (decide (video_id = "")) as [->|Hne].
  { split; [by eexists _, _|]. split; [done|]. by intros ? ? ?. }
  rewrite (get_transcript_and_language_run _ _ Hne).
  split; [|split].
  - destruct (get_transcript env (trace st) video_id); simpl; eauto.
  - by intros e ->.
  - intros segments e _ -> Hd. cbv zeta. by rewrite Hd.
Qed.

(** Claim C10. For the empty video id the transcript fetcher returns
    ("Video Error", "unknown") at once: the state is the one it started
    from, so no transcript was requested and no language detected. *)
Theorem empty_video_id_is_answered_without_request (st : State) :
  get_transcript_and_language env "" st = (Return ("Video Error", "unknown"), st) ∧
  transcript_requests (trace (get_transcript_and_language env "" st).2)
    = transcript_requests (trace st).
Proof. by split. Qed.

(** Claim C5, amended. [save_data] writes the table to the given path. When
    that write raises, it writes the table to the backup path, the given
    path followed by ".backup.", the clock in whole seconds and ".csv": if
    the backup write succeeds, [save_data] returns and the table is stored
    under the backup path, the given path left as it was; if the backup
    write raises as well, that exception reaches the caller. [save_data]
    raises in no other case. *)
Theorem save_data_falls_back_once (df : Table) (csv_file : string) (st : State) :
  (to_csv env (trace st) csv_file df = None →
   ∃ st', save_data env df csv_file st = (Return tt, st') ∧
          files st' = <[csv_file := df]> (files st)) ∧
  (∀ e, to_csv env (trace st) csv_file df = Some e →
     let st1 := st ▷ EvToCsv csv_file df (Some e)
                   ▷ EvLog ERROR ("Failed to save data: " +:+ exn_str e) in
     let t := time_time env (trace st1) in
     let backup_file := csv_file +:+ ".backup." +:+ pretty t +:+ ".csv" in
     let st2 := st1 ▷ EvTime t in
     (to_csv env (trace st2) backup_file df = None →
      ∃ st', save_data env df csv_file st = (Return tt, st') ∧
             files st' = <[backup_file := df]> (files st) ∧
             files st' !! csv_file = files st !! csv_file) ∧
     (∀ e', to_csv env (trace st2) backup_file df = Some e' →
        save_data env df csv_file st
          = (Raise e', st2 ▷ EvToCsv backup_file df (Some e')))).
Proof.
  rewrite save_data_run. split.
  - intros ->. by eexists.
  - intros e ->. cbv zeta. fold (backup_file_name csv_file
      (time_time env (trace (st ▷ EvToCsv csv_file df (Some e)
         ▷ EvLog ERROR ("Failed to save data: " +:+ exn_str e))))).
    split.
    + intros ->. eexists. split; [done|]. split; [done|].
      simpl. apply lookup_insert_ne, backup_file_name_ne.
    + by intros e' ->.
Qed.

End Properties.

(** * Further properties of the script *)

Section More.
Context (env : Env) (cfg : Config).

(** ** Start-up *)

(** Property X1.
    Without an API key (unset or empty) [main] returns [None]: the key is
    looked up, three errors are logged (by [get_api_key], by
    [initialize_youtube_client] and by [main]), and nothing else happens:
    no client is built, no directory made, no request sent, no file
    written. *)
Theorem main_without_api_key_returns_none (fuel : nat) (st : State) :
  truthy (os_getenv env (trace st) "YOUTUBE_API_KEY") = false →
  main env cfg fuel st
  = (Return None,
     st ▷ EvGetenv "YOUTUBE_API_KEY" (os_getenv env (trace st) "YOUTUBE_API_KEY")
        ▷ EvLog ERROR "API key not found. Please set YOUTUBE_API_KEY in your .env file."
        ▷ EvLog ERROR "Failed to initialize YouTube client: Missing API key"
        ▷ EvLog ERROR "An error occurred in the main process: Missing API key").
Proof.
  intros Hkey.
  assert (initialize_youtube_client env st
          = (Raise (Exception "Missing API key"),
             st ▷ EvGetenv "YOUTUBE_API_KEY" (os_getenv env (trace st) "YOUTUBE_API_KEY")
                ▷ EvLog ERROR "API key not found. Please set YOUTUBE_API_KEY in your .env file."
                ▷ EvLog ERROR "Failed to initialize YouTube client: Missing API key"))
    as Hinit.
  { unfold initialize_youtube_client, get_api_key, getenv, try_except.
    rewrite bind_assoc. unfold bind at 1. rewrite Hkey. reflexivity. }
  unfold main, main_try, try_except. unfold bind at 1. rewrite Hinit. reflexivity.
Qed.

(** ** Statistics fetcher: edges *)

(** Property X3.
    No request is sent for an empty list of ids, whatever the batch size;
    for a non-empty list, a batch size of zero raises the [ValueError] of
    [range] before any request, and a negative batch size returns no
    details without any request. *)
Theorem fetch_video_details_without_batches
    (youtube : string) (video_ids : list string) (st : State) :
  fetch_video_details env cfg youtube [] st = (Return [], st) ∧
  (video_ids ≠ [] → batch_size cfg = 0 →
   fetch_video_details env cfg youtube video_ids st
   = (Raise (Exception "range() arg 3 must not be zero"), st)) ∧
  (video_ids ≠ [] → batch_size cfg < 0 →
   fetch_video_details env cfg youtube video_ids st = (Return [], st)).
Proof.
  split; [done|]. split.
  - intros Hne Hb. destruct video_ids as [|v ids]; [done|].
    unfold fetch_video_details, py_range. by rewrite Hb.
  - intros Hne Hb. destruct video_ids as [|v ids]; [done|].
    unfold fetch_video_details, py_range.
    destruct (batch_size cfg =? 0) eqn:Hz; [lia|]. rewrite bind_ret.
    destruct (Z.to_nat (Z.abs (len (v :: ids) - 0))) as [|fuel] eqn:Hfuel.
    { unfold len in Hfuel. simpl length in Hfuel. lia. }
    simpl range_from. destruct (0 <? batch_size cfg) eqn:Hpos; [lia|].
    destruct (len (v :: ids) <? 0) eqn:Hlen;
      [apply Z.ltb_lt in Hlen; unfold len in Hlen; lia|]. done.
Qed.

(** ** Statistics fetcher: what it asks and what it returns *)

(** Property X4.
    Whatever the videos endpoint answers, the fetcher asks for the batches
    (consecutive slices of the ids, of one up to [batch_size] ids each) in
    order, each at most once (a batch that failed is not asked again), and
    stops at some batch; it touches no file; when it returns, it returns
    the items of the responses that came back, in order, and nothing else;
    it never raises an [HttpError]. *)
Theorem fetch_video_details_asks_each_batch_once
    (youtube : string) (video_ids : list string) (st : State) :
  video_ids ≠ [] →
  0 < batch_size cfg →
  ∃ out new st' (batches : list (list string)) (j : nat),
    fetch_video_details env cfg youtube video_ids st = (out, st') ∧
    extends st new st' ∧
    files st' = files st ∧
    concat batches = video_ids ∧
    Forall (λ b, 0 < len b ≤ batch_size cfg) batches ∧
    videos_requests new = join "," <$> take j batches ∧
    match out with
    | Return res => res = concat (videos_pages new)
    | Raise (Exception _) => True
    | _ => False
    end.
Proof.
  intros Hne Hb. rewrite (fetch_video_details_unfold env cfg) by (done || lia).
  destruct (batches_of_range cfg video_ids Hb) as (Hids & Hcat & Hsize & _).
  set (indices := range_from _ _ _ _) in *.
  destruct (fetch_batches_spec env cfg youtube video_ids indices [] st)
    as (out & new & st' & j & Hrun & Hext & Hfiles & _ & Hrq & Hout).
  eexists out, new, st', _, j. split; [done|]. split; [done|]. split; [done|].
  split; [exact Hcat|]. split; [exact Hsize|]. split; [|done].
  by rewrite Hrq, <- fmap_take, <- list_fmap_compose.
Qed.

(** As long as the first [k] answers let the loop go on and the next one
    raises an exception that is not an [HttpError], the loop raises that
    exception after [k + 1] requests: the [except HttpError] clause does not
    catch it, and what the earlier batches brought is lost. *)
Lemma fetch_batches_until_exception (youtube : string) (video_ids : list string)
    (indices : list Z) (s : string) :
  ∀ (k : nat) (results : list VideoItem) (st : State),
    (k < length indices)%nat →
    (∀ h part id, (videos_calls h < videos_calls (trace st) + k)%nat →
                  goes_on (videos_list_execute env h part id)) →
    (∀ h part id, videos_calls h = (videos_calls (trace st) + k)%nat →
                  videos_list_execute env h part id = inl (Exception s)) →
    ∃ new st',
      fetch_batches env cfg youtube video_ids indices results st
        = (Raise (Exception s), st') ∧
      extends st new st' ∧
      videos_requests new = batch_id cfg video_ids <$> take (S k) indices.
Proof.
  induction indices as [|i rest IH]; intros k results st Hk Hgo Hexn;
    [simpl in Hk; lia|].
  rewrite fetch_batches_cons. cbv zeta.
  set (id := batch_id cfg video_ids i).
  destruct k as [|k].
  - rewrite (Hexn (trace st) "snippet,statistics" id) by lia.
    eexists [_], _. split; [done|]. split; [solve_extends|]. simpl. by rewrite ?take_0.
  - pose proof (Hgo (trace st) "snippet,statistics" id) as Hg.
    assert (∀ st2, videos_calls (trace st2) = S (videos_calls (trace st)) →
      ∀ results2, ∃ new st',
        fetch_batches env cfg youtube video_ids rest results2 st2
          = (Raise (Exception s), st') ∧
        extends st2 new st' ∧
        videos_requests new = batch_id cfg video_ids <$> take (S k) rest) as Hrest.
    { intros st2 Hst2 results2. apply IH.
      - simpl in Hk. lia.
      - intros h part id' Hh. apply Hgo. lia.
      - intros h part id' Hh. apply Hexn. lia. }
    destruct (videos_list_execute env (trace st) "snippet,statistics" id)
      as [[status s'|s']|response].
    + destruct (status =? 403) eqn:Hs; [exfalso; apply Hg; lia|].
      edestruct (Hrest (st ▷ EvVideos "snippet,statistics" id (inl (HttpError status s'))
                           ▷ EvLog ERROR ("Error fetching video details: " +:+ s')))
        as (new & st' & -> & Hext & Hrq).
      { rewrite !trace_record, !videos_calls_app. unfold videos_calls. simpl. lia. }
      eexists (_ :: _ :: new), _. split; [done|]. split; [solve_extends|].
      simpl. by rewrite Hrq.
    + exfalso. apply Hg. lia.
    + destruct (i + batch_size cfg <? len video_ids).
      * edestruct (Hrest (st ▷ EvVideos "snippet,statistics" id (inr response)
                             ▷ EvSleep 1))
          as (new & st' & -> & Hext & Hrq).
        { rewrite !trace_record, !videos_calls_app. unfold videos_calls. simpl. lia. }
        eexists (_ :: _ :: new), _. split; [done|]. split; [solve_extends|].
        simpl. by rewrite Hrq.
      * edestruct (Hrest (st ▷ EvVideos "snippet,statistics" id (inr response)))
          as (new & st' & -> & Hext & Hrq).
        { rewrite !trace_record, !videos_calls_app. unfold videos_calls. simpl. lia. }
        eexists (_ :: new), _. split; [done|]. split; [solve_extends|].
        simpl. by rewrite Hrq.
Qed.

(** Property X5.
    If the [k+1]-th batch request is the first to raise something that is
    not an [HttpError] (a network error, say), [fetch_video_details] raises
    it: only [HttpError] is caught. It has sent [k + 1] requests, and the
    details of the batches before are not returned. *)
Theorem fetch_video_details_lets_other_exceptions_through
    (youtube : string) (video_ids : list string) (k : nat) (s : string)
    (st : State) :
  0 < batch_size cfg →
  Z.of_nat k < ceil_div (len video_ids) (batch_size cfg) →
  (∀ h part id, (videos_calls h < videos_calls (trace st) + k)%nat →
                goes_on (videos_list_execute env h part id)) →
  (∀ h part id, videos_calls h = (videos_calls (trace st) + k)%nat →
                videos_list_execute env h part id = inl (Exception s)) →
  ∃ new st',
    fetch_video_details env cfg youtube video_ids st = (Raise (Exception s), st') ∧
    extends st new st' ∧
    videos_calls new = S k.
Proof.
  intros Hb Hk Hgo Hexn.
  assert (video_ids ≠ []) as Hne.
  { intros ->. unfold ceil_div, len in Hk. simpl in Hk.
    rewrite Z.div_small in Hk by lia. lia. }
  rewrite (fetch_video_details_unfold env cfg) by (done || lia).
  destruct (batches_of_range cfg video_ids Hb) as (_ & _ & _ & Hcount).
  set (indices := range_from _ _ _ _) in *.
  assert (S k ≤ length indices)%nat as Hlt.
  { destruct (0 <? len video_ids) eqn:Hpos;
      [|apply Z.ltb_ge in Hpos; destruct video_ids; [done|];
        unfold len in Hpos; simpl length in Hpos; lia].
    unfold len in Hcount, Hk. rewrite length_fmap in Hcount. lia. }
  destruct (fetch_batches_until_exception youtube video_ids indices s k [] st)
    as (new & st' & Hrun & Hext & Hrq); [lia|done|done|].
  exists new, st'. split; [done|]. split; [done|].
  unfold videos_calls. rewrite Hrq, length_fmap, length_take. lia.
Qed.

(** ** Statistics fetcher: the pause between batches *)

Lemma sleeps_app (a b : list Event) : sleeps (a ++ b) = sleeps a ++ sleeps b.
Proof. apply omap_app. Qed.

(** When every request is answered with a response, the loop sleeps one
    second after each batch that is not the last one. *)
Lemma fetch_batches_sleeps (youtube : string) (video_ids : list string)
    (indices : list Z) :
  (∀ h part id, ∃ response, videos_list_execute env h part id = inr response) →
  ∀ (results : list VideoItem) (st : State),
  ∃ res new st',
    fetch_batches env cfg youtube video_ids indices results st = (Return res, st') ∧
    extends st new st' ∧
    sleeps new
    = (λ _, 1) <$> filter (λ i, i + batch_size cfg < len video_ids) indices.
Proof.
  intros Hok. induction indices as [|i rest IH]; intros results st.
  { exists results, [], st. split; [done|]. split; [apply extends_refl|]. done. }
  rewrite fetch_batches_cons. cbv zeta.
  destruct (Hok (trace st) "snippet,statistics" (batch_id cfg video_ids i))
    as [response ->].
  rewrite filter_cons.
  destruct (i + batch_size cfg <? len video_ids) eqn:Hlast.
  - apply Z.ltb_lt in Hlast. rewrite decide_True by done.
    edestruct IH as (res & new & st' & -> & Hext & Hs).
    eexists _, (_ :: _ :: new), _. split; [done|]. split; [solve_extends|].
    change (sleeps (?a :: EvSleep 1 :: new)) with (1 :: sleeps new).
    by rewrite Hs.
  - apply Z.ltb_ge in Hlast. rewrite decide_False by lia.
    edestruct IH as (res & new & st' & -> & Hext & Hs).
    eexists _, (_ :: new), _. split; [done|]. split; [solve_extends|].
    exact Hs.
Qed.

Lemma range_from_not_last (step stop : Z) (fuel : nat) :
  0 < step → ∀ i, (Z.to_nat (stop - i) ≤ fuel)%nat →
  length (filter (λ j, j + step < stop) (range_from fuel i stop step))
  = pred (length (range_from fuel i stop step)).
Proof.
  intros Hstep. induction fuel as [|fuel IH]; intros i Hfuel; simpl; [done|].
  destruct (0 <? step) eqn:Hs; [|lia].
  destruct (i <? stop) eqn:Hi; [|done].
  rewrite filter_cons. specialize (IH (i + step) ltac:(lia)).
  pose proof (range_from_length step stop fuel Hstep (i + step) ltac:(lia)) as Hlen.
  destruct (decide (i + step < stop)) as [Hnext|Hnext]; simpl.
  - rewrite IH. destruct (i + step <? stop) eqn:Hn; [|lia].
    pose proof (ceil_div_spec (stop - (i + step)) step Hstep). nia.
  - rewrite IH. destruct (i + step <? stop) eqn:Hn; [lia|].
    destruct (range_from fuel (i + step) stop step); [done|simpl in Hlen; lia].
Qed.

(** Property X6.
    With every request answered, [fetch_video_details] sleeps one second
    between two batches and not after the last one: one sleep less than
    there are batches. *)
Theorem fetch_video_details_sleeps_between_batches
    (youtube : string) (video_ids : list string) (st : State) :
  video_ids ≠ [] →
  0 < batch_size cfg →
  (∀ h part id, ∃ response, videos_list_execute env h part id = inr response) →
  ∃ res new st',
    fetch_video_details env cfg youtube video_ids st = (Return res, st') ∧
    extends st new st' ∧
    sleeps new
    = replicate (Z.to_nat (ceil_div (len video_ids) (batch_size cfg)) - 1) 1.
Proof.
  intros Hne Hb Hok. rewrite (fetch_video_details_unfold env cfg) by (done || lia).
  destruct (batches_of_range cfg video_ids Hb) as (_ & _ & _ & Hcount).
  set (indices := range_from _ _ _ _) in *.
  destruct (fetch_batches_sleeps youtube video_ids indices Hok [] st)
    as (res & new & st' & Hrun & Hext & Hs).
  exists res, new, st'. split; [done|]. split; [done|].
  rewrite Hs. clear Hs Hrun Hext.
  assert (length (filter (λ i, i + batch_size cfg < len video_ids) indices)
          = (Z.to_nat (ceil_div (len video_ids) (batch_size cfg)) - 1)%nat)
    as <-.
  { unfold indices. rewrite range_from_not_last by (unfold len; lia).
    fold indices.
    destruct (0 <? len video_ids) eqn:Hpos;
      [|apply Z.ltb_ge in Hpos; destruct video_ids; [done|];
        unfold len in Hpos; simpl length in Hpos; lia].
    unfold len in Hcount at 1. rewrite length_fmap in Hcount. lia. }
  generalize (filter (λ i, i + batch_size cfg < len video_ids) indices).
  intros l. induction l as [|x l IH]; [done|]. simpl. f_equal. exact IH.
Qed.

(** ** Search paginator *)

(** Property X7.
    Whatever the search endpoint answers or raises, the paginator never
    raises: it returns or is still running. It does nothing but search,
    log and sleep, and leaves the files alone. *)
Theorem search_youtube_videos_never_raises
    (fuel : nat) (youtube : string) (K : gset string) (st : State) :
  ∃ out new st',
    search_youtube_videos env cfg fuel youtube K st = (out, st') ∧
    extends st new st' ∧
    files st' = files st ∧
    Forall (λ ev, match ev with
                  | EvSearch _ _ | EvLog _ _ | EvSleep _ => True
                  | _ => False
                  end) new ∧
    match out with
    | Raise _ => False
    | _ => True
    end.
Proof.
  destruct (search_loop_spec env cfg youtube K fuel (mkSearchVars [] None 0) st)
    as (out & new & st' & Hrun & Hext & Hfiles & Hev & Hout).
  exists out, new, st'. split; [done|]. split; [done|]. split; [done|]. split.
  - eapply Forall_impl; [exact Hev|]. by intros [].
  - by destruct out.
Qed.



Lemma search_loop_retries_for_ever (youtube : string) (K : gset string) :
  (∀ h rq, retried (search_list_execute env h rq)) →
  ∀ (fuel : nat) (vars : SearchVars) (st : State),
  ∃ new st',
    search_loop env cfg fuel youtube K vars st = (OutOfFuel, st') ∧
    extends st new st' ∧
    search_requests new = replicate fuel (search_request cfg (next_page_token vars)) ∧
    sleeps new = replicate fuel 10.
Proof.
  intros Hretry. induction fuel as [|fuel IH]; intros vars st.
  { exists [], st. split; [done|]. split; [apply extends_refl|]. done. }
  simpl search_loop. unfold bind at 1. unfold try_except, bind, search_execute.
  pose proof (Hretry (trace st) (search_request cfg (next_page_token vars))) as Hr.
  destruct (search_list_execute env (trace st) _) as [e|response]; [|done]. simpl.
  destruct e as [status s|s]; [destruct (status =? 403) eqn:Hq; [simpl in Hr; lia|]|];
    simpl.
  - edestruct IH as (new & st' & -> & Hext & Hrq & Hs).
    eexists (_ :: _ :: _ :: new), _. split; [done|]. split; [solve_extends|].
    split; [exact (f_equal (cons _) Hrq)|exact (f_equal (cons _) Hs)].
  - edestruct IH as (new & st' & -> & Hext & Hrq & Hs).
    eexists (_ :: _ :: _ :: new), _. split; [done|]. split; [solve_extends|].
    split; [exact (f_equal (cons _) Hrq)|exact (f_equal (cons _) Hs)].
Qed.

(** Property X9.
    There is no cap on retries: if the search endpoint answers every
    request with an error other than the quota one, then however many turns
    the loop is given, it is still running after them, having asked for the
    first page that many times and slept ten seconds after each failure. *)
Theorem search_youtube_videos_retries_without_bound
    (youtube : string) (K : gset string) (fuel : nat) (st : State) :
  (∀ h rq, retried (search_list_execute env h rq)) →
  ∃ new st',
    search_youtube_videos env cfg fuel youtube K st = (OutOfFuel, st') ∧
    extends st new st' ∧
    search_requests new = replicate fuel (search_request cfg None) ∧
    sleeps new = replicate fuel 10.
Proof.
  intros Hretry.
  apply (search_loop_retries_for_ever youtube K Hretry fuel (mkSearchVars [] None 0) st).
Qed.

(** ** Kinds of events *)

Lemma only_app (ks : list Kind) (a b : list Event) :
  only ks (a ++ b) ↔ only ks a ∧ only ks b.
Proof. apply Forall_app. Qed.

Lemma only_nil (ks : list Kind) : only ks [].
Proof. constructor. Qed.

Lemma only_mono (ks ks' : list Kind) (tr : list Event) :
  ks ⊆ ks' → only ks tr → only ks' tr.
Proof.
  intros Hsub H. eapply Forall_impl; [exact H|]. intros ev. apply Hsub.
Qed.

Lemma only_no_writes (ks : list Kind) (tr : list Event) (path : string) :
  KWrite ∉ ks → only ks tr → writes_to path tr = [].
Proof.
  intros Hk. induction 1 as [|ev tr Hev _ IH]; [done|].
  destruct ev; try exact IH. done.
Qed.

Lemma only_no_search (ks : list Kind) (tr : list Event) :
  KSearch ∉ ks → only ks tr → search_requests tr = [] ∧ search_pages tr = [].
Proof.
  intros Hk. induction 1 as [|ev tr Hev _ IH]; [done|].
  destruct ev; try exact IH. done.
Qed.

Lemma only_no_videos (ks : list Kind) (tr : list Event) :
  KVideos ∉ ks → only ks tr → videos_requests tr = [] ∧ videos_pages tr = [].
Proof.
  intros Hk. induction 1 as [|ev tr Hev _ IH]; [done|].
  destruct ev; try exact IH. done.
Qed.

Lemma only_no_transcripts (ks : list Kind) (tr : list Event) :
  KTranscript ∉ ks → only ks tr → transcript_requests tr = [].
Proof.
  intros Hk. induction 1 as [|ev tr Hev _ IH]; [done|].
  destruct ev; try exact IH; done.
Qed.

Lemma only_no_sleeps (ks : list Kind) (tr : list Event) :
  KSleep ∉ ks → only ks tr → sleeps tr = [].
Proof.
  intros Hk. induction 1 as [|ev tr Hev _ IH]; [done|].
  destruct ev; try exact IH. done.
Qed.

Ltac solve_kinds :=
  match goal with
  | |- _ ∉ _ => apply (bool_decide_unpack _); reflexivity
  | |- _ ∈ _ => apply (bool_decide_unpack _); reflexivity
  | |- _ ⊆ _ => apply (bool_decide_unpack _); reflexivity
  end.

(** ** Assembling records *)

(** The dictionary built from the details keeps, for each id, the last item
    with that id. *)
Lemma details_by_id_last (details : list VideoItem) (k : string) :
  details_by_id details !! k = last (filter (λ d, vi_id d = k) details).
Proof.
  unfold details_by_id.
  assert (∀ m : gmap string VideoItem,
    foldl (λ m v, <[vi_id v := v]> m) m details !! k
    = match last (filter (λ d, vi_id d = k) details) with
      | Some d => Some d
      | None => m !! k
      end) as Hgen.
  { induction details as [|v dv IH]; intros m; [done|].
    simpl foldl. rewrite IH, filter_cons.
    destruct (decide (vi_id v = k)) as [Hv|Hv].
    - rewrite last_cons. destruct (last (filter _ dv)); [done|].
      rewrite Hv. apply lookup_insert_eq.
    - destruct (last (filter _ dv)); [done|]. by apply lookup_insert_ne. }
  rewrite Hgen, lookup_empty. by destruct (last _).
Qed.

Lemma statistics_of_latest (details : list VideoItem) (id : string) :
  statistics_of (details_by_id details) id = latest_statistics details id.
Proof. unfold statistics_of, latest_statistics. by rewrite details_by_id_last. Qed.

Lemma build_records_full (details : list VideoItem) (include_transcripts : bool)
    (total : nat) (search_results : list SearchItem) :
  ∀ (i : nat) (records : Table) (st : State),
  ∃ out new st',
    build_records env (details_by_id details) include_transcripts total i
                  search_results records st
      = (Return (records ++ out), st') ∧
    extends st new st' ∧
    files st' = files st ∧
    only [KTranscript; KLog; KSleep] new ∧
    transcript_requests new
      = (if include_transcripts
         then filter (λ v, v ≠ "") (id_videoId <$> search_results) else []) ∧
    Forall2 (made details include_transcripts) search_results out.
Proof.
  induction search_results as [|video rest IH]; intros i records st.
  { exists [], [], st. rewrite app_nil_r. split; [done|].
    split; [apply extends_refl|]. split; [done|]. split; [apply only_nil|].
    split; [by destruct include_transcripts|constructor]. }
  simpl build_records. rewrite statistics_of_latest.
  set (record := mkRow _ _ _ _ _ _ _ _ _ _ _).
  destruct include_transcripts.
  - unfold logging_info, time_sleep. rewrite bind_assoc, bind_emit. cbv beta.
    rewrite bind_assoc.
    match goal with |- ∃ _ _ _, bind (get_transcript_and_language env ?v) _ ?s = _ ∧ _ =>
      destruct (get_transcript_and_language_returns env v s)
        as ([t l] & new1 & st1 & Hget & Hext1 & Hf1 & Hrq1 & Hq1)
    end.
    rewrite (bind_run _ _ _ _ _ Hget). cbv beta iota.
    rewrite bind_assoc, bind_emit. cbv beta. rewrite bind_ret.
    edestruct IH as (out & new2 & st' & -> & Hext2 & Hf2 & Hk2 & Hrq2 & Hall).
    eexists (_ :: out), ([_] ++ new1 ++ [_] ++ new2), st'.
    split; [by rewrite <- app_assoc|]. split; [solve_extends|].
    split; [by rewrite Hf2, files_record, Hf1|].
    split; [|split].
    + rewrite !only_app. split; [repeat constructor; solve_kinds|].
      split; [|split; [repeat constructor; solve_kinds|done]].
      eapply Forall_impl; [exact Hq1|]. intros [] ?; try done; solve_kinds.
    + rewrite !transcript_requests_app, Hrq1, Hrq2. simpl. rewrite filter_cons.
      destruct (decide (id_videoId video = "")); case_decide; simpl; done || congruence.
    + constructor; [|done]. unfold made, record. simpl. repeat split. eauto.
  - rewrite bind_ret.
    edestruct IH as (out & new2 & st' & -> & Hext2 & Hf2 & Hk2 & Hrq2 & Hall).
    eexists (_ :: out), new2, st'.
    split; [by rewrite <- app_assoc|]. split; [done|]. split; [done|].
    split; [done|]. split; [done|]. constructor; [|done].
    unfold made, record. simpl. by repeat split.
Qed.

Lemma fetch_video_details_full (youtube : string) (video_ids : list string)
    (st : State) :
  ∃ out new st',
    fetch_video_details env cfg youtube video_ids st = (out, st') ∧
    extends st new st' ∧
    files st' = files st ∧
    only [KVideos; KLog; KSleep] new ∧
    match out with
    | Return res => res = concat (videos_pages new)
    | Raise (Exception _) => True
    | _ => False
    end.
Proof.
  unfold fetch_video_details. destruct video_ids as [|x xs] eqn:Hids.
  { exists (Return []), [], st. split; [done|]. split; [apply extends_refl|].
    split; [done|]. split; [apply only_nil|done]. }
  rewrite <- Hids. clear Hids x xs.
  unfold py_range. destruct (batch_size cfg =? 0).
  { eexists (Raise _), [], st. split; [done|]. split; [apply extends_refl|].
    split; [done|]. split; [apply only_nil|done]. }
  rewrite bind_ret.
  match goal with |- context [fetch_batches env cfg youtube video_ids ?ind] =>
    destruct (fetch_batches_spec env cfg youtube video_ids ind [] st)
      as (out & new & st' & j & Hrun & Hext & Hfiles & Hev & _ & Hout)
  end.
  exists out, new, st'. split; [done|]. split; [done|]. split; [done|].
  split; [|done]. eapply Forall_impl; [exact Hev|].
  intros [] ?; try done; solve_kinds.
Qed.

Lemma process_videos_full (youtube : string) (search_results : list SearchItem)
    (include_transcripts : bool) (st : State) :
  ∃ out new st',
    process_videos env cfg youtube search_results include_transcripts st = (out, st') ∧
    extends st new st' ∧
    files st' = files st ∧
    only [KVideos; KTranscript; KLog; KSleep] new ∧
    match out with
    | Return records =>
        transcript_requests new
          = (if include_transcripts
             then filter (λ v, v ≠ "") (id_videoId <$> search_results) else []) ∧
        Forall2 (made (concat (videos_pages new)) include_transcripts)
                search_results records
    | Raise (Exception _) => transcript_requests new = []
    | _ => False
    end.
Proof.
  unfold process_videos. destruct search_results as [|v0 rest0] eqn:Hsr.
  { exists (Return []), [], st. split; [done|]. split; [apply extends_refl|].
    split; [done|]. split; [apply only_nil|].
    split; [by destruct include_transcripts|constructor]. }
  rewrite <- Hsr. clear Hsr v0 rest0.
  destruct (fetch_video_details_full youtube (id_videoId <$> search_results) st)
    as (out1 & new1 & st1 & Hfetch & Hext1 & Hf1 & Hk1 & Hout1).
  assert (transcript_requests new1 = []) as Hrq1
    by (eapply only_no_transcripts; [|exact Hk1]; solve_kinds).
  unfold bind at 1. rewrite Hfetch.
  destruct out1 as [detailed_videos|[status s|s]|]; try done.
  - subst detailed_videos.
    destruct (build_records_full (concat (videos_pages new1)) include_transcripts
                (length search_results) search_results O [] st1)
      as (out & new2 & st' & Hbuild & Hext2 & Hf2 & Hk2 & Hrq2 & Hall).
    assert (videos_pages new2 = []) as Hp2
      by (eapply only_no_videos; [|exact Hk2]; solve_kinds).
    exists (Return out), (new1 ++ new2), st'. split; [done|].
    split; [solve_extends|]. split; [congruence|].
    split; [|split].
    + rewrite only_app. split; eapply only_mono; try eassumption; solve_kinds.
    + by rewrite transcript_requests_app, Hrq1, Hrq2.
    + by rewrite videos_pages_app, Hp2, app_nil_r.
  - eexists (Raise _), new1, st1. split; [done|]. split; [done|]. split; [done|].
    split; [|done]. eapply only_mono; [|eassumption]. solve_kinds.
Qed.

(** Property X10.
    Each record that [process_videos] returns is made from the search entry
    at the same position: id, title, description and publication time are
    copied from it, the region is the entry's region code or the empty
    string, the url is the watch url of the id, and the three counters are
    those of the last details item with that id (null without one). Without
    transcripts the two transcript cells are empty strings. *)
Theorem process_videos_makes_one_record_per_entry
    (youtube : string) (search_results : list SearchItem)
    (include_transcripts : bool) (st : State) (records : Table) (st' : State) :
  process_videos env cfg youtube search_results include_transcripts st
    = (Return records, st') →
  ∃ new,
    extends st new st' ∧
    length records = length search_results ∧
    Forall2 (made (concat (videos_pages new)) include_transcripts)
            search_results records.
Proof.
  intros Hrun.
  destruct (process_videos_full youtube search_results include_transcripts st)
    as (out & new & st'' & Hrun' & Hext & _ & _ & Hout).
  rewrite Hrun in Hrun'. injection Hrun' as <- <-. destruct Hout as [_ Hall].
  exists new. split; [done|]. split; [|done]. symmetry. by eapply Forall2_length.
Qed.

(** Property X11.
    [process_videos] writes no file and sends no search request. When it
    returns with transcripts switched on, it has asked for the transcript
    of each entry that has an id, once, in the order of the entries; with
    transcripts switched off it has asked for none. When the statistics
    fetch raises, it raises (never an [HttpError]) before any transcript is
    asked for. *)
Theorem process_videos_asks_one_transcript_per_entry
    (youtube : string) (search_results : list SearchItem)
    (include_transcripts : bool) (st : State) :
  ∃ out new st',
    process_videos env cfg youtube search_results include_transcripts st = (out, st') ∧
    extends st new st' ∧
    files st' = files st ∧
    (∀ path, writes_to path new = []) ∧
    search_requests new = [] ∧
    match out with
    | Return records =>
        transcript_requests new
          = (if include_transcripts
             then filter (λ v, v ≠ "") (id_videoId <$> search_results) else [])
    | Raise (Exception _) => transcript_requests new = []
    | _ => False
    end.
Proof.
  destruct (process_videos_full youtube search_results include_transcripts st)
    as (out & new & st' & Hrun & Hext & Hfiles & Hk & Hout).
  exists out, new, st'. split; [done|]. split; [done|]. split; [done|].
  split; [intros path; eapply only_no_writes; [|eassumption]; solve_kinds|].
  split; [eapply only_no_search; [|eassumption]; solve_kinds|].
  destruct out as [records|[]|]; try done. by destruct Hout.
Qed.

(** ** Refreshing the statistics of existing rows *)

(** The loop over [iterrows] is a map: the row at each index is visited
    once, and the assignment at that index changes that row only. *)
Lemma refresh_rows_map (details : list VideoItem) (rows : list Row) :
  ∀ (done : list Row) (n : nat),
  ∃ n',
    foldl (refresh_row (details_by_id details)) (done ++ rows, n)
          (imap (λ i r, ((length done + i)%nat, r)) rows)
    = (done ++ (refreshed details <$> rows), n').
Proof.
  induction rows as [|r rows IH]; intros done n; [by exists n|].
  assert (∃ n1, refresh_row (details_by_id details) (done ++ r :: rows, n)
                            ((length done + 0)%nat, r)
                = (done ++ refreshed details r :: rows, n1)) as [n1 H1].
  { unfold refresh_row, refreshed. rewrite details_by_id_last.
    destruct (last (filter _ details)) as [d|]; [|by eexists].
    eexists. by rewrite !alter_app_r. }
  destruct (IH (done ++ [refreshed details r]) n1) as [n' Hn'].
  exists n'. rewrite <- !app_assoc in Hn'. etransitivity; [|exact Hn'].
  transitivity (foldl (refresh_row (details_by_id details))
                  (done ++ refreshed details r :: rows, n1)
                  (imap (λ i r0, ((length done + S i)%nat, r0)) rows)).
  { rewrite <- H1. reflexivity. }
  f_equal. apply imap_ext. intros i x _. rewrite length_app. simpl.
  f_equal. lia.
Qed.

Lemma update_existing_stats_full (youtube : string) (df : Table) (st : State) :
  ∃ out new st',
    update_existing_stats env cfg youtube df st = (out, st') ∧
    extends st new st' ∧
    files st' = files st ∧
    only [KVideos; KLog; KSleep] new ∧
    (df = [] → new = []) ∧
    match out with
    | Return df' => df' = refreshed (concat (videos_pages new)) <$> df
    | Raise (Exception _) => True
    | _ => False
    end.
Proof.
  unfold update_existing_stats. destruct (df_empty df) eqn:Hempty.
  { destruct df; [|done]. exists (Return []), [], st. split; [done|].
    split; [apply extends_refl|]. split; [done|]. split; [apply only_nil|]. done. }
  assert (df ≠ []) as Hdf by (by intros ->).
  unfold logging_info. rewrite bind_emit.
  match goal with |- context [fetch_video_details env cfg youtube ?ids] =>
    destruct (fetch_video_details_full youtube ids
                (st ▷ EvLog INFO ("Updating statistics for " +:+ pretty (length ids)
                                  +:+ " existing videos...")))
      as (out1 & new1 & st1 & Hfetch & Hext1 & Hf1 & Hk1 & Hout1)
  end.
  unfold bind at 1. rewrite Hfetch.
  destruct out1 as [detailed_videos|[status s|s]|]; try done.
  - subst detailed_videos.
    destruct (refresh_rows_map (concat (videos_pages new1)) df [] O) as [n' Hfold].
    change (imap (λ i r, ((length (@nil Row) + i)%nat, r)) df) with (iterrows df) in Hfold.
    simpl app in Hfold. rewrite Hfold. rewrite bind_emit.
    eexists (Return _), ([_] ++ new1 ++ [_]), _. split; [done|].
    split; [solve_extends|]. split; [done|]. split; [|split].
    + rewrite !only_app. split; [repeat constructor; solve_kinds|].
      split; [done|repeat constructor; solve_kinds].
    + done.
    + rewrite !videos_pages_app.
      change (videos_pages [EvLog _ _]) with (@nil (list VideoItem)).
      by rewrite app_nil_r.
  - eexists (Raise _), ([_] ++ new1), _. split; [done|]. split; [solve_extends|].
    split; [done|]. split; [|done].
    rewrite only_app. split; [repeat constructor; solve_kinds|done].
Qed.

(** Property X12.
    [update_existing_stats] sends videos requests only: it writes no file
    and asks for no transcript, and for an empty table it does nothing at
    all. When it returns, the table has the same rows in the same order;
    each row keeps its id and its seven other cells that are not counters;
    a row whose id is not among the details that came back is unchanged;
    a row whose id is among them gets the three counters of the last such
    item, each of them null when that item does not have it. *)
Theorem update_existing_stats_changes_counters_only
    (youtube : string) (df : Table) (st : State) :
  ∃ out new st',
    update_existing_stats env cfg youtube df st = (out, st') ∧
    extends st new st' ∧
    files st' = files st ∧
    (∀ path, writes_to path new = []) ∧
    transcript_requests new = [] ∧
    (df = [] → new = []) ∧
    match out with
    | Return df' =>
        length df' = length df ∧
        ∀ i r, df !! i = Some r →
          ∃ r', df' !! i = Some r' ∧
            video_id r' = video_id r ∧ title r' = title r ∧
            description r' = description r ∧ published_at r' = published_at r ∧
            video_url r' = video_url r ∧ region r' = region r ∧
            transcription r' = transcription r ∧
            detected_language r' = detected_language r ∧
            match last (filter (λ d, vi_id d = video_id r)
                               (concat (videos_pages new))) with
            | None => r' = r
            | Some d =>
                let statistics :=
                  default (mkStatistics None None None) (vi_statistics d) in
                view_count r' = viewCount statistics ∧
                like_count r' = likeCount statistics ∧
                comment_count r' = commentCount statistics
            end
    | Raise (Exception _) => True
    | _ => False
    end.
Proof.
  destruct (update_existing_stats_full youtube df st)
    as (out & new & st' & Hrun & Hext & Hfiles & Hk & Hnil & Hout).
  exists out, new, st'. split; [done|]. split; [done|]. split; [done|].
  split; [intros path; eapply only_no_writes; [|eassumption]; solve_kinds|].
  split; [eapply only_no_transcripts; [|eassumption]; solve_kinds|].
  split; [done|].
  destruct out as [df'|[]|]; try done. subst df'.
  split; [by rewrite length_fmap|].
  intros i r Hi. exists (refreshed (concat (videos_pages new)) r).
  split; [by rewrite list_lookup_fmap, Hi|].
  unfold refreshed. by destruct (last (filter _ _)).
Qed.

(** ** Backfilling: nothing to do *)

(** Property X13.
    When every row has a transcript that is neither empty nor "Video
    Error", the backfill returns the table as it is; it asks for nothing,
    writes nothing and does not sleep: at most it logs. *)
Theorem update_missing_transcripts_with_nothing_missing (df : Table) (st : State) :
  Forall (λ r, ∃ t, transcription r = Some t ∧ t ≠ "" ∧ t ≠ "Video Error") df →
  ∃ new st',
    update_missing_transcripts env cfg df st = (Return df, st') ∧
    extends st new st' ∧
    files st' = files st ∧
    only [KLog] new.
Proof.
  intros Hall. unfold update_missing_transcripts.
  destruct (df_empty df).
  { exists [], st. split; [done|]. split; [apply extends_refl|].
    split; [done|apply only_nil]. }
  assert (missing_transcripts df = []) as ->.
  { destruct (missing_transcripts df) as [|[i r] l] eqn:Hm; [done|]. exfalso.
    assert ((i, r) ∈ missing_transcripts df) as Hin by (rewrite Hm; left).
    apply elem_of_missing_transcripts in Hin as [Hi Hneeds].
    rewrite Forall_forall in Hall.
    destruct (Hall r) as (t & Ht & Hne & Herr).
    { apply list_elem_of_lookup. eauto. }
    apply needs_transcript_iff in Hneeds. rewrite Ht in Hneeds.
    destruct Hneeds as [?|[?|?]]; congruence. }
  unfold logging_info. rewrite bind_emit.
  eexists [_], _. split; [done|]. split; [solve_extends|]. split; [done|].
  repeat constructor; solve_kinds.
Qed.

(** ** The orchestrator: appending *)

Lemma search_pages_without_calls (tr : list Event) :
  search_calls tr = O → search_pages tr = [].
Proof.
  induction tr as [|ev tr IH]; [done|].
  destruct ev; try exact IH. done.
Qed.

(** Property X15.
    With the two optional phases switched off, a run that starts up, whose
    search endpoint follows a script of answers and whose statistics and
    save steps do not fail beyond what the script handles, has the pages
    of that script returned to it and returns the loaded table followed by
    one record per new entry of these pages, in order (an entry that the
    search lists twice gives two records). The ids of the new records are
    the ids of the entries listed that were not in the loaded table, so
    none of them is an id of a loaded row. If there is a new record, the
    combined table is written once to the configured path; otherwise
    nothing is written to it. *)
Theorem main_appends_new_records_after_loaded_rows
    (answers : list (Exn + SearchResponse)) (fuel : nat) (st : State) :
  update_existing cfg = false →
  update_transcripts cfg = false →
  startup_ok env →
  backup_writes_succeed env cfg →
  batch_size cfg ≠ 0 →
  (∀ h part id, handled (videos_list_execute env h part id)) →
  search_script env cfg (trace st) answers →
  (length answers ≤ fuel)%nat →
  ∃ records new st',
    main env cfg fuel st = (Return (Some (loaded_table cfg st ++ records)), st') ∧
    extends st new st' ∧
    search_pages new = pages_of answers ∧
    video_id <$> records
    = id_videoId <$>
        filter (λ v, id_videoId v ∉ video_id <$> loaded_table cfg st)
               (concat (pages_of answers)) ∧
    Forall (λ r, video_id r ∉ video_id <$> loaded_table cfg st) records ∧
    writes_to (csv_file_path cfg) new
    = match records with
      | [] => []
      | _ => [loaded_table cfg st ++ records]
      end.
Proof.
  intros Hstats Htrans Hstart Hbackup Hb Hh
    [Hans (body & closing & -> & Hbody & Hclosing)] Hfuel.
  set (loaded := loaded_table cfg st).
  set (K := list_to_set (video_id <$> loaded) : gset string).
  destruct (main_try_startup env cfg fuel st Hstart)
    as (youtube & new1 & st1 & Hmain & Hext1 & _ & Hev1).
  fold loaded K in Hmain.
  assert (only [KStartup; KLog] new1) as Hk1.
  { eapply Forall_impl; [exact Hev1|]. intros [] ?; try done; solve_kinds. }
  set (st1' := st1 ▷ EvLog INFO "Searching for new videos...").
  destruct (search_loop_spec env cfg youtube K fuel (mkSearchVars [] None 0) st1')
    as (out & new2 & st2 & Hsearch & Hext2 & _ & Hev2 & Hout).
  assert (search_pages new1 = []) as Hp1
    by (eapply only_no_search; [|exact Hk1]; solve_kinds).
  assert (search_calls (trace st1') = search_calls (trace st)) as Hcalls.
  { unfold st1'. rewrite trace_record, Hext1, !search_calls_app.
    assert (search_requests new1 = []) as Hr1
      by (eapply only_no_search; [|exact Hk1]; solve_kinds).
    unfold search_calls at 2 3. rewrite Hr1. simpl. lia. }
  destruct (search_loop_answers env cfg youtube K body closing
              (mkSearchVars [] None 0) st1' fuel)
    as (new2' & st2' & Hret & Hext2' & Hp2 & _);
    [by rewrite Hcalls|done|done|rewrite length_app in Hfuel; simpl in Hfuel; lia|].
  remember (all_videos (mkSearchVars [] None 0)
            ++ new_only K (concat (pages_of (body ++ [closing])))) as results
    eqn:Hresdef.
  rewrite Hsearch in Hret. injection Hret as -> ->. rename st2' into st2.
  rewrite <- (extends_inj _ _ _ _ Hext2 Hext2') in Hp2. clear new2' Hext2' Hout.
  assert (only [KSearch; KLog; KSleep] new2) as Hk2.
  { eapply Forall_impl; [exact Hev2|]. intros [] ?; try done; solve_kinds. }
  assert (results
          = filter (λ v, id_videoId v ∉ video_id <$> loaded)
                   (concat (pages_of (body ++ [closing])))) as Hresults.
  { rewrite Hresdef. unfold new_only. simpl. apply list_filter_iff. intros v.
    unfold K. by rewrite elem_of_list_to_set. }
  clear Hresdef.
  assert (main_try env cfg fuel st
          = bind (search_youtube_videos env cfg fuel youtube K)
              (λ search_results,
                 match search_results with
                 | [] => logging_info "No new videos found.";; ret (Some loaded)
                 | _ =>
                     logging_info ("Processing " +:+ pretty (length search_results)
                                   +:+ " new videos...");;
                     video_records ← process_videos env cfg youtube search_results
                                       (fetch_transcripts cfg);
                     match video_records with
                     | [] => ret (Some loaded)
                     | _ =>
                         save_data env (loaded ++ video_records) (csv_file_path cfg);;
                         logging_info ("Added " +:+ pretty (length video_records)
                                       +:+ " new videos. Total: "
                                       +:+ pretty (length (loaded ++ video_records)));;
                         ret (Some (loaded ++ video_records))
                     end
                 end) st1') as Hmain'.
  { rewrite Hmain. unfold refresh_phase, backfill_phase.
    rewrite Hstats, Htrans. simpl andb. cbv iota. rewrite !bind_ret.
    unfold search_phase, logging_info. by rewrite bind_emit. }
  clear Hmain. unfold search_youtube_videos in Hmain'.
  rewrite (bind_run _ _ _ _ _ Hsearch) in Hmain'.
  assert (writes_to (csv_file_path cfg) new1 = []) as Hw1
    by (eapply only_no_writes; [|exact Hk1]; solve_kinds).
  assert (writes_to (csv_file_path cfg) new2 = []) as Hw2
    by (eapply only_no_writes; [|exact Hk2]; solve_kinds).
  destruct results as [|v0 rest0] eqn:Hres.
  { exists [], (new1 ++ [EvLog INFO "Searching for new videos..."] ++ new2
                ++ [EvLog INFO "No new videos found."]),
      (st2 ▷ EvLog INFO "No new videos found.").
    split.
    { unfold main. apply try_except_run. rewrite Hmain'. unfold logging_info.
      rewrite bind_emit. by rewrite app_nil_r. }
    split; [unfold st1' in *; solve_extends|].
    split.
    { rewrite !search_pages_app, Hp1, Hp2. simpl. by rewrite app_nil_r. }
    split; [by rewrite <- Hresults|].
    split; [constructor|].
    rewrite !writes_to_app, Hw1, Hw2. reflexivity. }
  rewrite <- Hres in *. assert (results ≠ []) as Hne by (by rewrite Hres).
  clear Hres v0 rest0.
  set (st3 := st2 ▷ EvLog INFO ("Processing " +:+ pretty (length results)
                                +:+ " new videos...")).
  destruct (process_videos_returns env cfg youtube results (fetch_transcripts cfg)
              st3 Hb Hh) as (records & new3' & st4 & Hproc & _ & _).
  destruct (process_videos_full youtube results (fetch_transcripts cfg) st3)
    as (out & new3 & st4' & Hproc' & Hext3 & _ & Hk3 & Hout3).
  rewrite Hproc in Hproc'. injection Hproc' as <- <-. destruct Hout3 as [_ Hmade].
  clear new3'.
  assert (video_id <$> records = id_videoId <$> results) as Hids.
  { clear -Hmade. induction Hmade as [|v r vs rs [Hid _] _ IH]; [done|].
    rewrite !fmap_cons. by f_equal. }
  assert (records ≠ []) as Hrne.
  { intros ->. apply Forall2_nil_inv_r in Hmade. done. }
  assert (search_pages new3 = []) as Hp3
    by (eapply only_no_search; [|exact Hk3]; solve_kinds).
  assert (writes_to (csv_file_path cfg) new3 = []) as Hw3
    by (eapply only_no_writes; [|exact Hk3]; solve_kinds).
  destruct (save_data_returns env cfg (loaded ++ records) st4 Hbackup)
    as (new4 & st5 & Hsave & Hext4 & _ & Hw4 & _ & Hc4).
  apply search_pages_without_calls in Hc4.
  assert (main env cfg fuel st
          = (Return (Some (loaded ++ records)),
             st5 ▷ EvLog INFO ("Added " +:+ pretty (length records)
                               +:+ " new videos. Total: "
                               +:+ pretty (length (loaded ++ records)))))
    as Hrun.
  { unfold main. apply try_except_run. rewrite Hmain'.
    unfold logging_info. rewrite bind_emit. fold st3.
    rewrite (bind_run _ _ _ _ _ Hproc). clear -Hsave Hrne.
    destruct records as [|r0 rs0]; [done|].
    rewrite (bind_run _ _ _ _ _ Hsave). by rewrite bind_emit. }
  set (final := EvLog INFO ("Added " +:+ pretty (length records)
                            +:+ " new videos. Total: "
                            +:+ pretty (length (loaded ++ records)))).
  exists records,
    (new1 ++ [EvLog INFO "Searching for new videos..."] ++ new2
       ++ [EvLog INFO ("Processing " +:+ pretty (length results)
                       +:+ " new videos...")]
       ++ new3 ++ new4 ++ [final]),
    (st5 ▷ final).
  split; [exact Hrun|].
  split; [unfold st3, st1' in *; solve_extends|].
  split.
  { rewrite !search_pages_app, Hp1, Hp2, Hp3, Hc4. simpl. by rewrite app_nil_r. }
  split; [by rewrite Hids, Hresults|].
  split.
  { apply Forall_forall. intros r Hr.
    apply (list_elem_of_fmap_2 video_id) in Hr. rewrite Hids in Hr.
    apply list_elem_of_fmap_1 in Hr as (v & -> & Hv).
    rewrite Hresults in Hv. apply list_elem_of_filter in Hv. apply Hv. }
  rewrite !writes_to_app, Hw1, Hw2, Hw3, Hw4. simpl.
  unfold final, writes_to. simpl. by destruct records.
Qed.

(** ** Start-up: the client and the directory *)

(** Property X2.
    With an API key, [main] still returns [None] when the client cannot be
    built or when the directory of the table cannot be made. In the first
    case the error is logged twice (by [initialize_youtube_client] and by
    [main]) and no directory is made; in the second it is logged once, and
    the table is not read. In both cases no request is sent and no file
    written. The directory asked for is [os.path.dirname] of the
    configured path. *)
Theorem main_stops_when_client_or_directory_fails (fuel : nat) (st : State) :
  let key := os_getenv env (trace st) "YOUTUBE_API_KEY" in
  let st1 := st ▷ EvGetenv "YOUTUBE_API_KEY" key in
  let dir := os_path_dirname (csv_file_path cfg) in
  truthy key = true →
  (∀ e, build env (trace st1) (default "" key) = Some e →
     main env cfg fuel st
     = (Return None,
        st1 ▷ EvBuild (default "" key) (Some e)
            ▷ EvLog ERROR ("Failed to initialize YouTube client: " +:+ exn_str e)
            ▷ EvLog ERROR ("An error occurred in the main process: "
                           +:+ exn_str e))) ∧
  (∀ e, build env (trace st1) (default "" key) = None →
     os_makedirs env (trace (st1 ▷ EvBuild (default "" key) None)) dir = Some e →
     main env cfg fuel st
     = (Return None,
        st1 ▷ EvBuild (default "" key) None
            ▷ EvMakedirs dir (Some e)
            ▷ EvLog ERROR ("An error occurred in the main process: "
                           +:+ exn_str e))).
Proof.
  intros key st1 dir Hkey.
  assert (∀ r, build env (trace st1) (default "" key) = r →
            initialize_youtube_client env st
            = match r with
              | None => (Return (default "" key), st1 ▷ EvBuild (default "" key) None)
              | Some e =>
                  (Raise e,
                   st1 ▷ EvBuild (default "" key) (Some e)
                       ▷ EvLog ERROR ("Failed to initialize YouTube client: "
                                      +:+ exn_str e))
              end) as Hinit.
  { intros r Hr. unfold initialize_youtube_client, get_api_key, getenv, try_except.
    rewrite bind_assoc. unfold bind at 1. fold key st1. rewrite Hkey.
    rewrite bind_ret. unfold build_youtube. rewrite Hr. by destruct r. }
  split.
  - intros e He. unfold main, main_try, try_except. unfold bind at 1.
    rewrite (Hinit _ He). reflexivity.
  - intros e Hb He. unfold main, main_try, try_except. unfold bind at 1.
    rewrite (Hinit _ Hb). unfold bind at 1.
    unfold load_existing_data, makedirs. unfold bind at 1. fold dir.
    rewrite He. reflexivity.
Qed.

(** ** Backfilling: rows that cannot be had *)

(** The two cells that the loop assigns are what the fetcher returned:
    whatever holds of every pair the fetcher can return holds of the pair
    assigned to each selected row. *)
Lemma backfill_rows_cells (P : string → string → Prop) (total : nat)
    (rows : list (nat * Row)) :
  (∀ v st t l st', get_transcript_and_language env v st = (Return (t, l), st') →
                   P t l) →
  ∀ (df : Table) (c : nat) (st : State) (df' : Table) (c' : nat) (st' : State),
    backfill_rows env cfg total rows df c st = (Return (df', c'), st') →
    (∀ i, i ∉ rows.*1 → df' !! i = df !! i) ∧
    (∀ i, i ∈ rows.*1 → ∃ t l, P t l ∧ df' !! i = overwritten t l <$> df !! i).
Proof.
  intros HP. induction rows as [|[index row] rest IH]; intros df c st df' c' st' Hrun.
  { injection Hrun as <- <- <-. split; [done|].
    intros i Hi. by apply elem_of_nil in Hi. }
  simpl backfill_rows in Hrun. unfold logging_info, time_sleep in Hrun.
  rewrite bind_emit in Hrun. unfold bind at 1 in Hrun.
  destruct (get_transcript_and_language env (video_id row) _)
    as [[[t l]|e|] st1] eqn:Hget; try done.
  apply HP in Hget. cbv beta iota zeta in Hrun.
  set (df1 := alter (set_detected_language l) index
                (alter (set_transcription t) index df)) in Hrun.
  unfold bind at 1 in Hrun.
  match type of Hrun with
  | match ?m st1 with _ => _ end = _ => destruct (m st1) as [[[]|e|] st2]; try done
  end.
  rewrite bind_emit in Hrun. apply IH in Hrun as [Hout Hin].
  assert (∀ i, df1 !! i = if decide (i = index) then overwritten t l <$> df !! i
                          else df !! i) as Hdf1.
  { intros i. unfold df1. destruct (decide (i = index)) as [->|Hne].
    - rewrite !list_lookup_alter_eq. by destruct (df !! index).
    - by rewrite !list_lookup_alter_ne. }
  split.
  - intros i Hi. simpl in Hi. rewrite not_elem_of_cons in Hi. destruct Hi as [Hne Hi].
    rewrite Hout, Hdf1 by done. by rewrite decide_False.
  - intros i Hi. simpl in Hi.
    destruct (decide (i ∈ rest.*1)) as [Hrest|Hrest].
    + destruct (Hin i Hrest) as (t' & l' & HP' & ->). exists t', l'.
      split; [done|].
      rewrite Hdf1. destruct (decide (i = index)); [|done].
      destruct (df !! i); [|done]. simpl. by rewrite overwritten_twice.
    + apply elem_of_cons in Hi as [->|?]; [|done].
      exists t, l. split; [done|]. rewrite Hout, Hdf1 by done. by rewrite decide_True.
Qed.

Lemma update_missing_transcripts_cells (P : string → string → Prop)
    (df df' : Table) (st st' : State) :
  (∀ v st t l st', get_transcript_and_language env v st = (Return (t, l), st') →
                   P t l) →
  update_missing_transcripts env cfg df st = (Return df', st') →
  ∀ i, i ∈ (missing_transcripts df).*1 →
       ∃ t l, P t l ∧ df' !! i = overwritten t l <$> df !! i.
Proof.
  intros HP Hrun i Hi. unfold update_missing_transcripts in Hrun.
  destruct (df_empty df) eqn:Hempty.
  { destruct df; [|done]. by apply elem_of_nil in Hi. }
  destruct (missing_transcripts df) as [|ir rows] eqn:Hmiss.
  { by apply elem_of_nil in Hi. }
  unfold logging_info in Hrun. rewrite bind_emit in Hrun.
  unfold bind at 1 in Hrun.
  match type of Hrun with
  | match ?m with _ => _ end = _ =>
      destruct m as [[[df1 c1]|e|] st1] eqn:Hloop; try done
  end.
  cbv beta iota in Hrun. rewrite bind_emit in Hrun. injection Hrun as <- <-.
  apply (backfill_rows_cells P _ _ HP) in Hloop as [_ Hin]. by apply Hin.
Qed.

Lemma get_transcript_and_language_without_captions (v : string) (st : State)
    (t l : string) (st' : State) :
  without_captions env →
  get_transcript_and_language env v st = (Return (t, l), st') →
  t = "Video Error" ∧ l = "unknown".
Proof.
  intros Hnone Hrun. destruct (decide (v = "")) as [->|Hne].
  { by injection Hrun as <- <- <-. }
  rewrite (get_transcript_and_language_run _ _ _ Hne) in Hrun.
  destruct (Hnone (trace st) v) as [e He]. rewrite He in Hrun.
  by injection Hrun as <- <- <-.
Qed.

Lemma needs_transcript_given_up (r : Row) :
  needs_transcript (given_up r) = needs_transcript r.
Proof. unfold given_up. by destruct (needs_transcript r) eqn:Hn. Qed.

Lemma given_up_twice (r : Row) : given_up (given_up r) = given_up r.
Proof.
  unfold given_up at 1. rewrite needs_transcript_given_up.
  unfold given_up. by destruct (needs_transcript r).
Qed.

Lemma filter_given_up (df : Table) :
  filter (λ r, needs_transcript r = true) (given_up <$> df)
  = given_up <$> filter (λ r, needs_transcript r = true) df.
Proof.
  induction df as [|r df IH]; [done|].
  rewrite fmap_cons, !filter_cons, needs_transcript_given_up.
  destruct (decide (needs_transcript r = true)); [rewrite fmap_cons|]; by rewrite IH.
Qed.

Lemma missing_indices_given_up (df : Table) :
  (missing_transcripts (given_up <$> df)).*1 = (missing_transcripts df).*1.
Proof.
  unfold missing_transcripts, iterrows.
  assert (∀ g : nat → nat,
    (filter (λ ir : nat * Row, needs_transcript ir.2 = true)
            (imap (λ i r, (g i, r)) (given_up <$> df))).*1
    = (filter (λ ir : nat * Row, needs_transcript ir.2 = true)
              (imap (λ i r, (g i, r)) df)).*1) as Hall; [|apply (Hall id)].
  induction df as [|r df IH]; intros g; [done|].
  rewrite fmap_cons, !imap_cons, !filter_cons. simpl.
  rewrite needs_transcript_given_up.
  destruct (decide (needs_transcript r = true)); simpl; [f_equal|];
    apply (IH (g ∘ S)).
Qed.

Lemma update_missing_transcripts_without_captions (df : Table) (st : State) :
  backup_writes_succeed env cfg →
  without_captions env →
  ∃ new st',
    update_missing_transcripts env cfg df st = (Return (given_up <$> df), st') ∧
    extends st new st' ∧
    transcript_requests new
      = filter (λ v, v ≠ "")
               (video_id <$> filter (λ r, needs_transcript r = true) df).
Proof.
  intros Hbackup Hnone.
  destruct (update_missing_transcripts_spec env cfg df st Hbackup)
    as (df' & new & st' & Hrun & Hext & _ & Hrq & Hlen & Hout & _).
  pose proof (update_missing_transcripts_cells
                (λ t l, t = "Video Error" ∧ l = "unknown") df df' st st'
                (λ v s t l s' H,
                   get_transcript_and_language_without_captions v s t l s' Hnone H)
                Hrun) as Hin.
  assert (df' = given_up <$> df) as ->.
  { apply list_eq. intros i. rewrite list_lookup_fmap.
    destruct (decide (i ∈ (missing_transcripts df).*1)) as [Hi|Hi].
    - destruct (Hin i Hi) as (t & l & [-> ->] & ->).
      apply elem_of_missing_indices in Hi as (r & Hr & Hn). rewrite Hr. simpl.
      unfold given_up. by rewrite Hn.
    - rewrite (Hout i Hi). destruct (df !! i) as [r|] eqn:Hr; [|done]. simpl.
      unfold given_up. destruct (needs_transcript r) eqn:Hn; [|done].
      exfalso. apply Hi, elem_of_missing_indices. eauto. }
  by exists new, st'.
Qed.

(** Property X14.
    When no transcript can be had, the backfill writes the two sentinels
    into every selected row and leaves the other rows alone; the rows it
    selected are still selected in the table it returns, so a second
    backfill of that table sends the same transcript requests again and
    returns the same table. *)
Theorem backfill_asks_again_for_rows_it_gave_up (df : Table) (st : State) :
  backup_writes_succeed env cfg →
  without_captions env →
  ∃ new st' new' st'',
    update_missing_transcripts env cfg df st = (Return (given_up <$> df), st') ∧
    extends st new st' ∧
    (missing_transcripts (given_up <$> df)).*1 = (missing_transcripts df).*1 ∧
    update_missing_transcripts env cfg (given_up <$> df) st'
      = (Return (given_up <$> df), st'') ∧
    extends st' new' st'' ∧
    transcript_requests new' = transcript_requests new ∧
    transcript_requests new
      = filter (λ v, v ≠ "")
               (video_id <$> filter (λ r, needs_transcript r = true) df).
Proof.
  intros Hbackup Hnone.
  destruct (update_missing_transcripts_without_captions df st Hbackup Hnone)
    as (new & st' & Hrun & Hext & Hrq).
  destruct (update_missing_transcripts_without_captions (given_up <$> df) st'
              Hbackup Hnone) as (new' & st'' & Hrun' & Hext' & Hrq').
  assert ((given_up <$> (given_up <$> df)) = given_up <$> df) as Htwice.
  { rewrite <- list_fmap_compose. apply list_fmap_ext. intros i r _.
    apply given_up_twice. }
  rewrite Htwice in Hrun'.
  exists new, st', new', st''. split; [done|]. split; [done|].
  split.
  { apply missing_indices_given_up. }
  split; [done|]. split; [done|]. split; [|done].
  rewrite Hrq', Hrq, filter_given_up, <- list_fmap_compose. f_equal.
  apply list_fmap_ext. intros i r _. simpl. unfold given_up.
  by destruct (needs_transcript r).
Qed.

(** ** The orchestrator: refreshing statistics *)

(** [save_data] touches the disk, the clock and the log only. *)
Lemma save_data_kinds (df : Table) (csv_file : string) (st : State) :
  ∃ out new st',
    save_data env df csv_file st = (out, st') ∧
    extends st new st' ∧
    only [KWrite; KClock; KLog] new.
Proof.
  rewrite save_data_run.
  destruct (to_csv env (trace st) csv_file df) as [e|].
  - cbv zeta. destruct (to_csv env _ _ df) as [e'|].
    + eexists _, [_; _; _; _], _. split; [done|]. split; [solve_extends|].
      repeat constructor; solve_kinds.
    + eexists _, [_; _; _; _; _], _. split; [done|]. split; [solve_extends|].
      repeat constructor; solve_kinds.
  - eexists _, [_; _], _. split; [done|]. split; [solve_extends|].
    repeat constructor; solve_kinds.
Qed.

Lemma update_existing_stats_returns (youtube : string) (df : Table) (st : State) :
  batch_size cfg ≠ 0 →
  (∀ h part id, handled (videos_list_execute env h part id)) →
  ∃ new st',
    update_existing_stats env cfg youtube df st
      = (Return (refreshed (concat (videos_pages new)) <$> df), st') ∧
    extends st new st' ∧
    only [KVideos; KLog; KSleep] new.
Proof.
  intros Hb Hh.
  destruct (update_existing_stats_full youtube df st)
    as (out & new & st' & Hrun & Hext & _ & Hk & _ & Hout).
  assert (∃ df' st'', update_existing_stats env cfg youtube df st
                      = (Return df', st'')) as (df' & st'' & Hret).
  { unfold update_existing_stats. destruct (df_empty df); [by eexists _, _|].
    unfold logging_info. rewrite bind_emit.
    set (video_ids := video_id <$> df).
    set (st0 := st ▷ _).
    assert (∃ res st1, fetch_video_details env cfg youtube video_ids st0
                       = (Return res, st1)) as (res & st1 & Hfetch).
    { unfold fetch_video_details. destruct video_ids as [|x xs] eqn:Hids.
      { by eexists _, _. }
      rewrite <- Hids. unfold py_range.
      destruct (batch_size cfg =? 0) eqn:Hz; [lia|]. rewrite bind_ret.
      by apply fetch_batches_returns. }
    rewrite (bind_run _ _ _ _ _ Hfetch). cbv zeta.
    destruct (foldl _ _ _) as [df1 n1]. rewrite bind_emit. by eexists _, _. }
  rewrite Hrun in Hret. injection Hret as -> ->. subst df'.
  by exists new, st''.
Qed.

(** The batch loop when every request is answered, by a function of the
    ids asked for: every batch is asked for, and the items of all the
    answers are returned. *)
Lemma fetch_batches_answered (answer : string → VideosResponse)
    (youtube : string) (video_ids : list string) (indices : list Z) :
  (∀ h part id, videos_list_execute env h part id = inr (answer id)) →
  ∀ (results : list VideoItem) (st : State),
  ∃ new st',
    fetch_batches env cfg youtube video_ids indices results st
      = (Return (results
                 ++ concat ((λ i, default [] (vr_items
                                    (answer (batch_id cfg video_ids i))))
                            <$> indices)), st') ∧
    extends st new st' ∧
    videos_requests new = batch_id cfg video_ids <$> indices.
Proof.
  intros Hans. induction indices as [|i rest IH]; intros results st.
  { exists [], st. simpl. rewrite app_nil_r. split; [done|].
    split; [apply extends_refl|done]. }
  rewrite fetch_batches_cons. cbv zeta. rewrite Hans.
  destruct (i + batch_size cfg <? len video_ids).
  - edestruct IH as (new & st' & -> & Hext & Hrq).
    eexists ([_; _] ++ new), st'. split.
    { simpl. by rewrite <- app_assoc. }
    split; [solve_extends|]. by rewrite videos_requests_app, Hrq.
  - edestruct IH as (new & st' & -> & Hext & Hrq).
    eexists ([_] ++ new), st'. split.
    { simpl. by rewrite <- app_assoc. }
    split; [solve_extends|]. by rewrite videos_requests_app, Hrq.
Qed.

(** The refresh when every request is answered: every batch of the ids of
    the table is asked for, and the rows get the counters of the items
    that the answers hold. *)
Lemma update_existing_stats_answered (answer : string → VideosResponse)
    (youtube : string) (df : Table) (st : State) :
  0 < batch_size cfg →
  df ≠ [] →
  (∀ h part id, videos_list_execute env h part id = inr (answer id)) →
  ∃ new st',
    update_existing_stats env cfg youtube df st
      = (Return (refreshed (details_from answer (batches_of cfg (video_id <$> df)))
                   <$> df), st') ∧
    extends st new st' ∧
    only [KVideos; KLog; KSleep] new ∧
    videos_requests new = join "," <$> batches_of cfg (video_id <$> df).
Proof.
  intros Hb Hne Hans.
  assert (∀ h part id, handled (videos_list_execute env h part id)) as Hh.
  { intros h part id. by rewrite Hans. }
  destruct (update_existing_stats_returns youtube df st) as (new & st' & Hrun & Hext & Hk);
    [lia|done|].
  assert (videos_requests new = join "," <$> batches_of cfg (video_id <$> df)
          ∧ concat (videos_pages new)
            = details_from answer (batches_of cfg (video_id <$> df)))
    as [Hrq Hpages].
  { revert Hrun Hext. unfold update_existing_stats.
    destruct (df_empty df) eqn:Hempty; [by destruct df|].
    unfold logging_info. rewrite bind_emit.
    set (video_ids := video_id <$> df). set (st0 := st ▷ _).
    assert (video_ids ≠ []) as Hids by (unfold video_ids; by destruct df).
    destruct (fetch_batches_answered answer youtube video_ids
                (range_from (length video_ids) 0 (len video_ids) (batch_size cfg))
                Hans [] st0) as (new0 & st1 & Hfetch & Hext0 & Hrq0).
    destruct (fetch_batches_spec env cfg youtube video_ids
                (range_from (length video_ids) 0 (len video_ids) (batch_size cfg))
                [] st0) as (out & new0' & st1' & j & Hfetch' & Hext0' & _ & _ & _ & Hout).
    rewrite Hfetch in Hfetch'. injection Hfetch' as <- <-.
    rewrite <- (extends_inj _ _ _ _ Hext0 Hext0') in Hout. clear new0' Hext0'.
    simpl in Hout.
    rewrite <- (fetch_video_details_unfold env cfg youtube video_ids st0 Hids)
      in Hfetch by lia.
    rewrite (bind_run _ _ _ _ _ Hfetch). cbv zeta.
    destruct (foldl _ _ _) as [df1 n1]. rewrite bind_emit.
    intros Hrun Hext. injection Hrun as _ <-.
    assert (new = [EvLog INFO ("Updating statistics for "
                               +:+ pretty (length video_ids)
                               +:+ " existing videos...")]
                  ++ new0
                  ++ [EvLog INFO ("Updated statistics for " +:+ pretty n1
                                  +:+ " videos")]) as ->.
    { eapply extends_inj; [exact Hext|]. unfold st0 in *. solve_extends. }
    rewrite !videos_requests_app, !videos_pages_app.
    change (videos_requests [EvLog _ _]) with (@nil string).
    change (videos_pages [EvLog _ _]) with (@nil (list VideoItem)).
    rewrite !app_nil_r. simpl app. split.
    - rewrite Hrq0. unfold batches_of. by rewrite <- list_fmap_compose.
    - rewrite <- Hout. unfold details_from, batches_of.
      by rewrite <- list_fmap_compose. }
  exists new, st'. rewrite Hpages in Hrun. done.
Qed.

(** Property X16.
    With the refresh of statistics switched on (and the backfill off), a
    run over a non-empty table, whose videos requests are all answered and
    whose search finds nothing new, asks for every batch of the ids of the
    table and returns the loaded rows with the counters that the answers
    hold. That table is written to the configured path once, and this
    happens before the first search request: all videos requests and the
    write come first, all search requests after. *)
Theorem main_saves_refreshed_statistics_before_searching
    (answer : string → VideosResponse) (n fuel : nat) (st : State) :
  update_existing cfg = true →
  update_transcripts cfg = false →
  loaded_table cfg st ≠ [] →
  startup_ok env →
  backup_writes_succeed env cfg →
  0 < batch_size cfg →
  (∀ h part id, videos_list_execute env h part id = inr (answer id)) →
  (∀ h rq, (n ≤ search_calls h)%nat → stops (search_list_execute env h rq)) →
  (n < fuel)%nat →
  nothing_new env (list_to_set (video_id <$> loaded_table cfg st)) →
  ∃ before after st',
    let batches := batches_of cfg (video_id <$> loaded_table cfg st) in
    let table := refreshed (details_from answer batches) <$> loaded_table cfg st in
    main env cfg fuel st = (Return (Some table), st') ∧
    extends st (before ++ after) st' ∧
    videos_requests before = join "," <$> batches ∧
    writes_to (csv_file_path cfg) before = [table] ∧
    search_requests before = [] ∧
    writes_to (csv_file_path cfg) after = [] ∧
    videos_requests after = [] ∧
    transcript_requests (before ++ after) = [].
Proof.
  intros Hstats Htrans Hrows Hstart Hbackup Hb Hans Hstop Hfuel Hnew.
  set (loaded := loaded_table cfg st) in *.
  destruct (main_try_startup env cfg fuel st Hstart)
    as (youtube & new1 & st1 & Hmain & Hext1 & _ & Hev1).
  fold loaded in Hmain.
  assert (only [KStartup; KLog] new1) as Hk1.
  { eapply Forall_impl; [exact Hev1|]. intros [] ?; try done; solve_kinds. }
  destruct (update_existing_stats_answered answer youtube loaded st1 Hb Hrows Hans)
    as (new2 & st2 & Hupd & Hext2 & Hk2 & Hrq2).
  set (table := refreshed (details_from answer (batches_of cfg (video_id <$> loaded)))
                  <$> loaded) in *.
  destruct (save_data_returns env cfg table st2 Hbackup)
    as (new3 & st3 & Hsave & Hext3 & _ & Hw3 & Hrq3 & Hc3).
  destruct (search_phase_nothing_new env cfg n fuel youtube _ table st3
              Hstop Hfuel Hnew)
    as (new4 & st4 & Hsearch & Hext4 & _ & Hev4).
  assert (only [KSearch; KLog; KSleep] new4) as Hk4.
  { eapply Forall_impl; [exact Hev4|]. intros [] ?; try done; solve_kinds. }
  destruct (save_data_kinds table (csv_file_path cfg) st2)
    as (out3 & new3' & st3' & Hsave' & Hext3' & Hk3).
  rewrite Hsave in Hsave'. injection Hsave' as <- <-.
  rewrite (extends_inj _ _ _ _ Hext3' Hext3) in Hk3. clear new3' Hext3'.
  assert (videos_requests new1 = []) as Hv1
    by (eapply only_no_videos; [|exact Hk1]; solve_kinds).
  assert (videos_requests new3 = []) as Hv3
    by (eapply only_no_videos; [|exact Hk3]; solve_kinds).
  exists (new1 ++ new2 ++ new3), new4, st4. cbv zeta.
  fold table. split.
  { unfold main. apply try_except_run. rewrite Hmain.
    unfold refresh_phase, backfill_phase. rewrite Hstats, Htrans.
    assert (df_empty loaded = false) as -> by (by destruct loaded).
    simpl andb. cbv iota. rewrite bind_assoc.
    rewrite (bind_run _ _ _ _ _ Hupd). rewrite bind_assoc.
    rewrite (bind_run _ _ _ _ _ Hsave). rewrite !bind_ret.
    exact Hsearch. }
  split; [solve_extends|].
  assert (writes_to (csv_file_path cfg) new1 = []) as Hw1
    by (eapply only_no_writes; [|exact Hk1]; solve_kinds).
  assert (writes_to (csv_file_path cfg) new2 = []) as Hw2
    by (eapply only_no_writes; [|exact Hk2]; solve_kinds).
  assert (search_requests new1 = []) as Hs1
    by (eapply only_no_search; [|exact Hk1]; solve_kinds).
  assert (search_requests new2 = []) as Hs2
    by (eapply only_no_search; [|exact Hk2]; solve_kinds).
  assert (search_requests new3 = []) as Hs3
    by (eapply only_no_search; [|exact Hk3]; solve_kinds).
  assert (transcript_requests new1 = []) as Ht1
    by (eapply only_no_transcripts; [|exact Hk1]; solve_kinds).
  assert (transcript_requests new2 = []) as Ht2
    by (eapply only_no_transcripts; [|exact Hk2]; solve_kinds).
  assert (transcript_requests new4 = []) as Ht4
    by (eapply only_no_transcripts; [|exact Hk4]; solve_kinds).
  split; [by rewrite !videos_requests_app, Hv1, Hv3, Hrq2, app_nil_r|].
  split; [by rewrite !writes_to_app, Hw1, Hw2, Hw3|].
  split; [by rewrite !search_requests_app, Hs1, Hs2, Hs3|].
  split; [eapply only_no_writes; [|exact Hk4]; solve_kinds|].
  split; [eapply only_no_videos; [|exact Hk4]; solve_kinds|].
  by rewrite !transcript_requests_app, Ht1, Ht2, Hrq3, Ht4.
Qed.

End More.

(** * The statements at work on concrete worlds *)

Section Witnesses.
Import Scenario.

(** The search of [four_calls] with [video_name 1] known: the server error
    is retried, and [entry 1] is dropped both times it is listed. *)
Example four_calls_search :
  (search_youtube_videos four_calls CONFIG 5 "key" {[video_name 1]} fresh).1
  = Return [entry 0; entry 2; entry 3; entry 4].
Proof. vm_compute. reflexivity. Qed.

Lemma search_returns_pages_without_known_ids_witness :
  ∃ new st',
    search_youtube_videos four_calls CONFIG 5 "key" {[video_name 1]} fresh
      = (Return (filter (λ v, id_videoId v ∉ ({[video_name 1]} : gset string))
                        (concat (pages_of four_answers))), st') ∧
    extends fresh new st' ∧
    search_pages new = pages_of four_answers ∧
    search_requests new
      = request_after CONFIG None four_answers <$> seq 0 (length four_answers) ∧
    Forall (λ v, id_videoId v ∉ ({[video_name 1]} : gset string))
           (filter (λ v, id_videoId v ∉ ({[video_name 1]} : gset string))
                   (concat (pages_of four_answers))).
Proof.
  apply (search_returns_pages_without_known_ids four_calls CONFIG "key"
           {[video_name 1]} four_answers 5 fresh).
  - split.
    + intros i a h Hi Hh. simpl in Hh.
      unfold request_after, four_calls, with_search. simpl. rewrite Hh.
      destruct i as [|[|[|[|i]]]]; simpl in Hi; [by injection Hi..|done].
    + exists [inr (mkSearchResponse (Some [entry 0; entry 1; entry 2])
                                    (Some "CAMQAA"));
              inl (HttpError 500 "backendError");
              inr (mkSearchResponse (Some [entry 3; entry 1]) (Some "CAUQAA"))],
             (inr (mkSearchResponse (Some [entry 4]) None)).
      split; [reflexivity|]. split; [|reflexivity].
      repeat constructor. discriminate.
  - simpl. lia.
Defined.

(** The transcript fetcher in [no_captions]. *)
Lemma transcript_failures_become_sentinels_witness :
  (get_transcript_and_language no_captions (video_name 1) fresh).1
    = Return ("Video Error", "unknown") ∧
  (get_transcript_and_language no_captions (video_name 2) fresh).1
    = Return ("mix the dough let it rest", "unknown").
Proof.
  split.
  - apply (proj1 (proj2 (transcript_failures_become_sentinels
                           no_captions (video_name 1) fresh))
             (Exception "TranscriptsDisabled")).
    reflexivity.
  - apply (proj2 (proj2 (transcript_failures_become_sentinels
                           no_captions (video_name 2) fresh))
             [mkSegment "mix the dough"; mkSegment "let it rest"]
             (Exception "No features in text.")).
    + discriminate.
    + reflexivity.
    + reflexivity.
Defined.

(** 120 ids in batches of 50: three requests. *)
Example three_batches :
  videos_requests (trace (fetch_video_details calm CONFIG "key" ids120 fresh).2)
  = join "," <$> [video_name <$> seq 0 50; video_name <$> seq 50 50;
                  video_name <$> seq 100 20].
Proof. vm_compute. reflexivity. Qed.

Lemma fetch_video_details_issues_ceil_batches_witness :
  ∃ res new st' (batches : list (list string)),
    fetch_video_details calm CONFIG "key" ids120 fresh = (Return res, st') ∧
    extends fresh new st' ∧
    videos_requests new = join "," <$> batches ∧
    concat batches = ids120 ∧
    Forall (λ b, 0 < len b ≤ batch_size CONFIG) batches ∧
    len batches = ceil_div (len ids120) (batch_size CONFIG).
Proof.
  apply (fetch_video_details_issues_ceil_batches calm CONFIG "key" ids120 fresh).
  - discriminate.
  - reflexivity.
  - intros h part id. exact I.
Defined.

(** The quota error on the second of three batches: the result is what the
    first batch brought, and there is no third request. *)
Example quota_on_second_of_three :
  let r := fetch_video_details quota_on_second CONFIG "key" ids120 fresh in
  r.1 = Return [mkVideoItem (video_name 0)
                  (Some (mkStatistics (Some 1200) (Some 40) (Some 7)))] ∧
  videos_requests (trace r.2)
  = join "," <$> [video_name <$> seq 0 50; video_name <$> seq 50 50].
Proof. vm_compute. split; reflexivity. Qed.

Lemma fetch_video_details_stops_at_quota_witness :
  ∃ new st' (batches : list (list string)),
    fetch_video_details quota_on_second CONFIG "key" ids120 fresh
      = (Return (concat (videos_pages new)), st') ∧
    extends fresh new st' ∧
    concat batches = ids120 ∧
    len batches = ceil_div (len ids120) (batch_size CONFIG) ∧
    videos_requests new = join "," <$> take 2 batches ∧
    videos_calls new = 2%nat ∧
    (length (videos_pages new) ≤ 1)%nat.
Proof.
  apply (fetch_video_details_stops_at_quota quota_on_second CONFIG "key" ids120
           1 fresh).
  - reflexivity.
  - reflexivity.
  - intros h part id Hh. unfold quota_on_second, with_videos. simpl.
    simpl in Hh. destruct (videos_calls h) as [|n]; [exact I|lia].
  - intros h part id Hh. unfold quota_on_second, with_videos. simpl.
    simpl in Hh. rewrite Hh. reflexivity.
Defined.

(** [save_data] when the configured path cannot be written: the table goes
    to the backup path, named after the clock. *)
Lemma save_data_falls_back_once_witness :
  ∃ st',
    save_data read_only_target table3 (csv_file_path CONFIG) fresh = (Return tt, st') ∧
    files st' = {[ "data/scrapped_data.csv.backup.1700000000.csv" := table3 ]} ∧
    files st' !! csv_file_path CONFIG = None.
Proof.
  destruct (proj1 (proj2 (save_data_falls_back_once read_only_target table3
                            (csv_file_path CONFIG) fresh)
                     (Exception "Permission denied") eq_refl) eq_refl)
    as (st' & Hrun & Hfiles & Hpath).
  exists st'. split; [exact Hrun|]. split; [exact Hfiles|exact Hpath].
Defined.

(** [save_data] raises when the backup write fails as well, and nothing is
    on disk afterwards. *)
Lemma save_data_raises_when_backup_write_fails :
  let r := save_data disk_full table3 (csv_file_path CONFIG) fresh in
  r.1 = Raise (Exception "No space left on device") ∧
  files r.2 = ∅ ∧
  writes_to "data/scrapped_data.csv.backup.1700000000.csv" (trace r.2) = [table3].
Proof. vm_compute. repeat split; reflexivity. Qed.

(** The backfill of [table3]: rows 0 and 1 get a transcript, row 2 is as
    it was. *)
Example backfill_of_table3 :
  (update_missing_transcripts calm CONFIG table3 fresh).1
  = Return [overwritten "mix the dough let it rest" "en" (stored 0 None);
            overwritten "mix the dough let it rest" "en" (stored 1 (Some "Video Error"));
            stored 2 (Some "knead well")].
Proof. vm_compute. reflexivity. Qed.

Lemma backfill_overwrites_only_missing_transcripts_witness :
  ∃ df' new st',
    update_missing_transcripts calm CONFIG table3 fresh = (Return df', st') ∧
    extends fresh new st' ∧
    length df' = 3%nat ∧
    df' !! 2%nat = Some (stored 2 (Some "knead well")) ∧
    transcript_requests new = [video_name 0; video_name 1].
Proof.
  destruct (backfill_overwrites_only_missing_transcripts calm CONFIG table3 fresh)
    as (df' & new & st' & Hrun & Hext & Hlen & _ & Hkept & Hrq).
  { intros h path df _. reflexivity. }
  exists df', new, st'. split; [exact Hrun|]. split; [exact Hext|].
  split; [exact Hlen|]. split; [|exact Hrq].
  apply Hkept; [reflexivity|].
  intros [H|[H|H]]; discriminate H.
Defined.

(** The backfill phase over 25 rows without transcript. *)
Example backfill_of_25_rows :
  let r := backfill_phase calm BACKFILL_CONFIG table25 fresh in
  marks (csv_file_path BACKFILL_CONFIG) (trace r.2)
  = replicate 9 RowDone ++ [Saved; RowDone] ++
    replicate 9 RowDone ++ [Saved; RowDone] ++
    replicate 5 RowDone ++ [Saved] ∧
  length (writes_to (csv_file_path BACKFILL_CONFIG) (trace r.2)) = 3%nat.
Proof. vm_compute. split; reflexivity. Qed.

Lemma backfill_saves_every_tenth_row_and_at_the_end_witness :
  ∃ new st',
    backfill_phase calm BACKFILL_CONFIG table25 fresh
      = (Return (table25_after 25), st') ∧
    extends fresh new st' ∧
    marks (csv_file_path BACKFILL_CONFIG) new
      = replicate 9 RowDone ++ [Saved; RowDone] ++
        replicate 9 RowDone ++ [Saved; RowDone] ++
        replicate 5 RowDone ++ [Saved] ∧
    writes_to (csv_file_path BACKFILL_CONFIG) new
      = [table25_after 10; table25_after 20; table25_after 25].
Proof.
  destruct (backfill_saves_every_tenth_row_and_at_the_end calm BACKFILL_CONFIG
              table25 fresh)
    as (df' & new & st' & Hrun & Hext & _ & Hwrites & _ & _ & H25).
  - reflexivity.
  - discriminate.
  - intros h path df _. reflexivity.
  - destruct (H25 eq_refl) as [Hmarks _].
    assert ((backfill_phase calm BACKFILL_CONFIG table25 fresh).1
            = Return (table25_after 25)) as Hc by (vm_compute; reflexivity).
    rewrite Hrun in Hc. injection Hc as ->.
    exists new, st'. split; [exact Hrun|]. split; [exact Hext|].
    split; [exact Hmarks|]. rewrite Hwrites.
    vm_compute. reflexivity.
Defined.

(** A first run over an empty table, in [two_pages]. *)
Lemma new_records_have_watch_url_and_default_statistics_witness :
  ∃ table st',
    main two_pages CONFIG 2 fresh = (Return (Some table), st') ∧
    length table = 53%nat ∧
    Forall2 (λ video record,
               video_id record = id_videoId video ∧
               video_url record
                 = Some ("https://www.youtube.com/watch?v=" +:+ id_videoId video))
            ((entry <$> seq 0 50) ++ (entry <$> seq 50 3)) table.
Proof.
  apply (proj2 (new_records_have_watch_url_and_default_statistics two_pages CONFIG)
           2%nat fresh (entry <$> seq 0 50) (entry <$> seq 50 3) "CDIQAA").
  - repeat split.
  - intros h path df _. reflexivity.
  - discriminate.
  - intros h part id. exact I.
  - reflexivity.
  - reflexivity.
  - intros h rq Hrq. unfold two_pages, with_search. simpl. rewrite Hrq. reflexivity.
  - intros h rq Hrq. unfold two_pages, with_search. simpl. rewrite Hrq. reflexivity.
  - reflexivity.
  - reflexivity.
  - lia.
Defined.

(** A second run with the shipped configuration: the two listed videos are
    in the table, nothing is written, the table comes back as loaded. *)
Lemma rerun_with_nothing_new_returns_loaded_table_witness :
  ∃ new st',
    main known_only CONFIG 1 (with_table [stored 0 None; stored 1 (Some "knead well")])
      = (Return (Some [stored 0 None; stored 1 (Some "knead well")]), st') ∧
    extends (with_table [stored 0 None; stored 1 (Some "knead well")]) new st' ∧
    files st' = files (with_table [stored 0 None; stored 1 (Some "knead well")]) ∧
    Forall (λ ev, match ev with EvToCsv _ _ _ => False | _ => True end) new.
Proof.
  apply (rerun_with_nothing_new_returns_loaded_table known_only CONFIG 0 1
           (with_table [stored 0 None; stored 1 (Some "knead well")])).
  - reflexivity.
  - reflexivity.
  - repeat split.
  - intros h rq _. reflexivity.
  - lia.
  - intros h rq response Hr. injection Hr as <-. simpl.
    repeat constructor; apply bool_decide_unpack; vm_compute; exact I.
Defined.

(** With the backfill switched on, a second run whose search finds nothing
    new changes the table on disk all the same: the transcript that failed
    on the first run is fetched again, now with success, and saved. *)
Lemma rerun_with_backfill_changes_the_table :
  nothing_new calm (list_to_set (video_id <$> table1)) ∧
  let r := main calm BACKFILL_CONFIG 1 (with_table table1) in
  r.1 = Return (Some [overwritten "mix the dough let it rest" "en"
                        (stored 0 (Some "Video Error"))]) ∧
  files r.2 !! csv_file_path BACKFILL_CONFIG
    = Some [overwritten "mix the dough let it rest" "en"
              (stored 0 (Some "Video Error"))] ∧
  files r.2 ≠ files (with_table table1).
Proof.
  split.
  - intros h rq response Hr. injection Hr as <-. constructor.
  - cbv zeta.
    assert (files (main calm BACKFILL_CONFIG 1 (with_table table1)).2
              !! csv_file_path BACKFILL_CONFIG
            = Some [overwritten "mix the dough let it rest" "en"
                      (stored 0 (Some "Video Error"))]) as Hfile
      by (vm_compute; reflexivity).
    split; [vm_compute; reflexivity|]. split; [exact Hfile|].
    intros Heq. rewrite Heq in Hfile. vm_compute in Hfile. discriminate Hfile.
Qed.

End Witnesses.

(** * The further properties at work on concrete worlds *)

Section MoreWitnesses.
Import Scenario Edge.

Lemma main_without_api_key_returns_none_witness :
  main no_key CONFIG 1 fresh
  = (Return None,
     fresh ▷ EvGetenv "YOUTUBE_API_KEY" None
           ▷ EvLog ERROR "API key not found. Please set YOUTUBE_API_KEY in your .env file."
           ▷ EvLog ERROR "Failed to initialize YouTube client: Missing API key"
           ▷ EvLog ERROR "An error occurred in the main process: Missing API key").
Proof.
  apply (main_without_api_key_returns_none no_key CONFIG 1 fresh). reflexivity.
Defined.

(** The client cannot be built; and, with the table in the working
    directory, the directory to make is the empty path. *)
Lemma main_stops_when_client_or_directory_fails_witness :
  main bad_client CONFIG 1 fresh
  = (Return None,
     fresh ▷ EvGetenv "YOUTUBE_API_KEY" (Some "key")
           ▷ EvBuild "key" (Some (Exception "unknown api name or version"))
           ▷ EvLog ERROR "Failed to initialize YouTube client: unknown api name or version"
           ▷ EvLog ERROR "An error occurred in the main process: unknown api name or version") ∧
  main no_directory FLAT_CONFIG 1 fresh
  = (Return None,
     fresh ▷ EvGetenv "YOUTUBE_API_KEY" (Some "key")
           ▷ EvBuild "key" None
           ▷ EvMakedirs "" (Some (Exception "[Errno 2] No such file or directory: ''"))
           ▷ EvLog ERROR "An error occurred in the main process: [Errno 2] No such file or directory: ''").
Proof.
  split.
  - apply (proj1 (main_stops_when_client_or_directory_fails bad_client CONFIG 1
                    fresh eq_refl)
             (Exception "unknown api name or version")).
    reflexivity.
  - apply (proj2 (main_stops_when_client_or_directory_fails no_directory
                    FLAT_CONFIG 1 fresh eq_refl)
             (Exception "[Errno 2] No such file or directory: ''")).
    + reflexivity.
    + reflexivity.
Defined.

Lemma fetch_video_details_without_batches_witness :
  fetch_video_details calm ZERO_BATCH_CONFIG "key" ids120 fresh
  = (Raise (Exception "range() arg 3 must not be zero"), fresh).
Proof.
  apply (proj1 (proj2 (fetch_video_details_without_batches calm ZERO_BATCH_CONFIG
                         "key" ids120 fresh))).
  - discriminate.
  - reflexivity.
Defined.

Lemma fetch_video_details_asks_each_batch_once_witness :
  ∃ out new st' (batches : list (list string)) (j : nat),
    fetch_video_details connection_lost_on_second CONFIG "key" ids120 fresh
      = (out, st') ∧
    extends fresh new st' ∧
    files st' = files fresh ∧
    concat batches = ids120 ∧
    Forall (λ b, 0 < len b ≤ batch_size CONFIG) batches ∧
    videos_requests new = join "," <$> take j batches ∧
    match out with
    | Return res => res = concat (videos_pages new)
    | Raise (Exception _) => True
    | _ => False
    end.
Proof.
  apply (fetch_video_details_asks_each_batch_once connection_lost_on_second CONFIG
           "key" ids120 fresh).
  - discriminate.
  - reflexivity.
Defined.

(** The connection is lost on the second of three batches: the fetcher
    raises, and what the first batch brought is lost with it. *)
Lemma fetch_video_details_lets_other_exceptions_through_witness :
  ∃ new st',
    fetch_video_details connection_lost_on_second CONFIG "key" ids120 fresh
      = (Raise (Exception "Connection reset by peer"), st') ∧
    extends fresh new st' ∧
    videos_calls new = 2%nat.
Proof.
  apply (fetch_video_details_lets_other_exceptions_through
           connection_lost_on_second CONFIG "key" ids120 1
           "Connection reset by peer" fresh).
  - reflexivity.
  - reflexivity.
  - intros h part id Hh. unfold connection_lost_on_second, with_videos. simpl.
    simpl in Hh. destruct (videos_calls h) as [|n]; [exact I|lia].
  - intros h part id Hh. unfold connection_lost_on_second, with_videos. simpl.
    simpl in Hh. rewrite Hh. reflexivity.
Defined.

Lemma fetch_video_details_sleeps_between_batches_witness :
  ∃ res new st',
    fetch_video_details calm CONFIG "key" ids120 fresh = (Return res, st') ∧
    extends fresh new st' ∧
    sleeps new
    = replicate (Z.to_nat (ceil_div (len ids120) (batch_size CONFIG)) - 1) 1.
Proof.
  apply (fetch_video_details_sleeps_between_batches calm CONFIG "key" ids120 fresh).
  - discriminate.
  - reflexivity.
  - intros h part id. eexists. reflexivity.
Defined.

Lemma search_youtube_videos_retries_without_bound_witness :
  ∃ new st',
    search_youtube_videos offline CONFIG 3 "key" ∅ fresh = (OutOfFuel, st') ∧
    extends fresh new st' ∧
    search_requests new = replicate 3 (search_request CONFIG None) ∧
    sleeps new = replicate 3 10.
Proof.
  apply (search_youtube_videos_retries_without_bound offline CONFIG "key" ∅ 3 fresh).
  intros h rq. exact I.
Defined.

Lemma process_videos_makes_one_record_per_entry_witness :
  ∃ new,
    extends fresh new
      (process_videos calm CONFIG "key" [entry 0; entry 1] false fresh).2 ∧
    length [bare_record 0; bare_record 1] = length [entry 0; entry 1] ∧
    Forall2 (made (concat (videos_pages new)) false)
            [entry 0; entry 1] [bare_record 0; bare_record 1].
Proof.
  apply (process_videos_makes_one_record_per_entry calm CONFIG "key"
           [entry 0; entry 1] false fresh [bare_record 0; bare_record 1]).
  vm_compute. reflexivity.
Defined.

Lemma update_missing_transcripts_with_nothing_missing_witness :
  ∃ new st',
    update_missing_transcripts calm CONFIG table2 fresh = (Return table2, st') ∧
    extends fresh new st' ∧
    files st' = files fresh ∧
    only [KLog] new.
Proof.
  apply (update_missing_transcripts_with_nothing_missing calm CONFIG table2 fresh).
  repeat constructor; eexists; (split; [reflexivity|]); split; discriminate.
Defined.

(** A run of [four_calls] over a table that has [video_name 1] already. *)
Lemma main_appends_new_records_after_loaded_rows_witness :
  ∃ records new st',
    main four_calls CONFIG 5 (with_table [stored 1 (Some "knead well")])
      = (Return (Some (loaded_table CONFIG (with_table [stored 1 (Some "knead well")])
                       ++ records)), st') ∧
    extends (with_table [stored 1 (Some "knead well")]) new st' ∧
    search_pages new = pages_of four_answers ∧
    video_id <$> records
    = id_videoId <$>
        filter (λ v, id_videoId v
                     ∉ video_id <$> loaded_table CONFIG
                                      (with_table [stored 1 (Some "knead well")]))
               (concat (pages_of four_answers)) ∧
    Forall (λ r, video_id r
                 ∉ video_id <$> loaded_table CONFIG
                                  (with_table [stored 1 (Some "knead well")]))
           records ∧
    writes_to (csv_file_path CONFIG) new
    = match records with
      | [] => []
      | _ => [loaded_table CONFIG (with_table [stored 1 (Some "knead well")])
              ++ records]
      end.
Proof.
  apply (main_appends_new_records_after_loaded_rows four_calls CONFIG four_answers
           5 (with_table [stored 1 (Some "knead well")])).
  - reflexivity.
  - reflexivity.
  - repeat split.
  - intros h path df _. reflexivity.
  - discriminate.
  - intros h part id. exact I.
  - split.
    + intros i a h Hi Hh. simpl in Hh.
      unfold request_after, four_calls, with_search. simpl. rewrite Hh.
      destruct i as [|[|[|[|i]]]]; simpl in Hi; [by injection Hi..|done].
    + exists [inr (mkSearchResponse (Some [entry 0; entry 1; entry 2])
                                    (Some "CAMQAA"));
              inl (HttpError 500 "backendError");
              inr (mkSearchResponse (Some [entry 3; entry 1]) (Some "CAUQAA"))],
             (inr (mkSearchResponse (Some [entry 4]) None)).
      split; [reflexivity|]. split; [|reflexivity].
      repeat constructor. discriminate.
  - simpl. lia.
Defined.

Lemma backfill_asks_again_for_rows_it_gave_up_witness :
  ∃ new st' new' st'',
    update_missing_transcripts captionless CONFIG table3 fresh
      = (Return (given_up <$> table3), st') ∧
    extends fresh new st' ∧
    (missing_transcripts (given_up <$> table3)).*1 = (missing_transcripts table3).*1 ∧
    update_missing_transcripts captionless CONFIG (given_up <$> table3) st'
      = (Return (given_up <$> table3), st'') ∧
    extends st' new' st'' ∧
    transcript_requests new' = transcript_requests new ∧
    transcript_requests new
      = filter (λ v, v ≠ "")
               (video_id <$> filter (λ r, needs_transcript r = true) table3).
Proof.
  apply (backfill_asks_again_for_rows_it_gave_up captionless CONFIG table3 fresh).
  - intros h path df _. reflexivity.
  - intros h id. eexists. reflexivity.
Defined.

(** A run with the refresh switched on, over the two videos that the
    search lists and the videos endpoint has counters for: one request for
    the two ids, and the rows come back with the counters of the answer in
    place of the stored ones. *)
Lemma main_saves_refreshed_statistics_before_searching_witness :
  ∃ before after st',
    main with_counters REFRESH_CONFIG 1 (with_table table2)
      = (Return (Some table2_refreshed), st') ∧
    extends (with_table table2) (before ++ after) st' ∧
    videos_requests before = ["video0,video1"] ∧
    writes_to (csv_file_path REFRESH_CONFIG) before = [table2_refreshed] ∧
    search_requests before = [] ∧
    writes_to (csv_file_path REFRESH_CONFIG) after = [] ∧
    videos_requests after = [] ∧
    transcript_requests (before ++ after) = [].
Proof.
  destruct (main_saves_refreshed_statistics_before_searching with_counters
              REFRESH_CONFIG counters 0 1 (with_table table2))
    as (before & after & st' & Hrun & Hext & Hrq & Hw & Hrest).
  - reflexivity.
  - reflexivity.
  - vm_compute. discriminate.
  - repeat split.
  - intros h path df _. reflexivity.
  - reflexivity.
  - intros h part id. reflexivity.
  - intros h rq _. reflexivity.
  - lia.
  - intros h rq response Hr. injection Hr as <-. simpl.
    repeat constructor; apply bool_decide_unpack; vm_compute; exact I.
  - assert (refreshed
              (details_from counters
                 (batches_of REFRESH_CONFIG
                    (video_id <$> loaded_table REFRESH_CONFIG (with_table table2))))
              <$> loaded_table REFRESH_CONFIG (with_table table2)
            = table2_refreshed) as Htable by (vm_compute; reflexivity).
    assert (join "," <$> batches_of REFRESH_CONFIG
              (video_id <$> loaded_table REFRESH_CONFIG (with_table table2))
            = ["video0,video1"]) as Hbatches by (vm_compute; reflexivity).
    rewrite Htable in Hrun, Hw. rewrite Hbatches in Hrq.
    exists before, after, st'. split; [exact Hrun|]. split; [exact Hext|].
    split; [exact Hrq|]. split; [exact Hw|exact Hrest].
Defined.

End MoreWitnesses.
